(** * DexTracker: the query expression engine

    A shallow embedding of [filter.py] and [module_loader.py]: the predicate
    library, the tokenizer, the term parser, the recursive-descent expression
    parser, the tolerant evaluation helpers, and the module filter compiler
    with its per-identifier cache.  Of their callers it has the marks and the
    alternate forms of the entries and the list of modules of [data.py], and
    the boxes of [box_manager.py] and [dex_adapter.py].

    Conventions of the embedding.
    - A Python [str] is a [string]; non-ASCII text is its UTF-8 bytes.  The
      character classes of the builtins ([str.lower], [str.split],
      [str.strip], the regular expression classes [\b] and [\d]) are the
      ASCII ones: a byte above 127 has no case, is no space, no digit and no
      word character.
    - A Python exception is a value of [exn]; code that may raise returns a
      [result].
    - A Python [float] is an exact rational, or an infinity, or a NaN
      ([pyfloat]).  Rounding to binary64 is not modelled, nor the reading of
      a value beyond the range of the floats as an infinity; where a
      statement depends on it, it is made for numbers that a float holds
      ([small], or integers of at most 2^50).
    - The parser functions take the list of the tokens that are left
      ([toks[i:]]) where the source passes [toks] and the index [i].  Their
      recursion is bounded by a depth that is proved to be enough for every
      token list; the recursion limit of the interpreter is not modelled,
      nor the depth of parentheses that its compiler accepts in the text
      that the module compiler generates.  The statements on what a
      compilation raises or returns, where these bounds would show, are made
      for queries of modest size ([modest]).
    - Inside a compiled query a [module:] term stands for the predicate of
      the module without its cache ([module_func]).  With the cache the term
      gives the same on entries with distinct identifiers; the statements on
      what such a query keeps of a list are made for these.
    - The entry store of [dex_adapter] and the module directory are the two
      fields of a [World]. *)

From Stdlib Require Import ZArith QArith Ascii String List Bool Lia DecimalString.
From stdpp Require Import base option gmap strings list.

Local Open Scope Z_scope.

(* ===================================================================== *)
(** * Exceptions and results *)
(* ===================================================================== *)

Inductive exn : Type :=
| ValueError (msg : string)
| TypeError
| AttributeError
| IndexError
| NameError (name : string)
| OverflowError
| RecursionError.

Inductive result (A : Type) : Type :=
| Ok (a : A)
| Raise (e : exn).
Arguments Ok {A} a.
Arguments Raise {A} e.

Global Instance result_ret : MRet result := fun _ a => Ok a.
Global Instance result_bind : MBind result := fun _ _ k r =>
  match r with
  | Ok a => k a
  | Raise e => Raise e
  end.

Definition is_ok {A : Type} (r : result A) : bool :=
  match r with Ok _ => true | Raise _ => false end.

(* ===================================================================== *)
(** * Strings: the builtins the engine uses *)
(* ===================================================================== *)

Module Str.

Definition code (c : ascii) : nat := nat_of_ascii c.

Definition in_range (lo hi : nat) (c : ascii) : bool :=
  (Nat.leb lo (code c)) && (Nat.leb (code c) hi).

(** [str.isspace] on ASCII: tab, newline, vertical tab, form feed, carriage
    return, the four separators 28 to 31, and the space. *)
Definition is_space (c : ascii) : bool :=
  in_range 9 13 c || in_range 28 32 c.

Definition is_digit (c : ascii) : bool := in_range 48 57 c.
Definition is_upper (c : ascii) : bool := in_range 65 90 c.
Definition is_lower (c : ascii) : bool := in_range 97 122 c.

(** The class [\w] on ASCII. *)
Definition is_word (c : ascii) : bool :=
  is_digit c || is_upper c || is_lower c || Nat.eqb (code c) 95.

Definition lower_char (c : ascii) : ascii :=
  if is_upper c then ascii_of_nat (code c + 32) else c.
Definition upper_char (c : ascii) : ascii :=
  if is_lower c then ascii_of_nat (code c - 32) else c.

Fixpoint map (f : ascii -> ascii) (s : string) : string :=
  match s with
  | EmptyString => EmptyString
  | String c r => String (f c) (map f r)
  end.

Definition lower : string -> string := map lower_char.
Definition upper : string -> string := map upper_char.

Definition eqb (a b : string) : bool := bool_decide (a = b).

Definition is_empty (s : string) : bool :=
  match s with EmptyString => true | String _ _ => false end.

(** [s.startswith(p)] *)
Fixpoint startswith (s p : string) : bool :=
  match p, s with
  | EmptyString, _ => true
  | String a p', String b s' => bool_decide (a = b) && startswith s' p'
  | String _ _, EmptyString => false
  end.

(** [s[n:]] *)
Fixpoint drop (n : nat) (s : string) : string :=
  match n, s with
  | O, _ => s
  | S n', String _ r => drop n' r
  | S _, EmptyString => EmptyString
  end.

(** [s[:-1]] *)
Fixpoint drop_last (s : string) : string :=
  match s with
  | EmptyString => EmptyString
  | String c r => if is_empty r then EmptyString else String c (drop_last r)
  end.

(** [s.endswith(c)] for a one-character suffix *)
Fixpoint ends_with_char (s : string) (c : ascii) : bool :=
  match s with
  | EmptyString => false
  | String a r => if is_empty r then bool_decide (a = c) else ends_with_char r c
  end.

(** [sub in s] *)
Fixpoint contains (sub s : string) : bool :=
  startswith s sub ||
  match s with
  | EmptyString => false
  | String _ r => contains sub r
  end.

Fixpoint lstrip (s : string) : string :=
  match s with
  | EmptyString => EmptyString
  | String c r => if is_space c then lstrip r else s
  end.

Fixpoint rstrip (s : string) : string :=
  match s with
  | EmptyString => EmptyString
  | String c r =>
    let r' := rstrip r in
    if is_space c && is_empty r' then EmptyString else String c r'
  end.

(** [s.strip()] *)
Definition strip (s : string) : string := rstrip (lstrip s).

(** [s.replace(c, "")] for a one-character [c] *)
Fixpoint remove_char (c : ascii) (s : string) : string :=
  match s with
  | EmptyString => EmptyString
  | String a r => if bool_decide (a = c) then remove_char c r
                  else String a (remove_char c r)
  end.

(** [s.split(c)] for a one-character separator: never empty, keeps empty
    fields. *)
Fixpoint split_char (c : ascii) (s : string) : list string :=
  match s with
  | EmptyString => [EmptyString]
  | String a r =>
    if bool_decide (a = c) then EmptyString :: split_char c r
    else match split_char c r with
         | [] => [String a EmptyString]
         | w :: ws => String a w :: ws
         end
  end.

(** [s.split(sep, 1)] when [sep] occurs in [s]: the text before and after
    the leftmost occurrence. *)
Fixpoint split_once (sep s : string) : option (string * string) :=
  if startswith s sep then Some (EmptyString, drop (String.length sep) s)
  else match s with
       | EmptyString => None
       | String c r =>
         match split_once sep r with
         | Some (a, b) => Some (String c a, b)
         | None => None
         end
       end.

(** [", ".join(l)] style joining *)
Fixpoint join (sep : string) (l : list string) : string :=
  match l with
  | [] => EmptyString
  | [x] => x
  | x :: rest => x +:+ sep +:+ join sep rest
  end.

(** [str(n)] for an [int] *)
Definition of_Z (z : Z) : string := NilZero.string_of_int (Z.to_int z).

End Str.

(* ===================================================================== *)
(** * Floats *)
(* ===================================================================== *)

(** A Python [float]: a finite value, kept as an exact rational, or one of
    the three special values. *)
Inductive pyfloat : Type :=
| Fin (q : Q)
| PInf
| NInf
| NaN.

Module Float.

Definition of_Z (z : Z) : pyfloat := Fin (inject_Z z).

(** [a <= b] *)
Definition le (a b : pyfloat) : bool :=
  match a, b with
  | NaN, _ | _, NaN => false
  | NInf, _ | _, PInf => true
  | Fin x, Fin y => Qle_bool x y
  | PInf, _ | _, NInf => false
  end.

(** [a < b] *)
Definition lt (a b : pyfloat) : bool :=
  match a, b with
  | NaN, _ | _, NaN => false
  | PInf, _ | _, NInf => false
  | Fin x, Fin y => negb (Qle_bool y x)
  | NInf, _ | _, PInf => true
  end.

(** [a == b] *)
Definition eq (a b : pyfloat) : bool :=
  match a, b with
  | Fin x, Fin y => Qeq_bool x y
  | PInf, PInf | NInf, NInf => true
  | _, _ => false
  end.

(** [a + b] *)
Definition add (a b : pyfloat) : pyfloat :=
  match a, b with
  | NaN, _ | _, NaN => NaN
  | PInf, NInf | NInf, PInf => NaN
  | PInf, _ | _, PInf => PInf
  | NInf, _ | _, NInf => NInf
  | Fin x, Fin y => Fin (Qred (x + y))
  end.

(** [int(x)]: truncation towards zero; the special values raise. *)
Definition to_int (x : pyfloat) : result Z :=
  match x with
  | Fin q => Ok (Z.quot (Qnum q) (Zpos (Qden q)))
  | PInf | NInf => Raise OverflowError
  | NaN => Raise (ValueError "cannot convert float NaN to integer")
  end.

(** ** [float(s)] for a string

    [floatvalue ::= [sign] (number [exponent] | "inf" | "infinity" | "nan")],
    [number ::= [digitpart] "." digitpart | digitpart ["."]],
    [digitpart ::= digit (["_"] digit)*], surrounded by optional
    whitespace. *)

Definition digit_val (c : ascii) : Z := Z.of_nat (Str.code c - 48).

(** The rest of a [digitpart] after its first digit: the value read so far,
    the number of digits read, and the text that is left. *)
Fixpoint digits_more (acc : Z) (n : nat) (s : string) : Z * nat * string :=
  match s with
  | String c r =>
    if Str.is_digit c then digits_more (10 * acc + digit_val c) (S n) r
    else if bool_decide (c = "_"%char) then
      match r with
      | String d r' =>
        if Str.is_digit d then digits_more (10 * acc + digit_val d) (S n) r'
        else (acc, n, s)
      | EmptyString => (acc, n, s)
      end
    else (acc, n, s)
  | EmptyString => (acc, n, s)
  end.

Definition digitpart (acc : Z) (s : string) : option (Z * nat * string) :=
  match s with
  | String c r =>
    if Str.is_digit c then Some (digits_more (10 * acc + digit_val c) 1 r)
    else None
  | EmptyString => None
  end.

(** Mantissa, number of fraction digits, rest. *)
Definition number (s : string) : option (Z * nat * string) :=
  match digitpart 0 s with
  | Some (m, _, rest) =>
    match rest with
    | String "." rest' =>
      match digitpart m rest' with
      | Some r => Some r
      | None => Some (m, O, rest')
      end
    | _ => Some (m, O, rest)
    end
  | None =>
    match s with
    | String "." rest' => digitpart 0 rest'
    | _ => None
    end
  end.

Definition sign (s : string) : bool * string :=
  match s with
  | String "-" r => (true, r)
  | String "+" r => (false, r)
  | _ => (false, s)
  end.

(** The exponent, when the text is exactly one, or nothing. *)
Definition exponent (s : string) : option Z :=
  match s with
  | EmptyString => Some 0
  | String c r =>
    if bool_decide (c = "e"%char) || bool_decide (c = "E"%char) then
      let '(neg, r') := sign r in
      match digitpart 0 r' with
      | Some (e, _, EmptyString) => Some (if neg then - e else e)
      | _ => None
      end
    else None
  end.

Definition scale (m : Z) (e : Z) : Q :=
  if Z.leb 0 e then inject_Z (m * 10 ^ e)
  else Qred (Qmake m (Z.to_pos (10 ^ (- e)))).

Definition of_string (s : string) : result pyfloat :=
  let '(neg, body) := sign (Str.strip s) in
  let low := Str.lower body in
  if Str.eqb low "inf" || Str.eqb low "infinity"
  then Ok (if neg then NInf else PInf)
  else if Str.eqb low "nan" then Ok NaN
  else
    match number body with
    | Some (m, k, rest) =>
      match exponent rest with
      | Some e => Ok (Fin (scale (if neg then - m else m) (e - Z.of_nat k)))
      | None => Raise (ValueError "could not convert string to float")
      end
    | None => Raise (ValueError "could not convert string to float")
    end.

End Float.

(* ===================================================================== *)
(** * Values read from the catalog *)
(* ===================================================================== *)

(** The JSON scalars that the entries carry.  A float is kept with the text
    [str] renders it as, since the engine reads it both ways. *)
Inductive pyval : Type :=
| VNone
| VBool (b : bool)
| VInt (z : Z)
| VFloat (x : pyfloat) (text : string)
| VStr (s : string).

Module Val.

(** [str(v)] *)
Definition str (v : pyval) : string :=
  match v with
  | VNone => "None"
  | VBool true => "True"
  | VBool false => "False"
  | VInt z => Str.of_Z z
  | VFloat _ text => text
  | VStr s => s
  end.

(** [float(v)] *)
Definition float (v : pyval) : result pyfloat :=
  match v with
  | VNone => Raise TypeError
  | VBool b => Ok (Float.of_Z (if b then 1 else 0))
  | VInt z => Ok (Float.of_Z z)
  | VFloat x _ => Ok x
  | VStr s => Float.of_string s
  end.

(** [bool(v)] *)
Definition truthy (v : pyval) : bool :=
  match v with
  | VNone => false
  | VBool b => b
  | VInt z => negb (Z.eqb z 0)
  | VFloat x _ => negb (Float.eq x (Float.of_Z 0))
  | VStr s => negb (Str.is_empty s)
  end.

(** [v.lower()]: only a [str] has the method. *)
Definition lower (v : pyval) : result string :=
  match v with
  | VStr s => Ok (Str.lower s)
  | _ => Raise AttributeError
  end.

End Val.

(* ===================================================================== *)
(** * Entries *)
(* ===================================================================== *)

(** One element of [item.games].  A key that the catalog leaves out reads as
    its default: [g.get("game", "")], [g.get("encounter_methods", [])]. *)
Record Game : Type := {
  game : string;
  encounter_methods : list string
}.

(** [data.Item], with the attributes that the predicates read.  [number] is
    the identifier, a string such as ["6"] or ["6.01"].  [has_alternate] is
    what [getattr(item, "has_alternate", False)] gives. *)
Record Item : Type := {
  name : string;
  form : string;
  number : string;
  categories : list string;
  tags : list string;
  marks : gmap string pyval;
  stats : gmap string pyval;
  games : list Game;
  evolutions : list pyval;
  has_alternate : bool
}.

(** A compiled matcher.  Its Python value is read through its truth value. *)
Abbreviation pred := (Item -> result bool).

(** [d.get(k, default)] *)
Definition dict_get {V : Type} (d : gmap string V) (k : string) (default : V) : V :=
  match d !! k with
  | Some v => v
  | None => default
  end.

(* ===================================================================== *)
(** * filter.py: utility helpers *)
(* ===================================================================== *)

Definition normalize_str (s : string) : string :=
  Str.remove_char " " (Str.remove_char "-" (Str.lower s)).

Definition normalize_method (m : string) : string :=
  let m_low := Str.lower m in
  if Str.eqb m_low "grass" || Str.eqb m_low "tallgrass" then "walk" else m_low.

(* ===================================================================== *)
(** * filter.py: primitive matchers *)
(* ===================================================================== *)

Section Matchers.

(** [dex_adapter.get_items_dict()]: the entry store, by identifier. *)
Variable items_dict : gmap string Item.

(** [dex_adapter.get_pokemon_info] *)
Definition get_pokemon_info (key : string) : option Item := items_dict !! key.

Definition match_name_filter (item : Item) (value : string) : result bool :=
  Ok (Str.contains value (Str.lower (name item))).

Definition match_number_filter (item : Item) (value : string) : result bool :=
  Ok (Str.eqb (number item) value).

Definition match_number_str_filter (item : Item) (value : string) : result bool :=
  Ok (Str.eqb (number item) value).

Definition match_category_filter (item : Item) (value : string) : result bool :=
  Ok (existsb (fun cat => Str.contains value (Str.lower cat)) (categories item)).

Definition match_tag_filter (item : Item) (value : string) : result bool :=
  Ok (existsb (fun tag => Str.contains value (Str.lower tag)) (tags item)).

Definition male_glyph : string := "♂".
Definition female_glyph : string := "♀".

Definition match_form_filter (item : Item) (value : option string) : result bool :=
  match value with
  | None => Ok (Str.contains "." (number item))
  | Some value =>
    let lower_val := Str.lower value in
    if Str.eqb lower_val "variant" then Ok (Str.contains "." (number item))
    else if Str.eqb lower_val "base" then
      Ok (negb (Str.contains "." (number item)) && has_alternate item)
    else if Str.eqb lower_val "all" || Str.eqb lower_val "any" then
      Ok (has_alternate item)
    else if Str.eqb lower_val "none" then Ok (negb (has_alternate item))
    else if Str.eqb lower_val "gender" then
      Ok (Str.contains male_glyph (form item) || Str.contains female_glyph (form item))
    else if Str.eqb lower_val "male" then
      Ok (Str.contains male_glyph (form item)
          || (Str.contains "male" (Str.lower (form item))
              && negb (Str.contains "female" (Str.lower (form item)))))
    else if Str.eqb lower_val "female" then
      Ok (Str.contains female_glyph (form item)
          || Str.contains "female" (Str.lower (form item)))
    else Ok (Str.contains lower_val (Str.lower (form item)))
  end.

Definition match_mark_filter (item : Item) (value : option string) : result bool :=
  match value with
  | None =>
    Ok (Val.truthy (dict_get (marks item) "flag" (VBool false))
        || Val.truthy (dict_get (marks item) "lock" (VBool false)))
  | Some value =>
    Ok (existsb (fun kv => Str.contains value (Str.lower (Val.str kv.2)))
                (map_to_list (marks item)))
  end.

Definition match_color_filter (item : Item) (value : option string) : result bool :=
  color ← Val.lower (dict_get (marks item) "color" (VStr "gray"));
  match value with
  | None => Ok (negb (Str.eqb color "gray"))
  | Some value => Ok (Str.eqb color value)
  end.

(** [sum(float(item.stats.get(k, 0)) for k in keys)] *)
Fixpoint sum_stats (item : Item) (keys : list string) (acc : pyfloat) : result pyfloat :=
  match keys with
  | [] => Ok acc
  | k :: rest =>
    x ← Val.float (dict_get (stats item) k (VInt 0));
    sum_stats item rest (Float.add acc x)
  end.

Definition match_stat_filter (item : Item) (criteria : string * string * pyfloat)
  : result bool :=
  let '(stat_name, operator, target_value) := criteria in
  stat_value ←
    (if Str.eqb stat_name "total"
     then sum_stats item ["atk"; "def"; "spd"; "spatk"; "spdef"; "hp"] (Float.of_Z 0)
     else Val.float (dict_get (stats item) stat_name (VInt 0)));
  if Str.eqb operator ">" then Ok (Float.lt target_value stat_value)
  else if Str.eqb operator ">=" then Ok (Float.le target_value stat_value)
  else if Str.eqb operator "<" then Ok (Float.lt stat_value target_value)
  else if Str.eqb operator "<=" then Ok (Float.le stat_value target_value)
  else if Str.eqb operator "=" then Ok (Float.eq stat_value target_value)
  else Raise (ValueError "Unknown operator").

Definition has_method (method_norm : string) (g : Game) : bool :=
  existsb (fun m => Str.eqb (normalize_method m) method_norm) (encounter_methods g).

Fixpoint match_in_games (gs : list Game) (game_norm : string)
         (method_norm : option string) : bool :=
  match gs with
  | [] => false
  | g :: rest =>
    if Str.eqb (normalize_str (game g)) game_norm then
      match method_norm with
      | None => true
      | Some m =>
        if Str.is_empty m then true
        else has_method m g || match_in_games rest game_norm method_norm
      end
    else match_in_games rest game_norm method_norm
  end.

Definition match_in_filter (item : Item) (game_method : string * option string)
  : result bool :=
  let '(game_filter, method_filter) := game_method in
  let game_norm := normalize_str game_filter in
  let method_norm :=
    match method_filter with
    | Some m => if Str.is_empty m then None else Some (normalize_method m)
    | None => None
    end in
  Ok (match_in_games (games item) game_norm method_norm).

Definition match_method_filter (item : Item) (method_value : string) : result bool :=
  let method_norm := normalize_method method_value in
  Ok (existsb (has_method method_norm) (games item)).

Definition match_source_filter (item : Item) (source_value : string) : result bool :=
  let source_norm := normalize_str source_value in
  let method_norm := normalize_method source_value in
  Ok (existsb (fun g => Str.eqb (normalize_str (game g)) source_norm
                        || has_method method_norm g)
              (games item)).

(** The entry that an evolution reference resolves to, if any. *)
Definition resolve_evo (evo_ref : pyval) : result (option Item) :=
  match evo_ref with
  | VInt z => Ok (get_pokemon_info (Str.of_Z z))
  | VBool b => Ok (get_pokemon_info (Str.of_Z (if b then 1 else 0)))
  | VFloat x _ => z ← Float.to_int x; Ok (get_pokemon_info (Str.of_Z z))
  | VStr s =>
    match Float.of_string s with
    | Ok _ => Ok (get_pokemon_info s)
    | Raise _ => Ok None
    end
  | VNone => Ok None
  end.

Fixpoint match_evol_refs (refs : list pyval) (evol_sub : string) : result bool :=
  match refs with
  | [] => Ok false
  | evo_ref :: rest =>
    evo_item ← resolve_evo evo_ref;
    match evo_item with
    | Some it =>
      if Str.contains evol_sub (Str.lower (name it)) then Ok true
      else match_evol_refs rest evol_sub
    | None =>
      if Str.contains evol_sub (Str.lower (Val.str evo_ref)) then Ok true
      else match_evol_refs rest evol_sub
    end
  end.

Definition match_evol_filter (item : Item) (evol_sub : string) : result bool :=
  match_evol_refs (evolutions item) (Str.lower evol_sub).

Definition match_number_range_filter (item : Item)
           (criteria : pyfloat * pyfloat * bool) : result bool :=
  let '(start, end_, include_forms) := criteria in
  match Float.of_string (number item) with
  | Raise _ => Ok false
  | Ok num =>
    if negb (Float.le start num && Float.le num end_) then Ok false
    else if negb include_forms && Str.contains "." (number item) then Ok false
    else Ok true
  end.

Definition match_module_filter (item : Item) (func : option pred) : result bool :=
  match func with
  | None => Ok true
  | Some f => f item
  end.

End Matchers.

(* ===================================================================== *)
(** * filter.py: tokenisation *)
(* ===================================================================== *)

Module Tok.

(** [" c "] *)
Definition pad (c : ascii) (rest : string) : string :=
  String " " (String c (String " " rest)).

(** [re.sub(r"([()])", r" \1 ", s)] *)
Fixpoint pad_parens (s : string) : string :=
  match s with
  | EmptyString => EmptyString
  | String c r =>
    if bool_decide (c = "("%char) || bool_decide (c = ")"%char)
    then pad c (pad_parens r)
    else String c (pad_parens r)
  end.

(** [s.replace("!", " ! ")] *)
Fixpoint pad_bang (s : string) : string :=
  match s with
  | EmptyString => EmptyString
  | String c r =>
    if bool_decide (c = "!"%char) then pad c (pad_bang r)
    else String c (pad_bang r)
  end.

(** [c] is the letter [l] (given in lower case), whatever its case. *)
Definition ci (c l : ascii) : bool := bool_decide (Str.lower_char c = l).

Definition starts_word (s : string) : bool :=
  match s with
  | EmptyString => false
  | String c _ => Str.is_word c
  end.

(** [re.sub(r"\b(OR|NOT|XOR)\b", r" \1 ", s, flags=re.IGNORECASE)].
    [pw] tells whether the character before [s] is a word character: a
    keyword starts at a word boundary, so only when [pw] is false, and ends
    at one, so only when a non-word character or the end follows.  After a
    match the scan goes on behind the keyword. *)
Fixpoint pad_keywords (pw : bool) (s : string) : string :=
  match s with
  | EmptyString => EmptyString
  | String c1 r1 =>
    let skip := String c1 (pad_keywords (Str.is_word c1) r1) in
    if pw then skip
    else
      match r1 with
      | EmptyString => skip
      | String c2 r2 =>
        if ci c1 "o" && ci c2 "r" && negb (starts_word r2)
        then String " " (String c1 (String c2 (String " " (pad_keywords true r2))))
        else
          match r2 with
          | EmptyString => skip
          | String c3 r3 =>
            if ((ci c1 "n" && ci c2 "o" && ci c3 "t")
                || (ci c1 "x" && ci c2 "o" && ci c3 "r"))
               && negb (starts_word r3)
            then String " " (String c1 (String c2 (String c3
                   (String " " (pad_keywords true r3)))))
            else skip
          end
      end
  end.

(** [s.replace("||", " || ")] *)
Fixpoint pad_pipes (s : string) : string :=
  match s with
  | EmptyString => EmptyString
  | String c1 r1 =>
    match r1 with
    | String c2 r2 =>
      if bool_decide (c1 = "|"%char) && bool_decide (c2 = "|"%char)
      then String " " (String c1 (String c2 (String " " (pad_pipes r2))))
      else String c1 (pad_pipes r1)
    | EmptyString => String c1 EmptyString
    end
  end.

Definition starts_nonspace (s : string) : bool :=
  match s with
  | EmptyString => false
  | String c _ => negb (Str.is_space c)
  end.

(** [s.split()]: the maximal runs of characters that are not spaces. *)
Fixpoint split (s : string) : list string :=
  match s with
  | EmptyString => []
  | String c r =>
    if Str.is_space c then split r
    else if negb (starts_nonspace r) then String c EmptyString :: split r
    else match split r with
         | w :: ws => String c w :: ws
         | [] => [String c EmptyString]
         end
  end.

(** ** Notions for the facts on the tokenizer *)

(** The length of the keyword that [s] starts with after a word boundary,
    or 0 when there is none. *)
Definition kw_len (s : string) : nat :=
  match s with
  | String c1 (String c2 r2) =>
    if ci c1 "o" && ci c2 "r" && negb (starts_word r2) then 2%nat
    else match r2 with
         | String c3 r3 =>
           if ((ci c1 "n" && ci c2 "o" && ci c3 "t")
               || (ci c1 "x" && ci c2 "o" && ci c3 "r"))
              && negb (starts_word r3)
           then 3%nat else 0%nat
         | EmptyString => 0%nat
         end
  | _ => 0%nat
  end.

(** The passes after the padding of parentheses and of [!]. *)
Definition post (s : string) : list string :=
  split (pad_pipes (pad_keywords false s)).

Fixpoint all_space (s : string) : bool :=
  match s with
  | EmptyString => true
  | String c r => Str.is_space c && all_space r
  end.

End Tok.

Definition tokenize (s : string) : list string :=
  Tok.split (Tok.pad_pipes (Tok.pad_keywords false (Tok.pad_bang (Tok.pad_parens s)))).

(* ===================================================================== *)
(** * filter.py: the term parser *)
(* ===================================================================== *)

(** The pair [(kind, value)] that [_parse_filter_term] returns, one
    constructor per kind with the value that kind carries. *)
Inductive filter_term : Type :=
| T_name (value : string)
| T_number (value : string)
| T_number_str (value : string)
| T_number_range (criteria : pyfloat * pyfloat * bool)
| T_category (value : string)
| T_tag (value : string)
| T_form (value : option string)
| T_mark (value : option string)
| T_color (value : option string)
| T_stat (criteria : string * string * pyfloat)
| T_in (game_method : string * option string)
| T_method (value : string)
| T_source (value : string)
| T_evol (value : string)
| T_module (func : option pred).

(** The first component of the pair. *)
Definition term_type (t : filter_term) : string :=
  match t with
  | T_name _ => "name"
  | T_number _ => "number"
  | T_number_str _ => "number_str"
  | T_number_range _ => "number_range"
  | T_category _ => "category"
  | T_tag _ => "tag"
  | T_form _ => "form"
  | T_mark _ => "mark"
  | T_color _ => "color"
  | T_stat _ => "stat"
  | T_in _ => "in"
  | T_method _ => "method"
  | T_source _ => "source"
  | T_evol _ => "evol"
  | T_module _ => "module"
  end.

(** [re.match(r"^\d+(\.\d+)?$", value)] *)
Fixpoint all_digits (s : string) : bool :=
  match s with
  | EmptyString => true
  | String c r => Str.is_digit c && all_digits r
  end.

Definition is_decimal_number (value : string) : bool :=
  match Str.split_char "." value with
  | [a] => negb (Str.is_empty a) && all_digits a
  | [a; b] => negb (Str.is_empty a) && all_digits a
              && negb (Str.is_empty b) && all_digits b
  | _ => false
  end.

(** [next((o for o in ops if o in stat_expr), None)] *)
Definition first_op (stat_expr : string) : option string :=
  find (fun o => Str.contains o stat_expr) ["<="; ">="; "<"; ">"; "="].

(** [s or None] *)
Definition or_None (s : string) : option string :=
  if Str.is_empty s then None else Some s.

Section TermParser.

(** [_load_module(filename)["filter_function"]], or [None] when the module
    cannot be loaded. *)
Variable _load_module : string -> option pred.

Definition parse_number_range (term : string) : result filter_term :=
  let token := Str.strip (Str.drop 1 term) in
  let include_forms := Str.ends_with_char token "f" in
  let token := if include_forms then Str.drop_last token else token in
  if Str.contains "-" token then
    match Str.split_char "-" token with
    | [a; b] =>
      start ← Float.of_string a;
      end_ ← Float.of_string b;
      Ok (T_number_range (start, end_, include_forms))
    | a :: b :: c :: _ =>
      _ ← Float.of_string a;
      _ ← Float.of_string b;
      _ ← Float.of_string c;
      Raise (ValueError "too many values to unpack (expected 2)")
    | _ => Raise (ValueError "not enough values to unpack (expected 2)")
    end
  else
    start ← Float.of_string token;
    Ok (T_number_range (start, start, include_forms)).

Definition parse_in (term : string) : filter_term :=
  match Str.split_char ":" (Str.drop 3 term) with
  | [] => T_in (EmptyString, None)
  | [game] => T_in (Str.strip game, None)
  | game :: m :: _ => T_in (Str.strip game, Some (Str.strip m))
  end.

Definition parse_stat (low : string) : result filter_term :=
  let stat_expr := Str.drop 5 low in
  match first_op stat_expr with
  | None => Raise (ValueError "stat filter missing operator")
  | Some op =>
    match Str.split_once op stat_expr with
    | None => Raise (ValueError "not enough values to unpack (expected 2)")
    | Some (p1, p2) =>
      let stat_name := Str.strip p1 in
      let val := Str.strip p2 in
      let stat_name :=
        if Str.eqb stat_name "sat" then "spatk"
        else if Str.eqb stat_name "sdf" then "spdef"
        else stat_name in
      target ← Float.of_string val;
      Ok (T_stat (stat_name, op, target))
    end
  end.

Definition _parse_filter_term (term : string) : result filter_term :=
  let low := Str.strip (Str.lower term) in
  if Str.startswith low "@" then Ok (T_category (Str.strip (Str.drop 1 term)))
  else if Str.startswith term "#" then parse_number_range term
  else if Str.startswith low "in:" then Ok (parse_in term)
  else if Str.startswith low "method:" then Ok (T_method (Str.strip (Str.drop 7 term)))
  else if Str.startswith low "source:" then Ok (T_source (Str.strip (Str.drop 7 term)))
  else if Str.startswith term "+" then Ok (T_evol (Str.strip (Str.drop 1 term)))
  else if Str.startswith low "module:" then
    let filename := Str.strip (Str.drop (String.length "module:") term) in
    Ok (T_module (_load_module filename))
  else if Str.startswith low "num:" then
    let value := Str.strip (Str.drop 4 term) in
    if is_decimal_number value then Ok (T_number value)
    else Ok (T_number_str value)
  else if Str.startswith low "name:" then Ok (T_name (Str.drop 5 low))
  else if Str.startswith low "cat:" then Ok (T_category (Str.drop 4 low))
  else if Str.startswith low "tag:" then Ok (T_tag (Str.drop 4 low))
  else if Str.startswith low "form:" then
    Ok (T_form (or_None (Str.strip (Str.drop 5 term))))
  else if Str.startswith low "mark:" then Ok (T_mark (Some (Str.drop 5 low)))
  else if Str.eqb low "mark" then Ok (T_mark None)
  else if Str.startswith low "color:" then Ok (T_color (Some (Str.drop 6 low)))
  else if Str.eqb low "color" then Ok (T_color None)
  else if Str.startswith low "stat:" then parse_stat low
  else Ok (T_name low).

End TermParser.

(* ===================================================================== *)
(** * filter.py: the recursive-descent parser *)
(* ===================================================================== *)

(** The closures that the parser builds. *)
Definition p_or (a b : pred) : pred :=
  fun itm => x ← a itm; if (x : bool) then Ok true else b itm.
Definition p_xor (a b : pred) : pred :=
  fun itm => x ← a itm; y ← b itm; Ok (xorb x y).
Definition p_and (a b : pred) : pred :=
  fun itm => x ← a itm; if (x : bool) then b itm else Ok false.
Definition p_not (f : pred) : pred :=
  fun itm => x ← f itm; Ok (negb x).

(** The tests on tokens, as the source writes them. *)
Definition is_not_tok (t : string) : bool :=
  Str.eqb t "!" || Str.eqb (Str.upper t) "NOT".
Definition is_or_tok (t : string) : bool :=
  Str.eqb (Str.upper t) "OR" || Str.eqb (Str.upper t) "||".
Definition is_xor_tok (t : string) : bool :=
  Str.eqb (Str.upper t) "XOR".
Definition is_and_tok (t : string) : bool :=
  Str.eqb (Str.upper t) "AND" || Str.eqb (Str.upper t) "&&".
(** [toks[i] in (")", "OR", "||", "XOR")]: the test that ends the loop of
    [_parse_and]; it compares the token as it is. *)
Definition and_stop (t : string) : bool :=
  Str.eqb t ")" || Str.eqb t "OR" || Str.eqb t "||" || Str.eqb t "XOR".

(** The inner [while] of [_parse_not]: all the negation tokens in a row. *)
Fixpoint skip_nots (toks : list string) : list string :=
  match toks with
  | t :: rest => if is_not_tok t then skip_nots rest else toks
  | [] => []
  end.

Section Parser.

Variable items_dict : gmap string Item.
Variable _load_module : string -> option pred.

(** [mapping[term_type]] applied to the entry and the value. *)
Definition apply_term (t : filter_term) : pred :=
  fun itm =>
    match t with
    | T_name v => match_name_filter itm v
    | T_number v => match_number_filter itm v
    | T_number_str v => match_number_str_filter itm v
    | T_number_range c => match_number_range_filter itm c
    | T_category v => match_category_filter itm v
    | T_tag v => match_tag_filter itm v
    | T_form v => match_form_filter itm v
    | T_mark v => match_mark_filter itm v
    | T_color v => match_color_filter itm v
    | T_stat c => match_stat_filter itm c
    | T_in gm => match_in_filter itm gm
    | T_method v => match_method_filter itm v
    | T_source v => match_source_filter itm v
    | T_evol v => match_evol_filter items_dict itm v
    | T_module f => match_module_filter itm f
    end.

(** The five parsers and their loops.  The first argument bounds the depth
    of the calls; [_parse_expression] gives enough of it. *)
Fixpoint _parse_or (n : nat) (toks : list string) : result (pred * list string) :=
  match n with
  | O => Raise RecursionError
  | S n =>
    '(l, rest) ← _parse_xor n toks;
    or_loop n l rest
  end
with or_loop (n : nat) (l : pred) (toks : list string) : result (pred * list string) :=
  match n with
  | O => Raise RecursionError
  | S n =>
    match toks with
    | t :: rest =>
      if is_or_tok t then
        '(r, rest') ← _parse_xor n rest;
        or_loop n (p_or l r) rest'
      else Ok (l, toks)
    | [] => Ok (l, toks)
    end
  end
with _parse_xor (n : nat) (toks : list string) : result (pred * list string) :=
  match n with
  | O => Raise RecursionError
  | S n =>
    '(l, rest) ← _parse_and n toks;
    xor_loop n l rest
  end
with xor_loop (n : nat) (l : pred) (toks : list string) : result (pred * list string) :=
  match n with
  | O => Raise RecursionError
  | S n =>
    match toks with
    | t :: rest =>
      if is_xor_tok t then
        '(r, rest') ← _parse_and n rest;
        xor_loop n (p_xor l r) rest'
      else Ok (l, toks)
    | [] => Ok (l, toks)
    end
  end
with _parse_and (n : nat) (toks : list string) : result (pred * list string) :=
  match n with
  | O => Raise RecursionError
  | S n =>
    '(l, rest) ← _parse_not n toks;
    and_loop n l rest
  end
with and_loop (n : nat) (l : pred) (toks : list string) : result (pred * list string) :=
  match n with
  | O => Raise RecursionError
  | S n =>
    match toks with
    | t :: rest =>
      if and_stop t then Ok (l, toks)
      else if is_and_tok t then and_loop n l rest
      else
        '(r, rest') ← _parse_not n toks;
        and_loop n (p_and l r) rest'
    | [] => Ok (l, toks)
    end
  end
with _parse_not (n : nat) (toks : list string) : result (pred * list string) :=
  match n with
  | O => Raise RecursionError
  | S n =>
    match toks with
    | t :: _ =>
      if is_not_tok t then
        '(op, rest) ← _parse_not n (skip_nots toks);
        Ok (p_not op, rest)
      else _parse_primary n toks
    | [] => _parse_primary n toks
    end
  end
with _parse_primary (n : nat) (toks : list string) : result (pred * list string) :=
  match n with
  | O => Raise RecursionError
  | S n =>
    match toks with
    | [] => Raise (ValueError "Unexpected end of expression")
    | tok :: rest =>
      if Str.eqb tok "(" then
        '(expr, rest') ← _parse_or n rest;
        match rest' with
        | t :: rest'' =>
          if Str.eqb t ")" then Ok (expr, rest'')
          else Raise (ValueError "Expected ')'")
        | [] => Raise (ValueError "Expected ')'")
        end
      else
        t ← _parse_filter_term _load_module tok;
        Ok (apply_term t, rest)
    end
  end.

Definition _parse_expression (tokens : list string) : result pred :=
  '(expr, rest) ← _parse_or (5 * length tokens + 5) tokens;
  match rest with
  | [] => Ok expr
  | _ :: _ => Raise (ValueError "Unexpected token(s)")
  end.

(* =================================================================== *)
(** * filter.py: evaluation helpers *)
(* =================================================================== *)

Definition _compile (filter_string : string) : result pred :=
  _parse_expression (tokenize filter_string).

(** [except Exception: return None] *)
Definition _safe_compile (filter_string : string) : option pred :=
  match _compile filter_string with
  | Ok matcher => Some matcher
  | Raise _ => None
  end.

End Parser.

(* ===================================================================== *)
(** * module_loader.py: from the module document to the filter string *)
(* ===================================================================== *)

Definition REGION_RANGES : list (string * (Z * Z)) :=
  [ ("Kanto",   (1,   151));
    ("Johto",   (152, 251));
    ("Hoenn",   (252, 386));
    ("Sinnoh",  (387, 493));
    ("Unova",   (494, 649));
    ("Kalos",   (650, 721));
    ("Alola",   (722, 807));
    ("Unknown", (808, 809));
    ("Galar",   (810, 898));
    ("Hisui",   (899, 905));
    ("Paldea",  (906, 1025)) ].

Definition region_range (region : string) : option (Z * Z) :=
  snd <$> find (fun kv => Str.eqb kv.1 region) REGION_RANGES.

(** A JSON object whose values are read as truth values, in the order of
    its keys. *)
Abbreviation flags := (list (string * bool)).

(** The keys of a module document that the loader reads.  A key that the
    document leaves out is the empty string, the empty object or [false], as
    the [.get] defaults of the source. *)
Record ModuleDoc : Type := {
  enabled : bool;
  filter_constraints : string;
  regions : flags;
  hcv_by_form_name : flags;
  hcv_by_species_name : flags;
  hcv_special_handling : flags;
  hiv_battle_by_species_name : flags;
  hiv_battle_by_form_name : flags;
  hiv_item_by_species_name : flags;
  hiv_item_by_form_name : flags;
  hiv_special_handling : flags
}.

(** The keys that are switched off: [[k for k, inc in d.items() if not inc]]. *)
Definition excluded (d : flags) : list string :=
  fst <$> filter (fun kv => kv.2 = false) d.

Definition region_tokens (d : flags) : list string :=
  omap (fun region =>
          match region_range region with
          | Some (start, end_) =>
            Some ("#" +:+ Str.of_Z start +:+ "-" +:+ Str.of_Z end_ +:+ "f")
          | None => None
          end)
       (excluded d).

Definition form_tokens (d : flags) : list string :=
  (fun f => "form:" +:+ Str.lower f) <$> excluded d.

Definition species_tokens (d : flags) : list string :=
  match Str.lower <$> excluded d with
  | [] => []
  | species => ["((" +:+ Str.join " OR " species +:+ ") AND form:variant)"]
  end.

Definition hcv_special (key : string) : list string :=
  let kl := Str.lower key in
  if Str.eqb kl "gender_cosmetic" then ["form:♀"]
  else if Str.eqb kl "gender_forms" then ["form:female"]
  else if Str.eqb kl "alcremie_sweets" then ["#869.01-869.06f"]
  else if Str.eqb kl "alcremie_full" then ["#869.07-869.62f"]
  else if Str.eqb kl "zygarde" then ["(zygarde AND form:variant)"]
  else if Str.eqb kl "zygarde_power_construct" then ["(zygarde AND form:construct)"]
  else if Str.eqb kl "minior_core" then ["(minior AND NOT form:meteor AND form:variant)"]
  else if Str.eqb kl "pikachu_hat" then ["(pikachu AND form:cap)"]
  else [kl].

Definition hiv_special (key : string) : list string :=
  let kl := Str.lower key in
  if Str.eqb kl "fusion" then
    ["#646.01f"; "#646.02f"; "#800.01f"; "#800.02f"; "#898.01f"; "#898.02f"]
  else if Str.eqb kl "pikachu_cosplay" then ["#25.01-25.06f"]
  else if Str.eqb kl "lgpe_partner" then ["#25.15"; "#133.01"]
  else if Str.eqb kl "floette_eternal" then ["#670.05f"]
  else if Str.eqb kl "minior_meteor" then ["(form:meteor AND form:variant)"]
  else if Str.eqb kl "therian" then ["form:therian"]
  else [kl].

(** The list [tokens] that [build_module_filter_string] collects. *)
Definition module_tokens (mod_ : ModuleDoc) : list string :=
  let fc := Str.strip (filter_constraints mod_) in
  (if Str.is_empty fc then [] else ["(" +:+ fc +:+ ")"])
  ++ region_tokens (regions mod_)
  ++ form_tokens (hcv_by_form_name mod_)
  ++ species_tokens (hcv_by_species_name mod_)
  ++ concat (hcv_special <$> excluded (hcv_special_handling mod_))
  ++ species_tokens (hiv_battle_by_species_name mod_)
  ++ form_tokens (hiv_battle_by_form_name mod_)
  ++ species_tokens (hiv_item_by_species_name mod_)
  ++ form_tokens (hiv_item_by_form_name mod_)
  ++ concat (hiv_special <$> excluded (hiv_special_handling mod_)).

Definition build_module_filter_string (mod_ : ModuleDoc) : string :=
  match module_tokens mod_ with
  | [] => ""
  | tokens => "NOT (" +:+ Str.join " OR " tokens +:+ ")"
  end.

(* ===================================================================== *)
(** * module_loader.py: the compiler to a Python expression *)
(* ===================================================================== *)

Definition tokenize_code (s : string) : list string :=
  Tok.split (Tok.pad_pipes (Tok.pad_keywords false (Tok.pad_bang (Tok.pad_parens s)))).

(** The text that the compiler builds is a fully parenthesised Python
    expression; it is kept as the tree that [exec] reads it as:
    - [E_call t] is ["match_<kind>_filter(item, <repr(value)>)"],
    - [E_not e] is ["(not e)"],
    - [E_and a b] is ["(a and b)"],
    - [E_xor a b] is ["(bool(a) ^ bool(b))"],
    - [E_or a b] is ["(a or b)"]. *)
Inductive pyexpr : Type :=
| E_call (t : filter_term)
| E_not (e : pyexpr)
| E_and (a b : pyexpr)
| E_xor (a b : pyexpr)
| E_or (a b : pyexpr).

Definition code_for_term (t : filter_term) : result pyexpr :=
  match t with
  | T_module _ => Raise (ValueError "Unknown term type: module")
  | _ => Ok (E_call t)
  end.

(** The [while] of [code_parse_not]: it counts the negation tokens and reads
    [tokens[i]] without a bound check. *)
Fixpoint count_nots (toks : list string) : result (nat * list string) :=
  match toks with
  | [] => Raise IndexError
  | t :: rest =>
    if is_not_tok t then
      '(cnt, rest') ← count_nots rest;
      Ok (S cnt, rest')
    else Ok (O, toks)
  end.

(** [_parse_filter_term] as the module compiler calls it.  A [module:] term
    makes [code_for_term] raise whatever the nested load returned, so the
    nested load is left out. *)
Definition parse_term_for_code (tok : string) : result filter_term :=
  _parse_filter_term (fun _ => None) tok.

Fixpoint code_parse_or (n : nat) (tokens : list string) : result (pyexpr * list string) :=
  match n with
  | O => Raise RecursionError
  | S n =>
    '(left_, rest) ← code_parse_xor n tokens;
    code_or_loop n left_ rest
  end
with code_or_loop (n : nat) (left_ : pyexpr) (tokens : list string)
  : result (pyexpr * list string) :=
  match n with
  | O => Raise RecursionError
  | S n =>
    match tokens with
    | t :: rest =>
      if is_or_tok t then
        '(right_, rest') ← code_parse_xor n rest;
        code_or_loop n (E_or left_ right_) rest'
      else Ok (left_, tokens)
    | [] => Ok (left_, tokens)
    end
  end
with code_parse_xor (n : nat) (tokens : list string) : result (pyexpr * list string) :=
  match n with
  | O => Raise RecursionError
  | S n =>
    '(left_, rest) ← code_parse_and n tokens;
    code_xor_loop n left_ rest
  end
with code_xor_loop (n : nat) (left_ : pyexpr) (tokens : list string)
  : result (pyexpr * list string) :=
  match n with
  | O => Raise RecursionError
  | S n =>
    match tokens with
    | t :: rest =>
      if is_xor_tok t then
        '(right_, rest') ← code_parse_and n rest;
        code_xor_loop n (E_xor left_ right_) rest'
      else Ok (left_, tokens)
    | [] => Ok (left_, tokens)
    end
  end
with code_parse_and (n : nat) (tokens : list string) : result (pyexpr * list string) :=
  match n with
  | O => Raise RecursionError
  | S n =>
    '(left_, rest) ← code_parse_not n tokens;
    code_and_loop n left_ rest
  end
with code_and_loop (n : nat) (left_ : pyexpr) (tokens : list string)
  : result (pyexpr * list string) :=
  match n with
  | O => Raise RecursionError
  | S n =>
    match tokens with
    | t :: rest =>
      if and_stop t then Ok (left_, tokens)
      else if is_and_tok t then code_and_loop n left_ rest
      else
        '(right_, rest') ← code_parse_not n tokens;
        code_and_loop n (E_and left_ right_) rest'
    | [] => Ok (left_, tokens)
    end
  end
with code_parse_not (n : nat) (tokens : list string) : result (pyexpr * list string) :=
  match n with
  | O => Raise RecursionError
  | S n =>
    match tokens with
    | [] => Raise IndexError
    | t :: _ =>
      if is_not_tok t then
        '(cnt, rest) ← count_nots tokens;
        '(operand, rest') ← code_parse_not n rest;
        if Nat.odd cnt then Ok (E_not operand, rest') else Ok (operand, rest')
      else code_parse_primary n tokens
    end
  end
with code_parse_primary (n : nat) (tokens : list string) : result (pyexpr * list string) :=
  match n with
  | O => Raise RecursionError
  | S n =>
    match tokens with
    | [] => Raise IndexError
    | tok :: rest =>
      if Str.eqb tok "(" then
        '(expr, rest') ← code_parse_or n rest;
        match rest' with
        | [] => Raise IndexError
        | t :: rest'' =>
          if Str.eqb t ")" then Ok (expr, rest'')
          else Raise (ValueError "Expected ')'")
        end
      else
        t ← parse_term_for_code tok;
        e ← code_for_term t;
        Ok (e, rest)
    end
  end.

Definition compile_filter_string (s : string) : result pyexpr :=
  '(expr, rest) ← code_parse_or (5 * length (tokenize_code s) + 5) (tokenize_code s);
  match rest with
  | [] => Ok expr
  | _ :: _ => Raise (ValueError "Trailing tokens")
  end.

(** ** Running the generated function *)

(** The name that [repr] writes for a float that is not finite, and that the
    environment of [exec] does not bind. *)
Definition unbound_name (x : pyfloat) : option string :=
  match x with
  | Fin _ => None
  | PInf | NInf => Some "inf"
  | NaN => Some "nan"
  end.

(** Evaluating the literal [repr(value)] of a term. *)
Definition eval_literal (t : filter_term) : result unit :=
  match t with
  | T_number_range (start, end_, _) =>
    match unbound_name start, unbound_name end_ with
    | Some x, _ => Raise (NameError x)
    | None, Some x => Raise (NameError x)
    | None, None => Ok tt
    end
  | T_stat (_, _, target) =>
    match unbound_name target with
    | Some x => Raise (NameError x)
    | None => Ok tt
    end
  | _ => Ok tt
  end.

Section Exec.

Variable items_dict : gmap string Item.

(** The value of the expression for [item], as a truth value. *)
Fixpoint eval_expr (e : pyexpr) (item : Item) : result bool :=
  match e with
  | E_call t =>
    _ ← eval_literal t;
    apply_term items_dict t item
  | E_not e => x ← eval_expr e item; Ok (negb x)
  | E_and a b => x ← eval_expr a item; if (x : bool) then eval_expr b item else Ok false
  | E_xor a b => x ← eval_expr a item; y ← eval_expr b item; Ok (xorb x y)
  | E_or a b => x ← eval_expr a item; if (x : bool) then Ok true else eval_expr b item
  end.

(** [compile_module_filter]: the function [_f] that [exec] defines. *)
Definition compile_module_filter (filter_string : string) : result pred :=
  if Str.is_empty (Str.strip filter_string) then Ok (fun item => Ok true)
  else
    expr ← compile_filter_string filter_string;
    Ok (eval_expr expr).

End Exec.

(* ===================================================================== *)
(** * module_loader.py: [load_module] and its cache *)
(* ===================================================================== *)

Section Cached.

(** The compiled predicate [func] may have effects of its own; they act on
    a state [S]. *)
Context {S : Type}.
Variable func : Item -> S -> result bool * S.

(** The closure [cached] of [load_module]; [cache] is the dictionary that
    it closes over. *)
Definition cached (item : Item) (st : gmap string bool * S)
  : result bool * (gmap string bool * S) :=
  let '(cache, s) := st in
  let key := number item in
  match cache !! key with
  | Some res => (Ok res, (cache, s))
  | None =>
    match func item s with
    | (Ok res, s') => (Ok res, (<[key := res]> cache, s'))
    | (Raise e, s') => (Raise e, (cache, s'))
    end
  end.

(** [[item for item in items if cached(item)]] *)
Fixpoint filter_cached (items : list Item) (st : gmap string bool * S)
  : result (list Item) * (gmap string bool * S) :=
  match items with
  | [] => (Ok [], st)
  | item :: rest =>
    match cached item st with
    | (Ok keep, st') =>
      match filter_cached rest st' with
      | (Ok kept, st'') => (Ok (if keep then item :: kept else kept), st'')
      | (Raise e, st'') => (Raise e, st'')
      end
    | (Raise e, st') => (Raise e, st')
    end
  end.

End Cached.

(** A predicate without effects. *)
Definition pure_func (f : pred) : Item -> unit -> result bool * unit :=
  fun item s => (f item, s).

(** A predicate that counts how often it is invoked. *)
Definition counting (f : pred) : Item -> nat -> result bool * nat :=
  fun item calls => (f item, Datatypes.S calls).

(** The dictionary that [load_module] returns, with the keys that the engine
    reads.  [filter_function] is the closure [cached] over [func] and a cache
    that is empty when the module is loaded; the record keeps [func]. *)
Record ModData : Type := {
  func : pred;
  filter_string : string
}.

(** What the engine reads of its collaborators: the entry store of
    [dex_adapter] and the module directory, a file name giving the document
    that [json.load] reads there. *)
Record World : Type := {
  _items_dict : gmap string Item;
  MODULES : gmap string ModuleDoc
}.

Definition load_module (w : World) (module_filename : string) : result (option ModData) :=
  match MODULES w !! module_filename with
  | None => Ok None
  | Some mod_ =>
    if negb (enabled mod_) then Ok None
    else
      let fs := build_module_filter_string mod_ in
      f ← compile_module_filter (_items_dict w) fs;
      Ok (Some {| func := f; filter_string := fs |})
  end.

(** [filter._load_module]: [module_loader.load_module], then
    [data.load_module], which calls it again; any exception gives [None]. *)
Definition _load_module (w : World) (filename : string) : option ModData :=
  match load_module w filename with
  | Ok r => r
  | Raise _ =>
    match load_module w filename with
    | Ok r => r
    | Raise _ => None
    end
  end.

(** [mod_data["filter_function"]] inside a compiled query.  The closure asks
    its cache first; in one pass over entries with distinct identifiers every
    key is new, and the closure gives what [func] gives. *)
Definition module_func (w : World) (filename : string) : option pred :=
  func <$> _load_module w filename.

(* ===================================================================== *)
(** * filter.py: [filter_items] and [filter_item] *)
(* ===================================================================== *)

(** [[itm for itm in items if matcher(itm)]] *)
Fixpoint filter_by (matcher : pred) (items : list Item) : result (list Item) :=
  match items with
  | [] => Ok []
  | itm :: rest =>
    keep ← matcher itm;
    kept ← filter_by matcher rest;
    Ok (if (keep : bool) then itm :: kept else kept)
  end.

Definition compile (w : World) (filter_string : string) : result pred :=
  _compile (_items_dict w) (module_func w) filter_string.

Definition safe_compile (w : World) (filter_string : string) : option pred :=
  _safe_compile (_items_dict w) (module_func w) filter_string.

Definition filter_items (w : World) (items : list Item) (filter_string : string)
  : result (list Item) :=
  let filter_string := Str.strip filter_string in
  if Str.is_empty filter_string then Ok items
  else if Str.startswith (Str.lower filter_string) "module:" then
    let filename := Str.strip (Str.drop (String.length "module:") filter_string) in
    match _load_module w filename with
    | None => Ok items
    | Some mod_data => (filter_cached (pure_func (func mod_data)) items (∅, tt)).1
    end
  else
    match safe_compile w filter_string with
    | None => Ok items
    | Some matcher => filter_by matcher items
    end.

Definition filter_item (w : World) (item_dict : gmap string pyval) (filter_string : string)
  : bool :=
  let key := Val.str (dict_get item_dict "key" (VStr "")) in
  match _items_dict w !! key with
  | None => false
  | Some item =>
    match safe_compile w filter_string with
    | None => false
    | Some matcher =>
      match matcher item with
      | Ok b => b
      | Raise _ => false
      end
    end
  end.

(* ===================================================================== *)
(** * The engine at work *)
(* ===================================================================== *)

(** The value, on the entry [e], of the predicate compiled from the query
    [q]; an exception of the compilation or of the predicate is kept. *)
Definition run (w : World) (q : string) (e : Item) : result bool :=
  matcher ← compile w q; matcher e.

(** The same through the module compiler. *)
Definition run_module (w : World) (q : string) (e : Item) : result bool :=
  f ← compile_module_filter (_items_dict w) q; f e.

(** The module that [filter_items] applies directly when the trimmed query
    starts with [module:], if it can be loaded. *)
Definition module_query (w : World) (q : string) : option ModData :=
  let filter_string := Str.strip q in
  if Str.startswith (Str.lower filter_string) "module:"
  then _load_module w (Str.strip (Str.drop (String.length "module:") filter_string))
  else None.

(** A token that the parser reads as a term: it is one token for the
    tokenizer, and it is no operator and no parenthesis. *)
Definition is_term_tok (t : string) : bool :=
  bool_decide (tokenize t = [t])
  && negb (is_not_tok t) && negb (is_or_tok t) && negb (is_xor_tok t)
  && negb (is_and_tok t) && negb (Str.eqb t "(") && negb (Str.eqb t ")").

(** The identifier, read as a number, lies between [lo] and [hi]. *)
Definition num_between (lo hi : Z) (e : Item) : bool :=
  match Float.of_string (number e) with
  | Ok x => Float.le (Float.of_Z lo) x && Float.le x (Float.of_Z hi)
  | Raise _ => false
  end.

(** The identifier has a variant suffix. *)
Definition is_variant (e : Item) : bool := Str.contains "." (number e).

(** A module document without exclusions: no free-form constraint, and no
    key switched off in any of the groups. *)
Definition no_exclusions (d : ModuleDoc) : Prop :=
  Str.strip (filter_constraints d) = ""
  /\ excluded (regions d) = []
  /\ excluded (hcv_by_form_name d) = []
  /\ excluded (hcv_by_species_name d) = []
  /\ excluded (hcv_special_handling d) = []
  /\ excluded (hiv_battle_by_species_name d) = []
  /\ excluded (hiv_battle_by_form_name d) = []
  /\ excluded (hiv_item_by_species_name d) = []
  /\ excluded (hiv_item_by_form_name d) = []
  /\ excluded (hiv_special_handling d) = [].

(** ** Sample data *)

Definition entry (nm num : string) : Item :=
  {| name := nm; form := ""; number := num; categories := []; tags := [];
     marks := ∅; stats := ∅; games := []; evolutions := [];
     has_alternate := false |}.

Definition set_number (num : string) (e : Item) : Item :=
  {| name := name e; form := form e; number := num; categories := categories e;
     tags := tags e; marks := marks e; stats := stats e; games := games e;
     evolutions := evolutions e; has_alternate := has_alternate e |}.

Definition pikachu : Item := entry "Pikachu" "25".
Definition bulbasaur : Item := entry "Bulbasaur" "1".

(** An entry whose six stats are 100 each. *)
Definition hundred : Item :=
  {| name := "Mew"; form := ""; number := "151"; categories := ["Psychic"]; tags := [];
     marks := ∅;
     stats := list_to_map [("atk", VInt 100); ("def", VInt 100); ("hp", VInt 100);
                           ("spatk", VInt 100); ("spdef", VInt 100); ("spd", VInt 100)];
     games := []; evolutions := []; has_alternate := false |}.

Definition empty_doc : ModuleDoc :=
  {| enabled := true; filter_constraints := ""; regions := [];
     hcv_by_form_name := []; hcv_by_species_name := []; hcv_special_handling := [];
     hiv_battle_by_species_name := []; hiv_battle_by_form_name := [];
     hiv_item_by_species_name := []; hiv_item_by_form_name := [];
     hiv_special_handling := [] |}.

(** A module that leaves out the first region. *)
Definition no_kanto : ModuleDoc :=
  {| enabled := true; filter_constraints := ""; regions := [("Kanto", false)];
     hcv_by_form_name := []; hcv_by_species_name := []; hcv_special_handling := [];
     hiv_battle_by_species_name := []; hiv_battle_by_form_name := [];
     hiv_item_by_species_name := []; hiv_item_by_form_name := [];
     hiv_special_handling := [] |}.

(** An entry whose colour mark is not a string. *)
Definition odd_color : Item :=
  {| name := "Ditto"; form := ""; number := "132"; categories := []; tags := [];
     marks := {[ "color" := VBool true ]}; stats := ∅; games := []; evolutions := [];
     has_alternate := false |}.

(** A module whose one exclusion is the region [region], switched off. *)
Definition only_region (region : string) : ModuleDoc :=
  {| enabled := true; filter_constraints := ""; regions := [(region, false)];
     hcv_by_form_name := []; hcv_by_species_name := []; hcv_special_handling := [];
     hiv_battle_by_species_name := []; hiv_battle_by_form_name := [];
     hiv_item_by_species_name := []; hiv_item_by_form_name := [];
     hiv_special_handling := [] |}.

Definition empty_world : World := {| _items_dict := ∅; MODULES := ∅ |}.

(** A store with one entry and a module directory with one file, whose name
    ends in a parenthesis. *)
Definition odd_world : World :=
  {| _items_dict := {[ "1" := bulbasaur ]};
     MODULES := {[ "k(" := no_kanto ]} |}.

(* ===================================================================== *)
(** * data.py: the marks of an entry *)
(* ===================================================================== *)

(** [default_marks] of [Item.__init__], in the order of the literal. *)
Definition default_marks : list (string * pyval) :=
  [("flag", VBool false); ("lock", VBool false); ("source", VStr "none.png");
   ("origin", VStr "none.png"); ("color", VStr "gray"); ("released", VBool true)].

(** [{key.lower(): value for key, value in marks.items()}], the dictionary
    [marks] read in its order. *)
Definition lower_keys (marks : list (string * pyval)) : gmap string pyval :=
  foldl (fun normalized kv => <[Str.lower kv.1 := kv.2]> normalized) ∅ marks.

(** The loop that gives a missing key its default. *)
Definition merge_defaults (normalized : gmap string pyval) : gmap string pyval :=
  foldl (fun normalized kv =>
           match normalized !! kv.1 with
           | Some _ => normalized
           | None => <[kv.1 := kv.2]> normalized
           end)
        normalized default_marks.

(** [self.marks] as [Item.__init__] leaves it; [None] is the call without
    marks. *)
Definition init_marks (marks : option (list (string * pyval))) : gmap string pyval :=
  match marks with
  | None => list_to_map default_marks
  | Some marks => merge_defaults (lower_keys marks)
  end.

(* ===================================================================== *)
(** * data.py: [load_items] and the entries that share a base *)
(* ===================================================================== *)

(** [number.split('.')[0]] *)
Definition base_of (number : string) : string :=
  hd "" (Str.split_char "." number).

(** [item.has_alternate = b] *)
Definition set_has_alternate (b : bool) (e : Item) : Item :=
  {| name := name e; form := form e; number := number e; categories := categories e;
     tags := tags e; marks := marks e; stats := stats e; games := games e;
     evolutions := evolutions e; has_alternate := b |}.

(** [base_dict.setdefault(base, []).append(item)].  The dictionary keeps
    its keys in the order of their insertion; an entry is named by its
    position in [items], since the groups and [items] share the entries. *)
Fixpoint setdefault_append (base : string) (i : nat) (base_dict : list (string * list nat))
  : list (string * list nat) :=
  match base_dict with
  | [] => [(base, [i])]
  | (b, forms) :: rest =>
    if bool_decide (b = base) then (b, forms ++ [i]) :: rest
    else (b, forms) :: setdefault_append base i rest
  end.

(** The first loop, from the position [i] on. *)
Fixpoint group_by_base (items : list Item) (i : nat) (base_dict : list (string * list nat))
  : list (string * list nat) :=
  match items with
  | [] => base_dict
  | item :: rest =>
    group_by_base rest (S i) (setdefault_append (base_of (number item)) i base_dict)
  end.

(** [for item in forms: item.has_alternate = has_alternate] *)
Definition mark_forms (has_alternate : bool) (forms : list nat) (items : list Item)
  : list Item :=
  foldl (fun items i => alter (set_has_alternate has_alternate) i items) items forms.

(** The second loop. *)
Definition mark_groups (base_dict : list (string * list nat)) (items : list Item)
  : list Item :=
  foldl (fun items group => mark_forms (1 <? length group.2)%nat group.2 items)
        items base_dict.

(** The part of [load_items] that computes the alternate forms. *)
Definition compute_alternates (items : list Item) : list Item :=
  mark_groups (group_by_base items 0 []) items.

(* ===================================================================== *)
(** * data.py: the list of modules and the current one *)
(* ===================================================================== *)

(** The two globals of [data.py]. *)
Record ModState : Type := {
  _modules : list ModData;
  _current_module_index : Z
}.

(** The state when [data.py] has been imported. *)
Definition fresh_modules : ModState :=
  {| _modules := []; _current_module_index := 0 |}.

Section Modules.

(** The world, and the file names that [glob] finds in the module directory,
    as [sorted] orders them. *)
Variable w : World.
Variable module_files : list string.

(** The loop of [load_modules] over the files that are left; [mods] is
    [_modules] so far.  An exception of [load_module] leaves the loop with
    what has been appended. *)
Fixpoint load_loop (files : list string) (mods : list ModData)
  : option exn * list ModData :=
  match files with
  | [] => (None, mods)
  | filename :: rest =>
    match load_module w filename with
    | Raise e => (Some e, mods)
    | Ok None => load_loop rest mods
    | Ok (Some mod_data) => load_loop rest (mods ++ [mod_data])
    end
  end.

Definition load_modules (st : ModState) : result (list ModData) * ModState :=
  match load_loop module_files [] with
  | (Some e, mods) =>
    (Raise e, {| _modules := mods; _current_module_index := _current_module_index st |})
  | (None, mods) =>
    (Ok mods,
     {| _modules := mods;
        _current_module_index := match mods with [] => -1 | _ :: _ => 0 end |})
  end.

(** [if not _modules: load_modules()] *)
Definition ensure_loaded (st : ModState) : result unit * ModState :=
  match _modules st with
  | [] =>
    match load_modules st with
    | (Ok _, st') => (Ok tt, st')
    | (Raise e, st') => (Raise e, st')
    end
  | _ :: _ => (Ok tt, st)
  end.

(** [_modules[i]] for an index that is not negative. *)
Definition index_module (mods : list ModData) (i : Z) : result ModData :=
  match mods !! Z.to_nat i with
  | Some mod_data => Ok mod_data
  | None => Raise IndexError
  end.

Definition get_current_module (st : ModState) : result (option ModData) * ModState :=
  match ensure_loaded st with
  | (Raise e, st') => (Raise e, st')
  | (Ok _, st') =>
    match _modules st' with
    | _ :: _ =>
      if 0 <=? _current_module_index st'
      then (mod_data ← index_module (_modules st') (_current_module_index st');
            Ok (Some mod_data), st')
      else (Ok None, st')
    | [] => (Ok None, st')
    end
  end.

Definition toggle_module (st : ModState) : result (option ModData) * ModState :=
  match ensure_loaded st with
  | (Raise e, st') => (Raise e, st')
  | (Ok _, st') =>
    let st'' :=
      match _modules st' with
      | _ :: _ =>
        {| _modules := _modules st';
           _current_module_index :=
             (_current_module_index st' + 1) mod Z.of_nat (length (_modules st')) |}
      | [] => st'
      end in
    get_current_module st''
  end.

(** [k] calls of [toggle_module] in a row: the state that they leave, if
    none raised. *)
Fixpoint toggles (k : nat) (st : ModState) : result ModState :=
  match k with
  | O => Ok st
  | S k' =>
    match toggle_module st with
    | (Ok _, st') => toggles k' st'
    | (Raise e, _) => Raise e
    end
  end.

End Modules.

(* ===================================================================== *)
(** * box_manager.py: the boxes *)
(* ===================================================================== *)

Definition TOTAL_POKEMON : Z := 1025.
Definition BOX_SIZE : Z := 30.

(** [l[start:stop]] *)
Definition py_slice {A : Type} (l : list A) (start stop : Z) : list A :=
  let len := Z.of_nat (length l) in
  let clamp := fun i => if i <? 0 then Z.max (i + len) 0 else Z.min i len in
  take (Z.to_nat (clamp stop - clamp start)) (drop (Z.to_nat (clamp start)) l).

(** [list(range(start, stop))] *)
Definition py_range (start stop : Z) : list Z :=
  (fun i => start + Z.of_nat i) <$> seq 0 (Z.to_nat (stop - start)).

(** The attributes of [BoxManager] that the paging reads.  [box_size] is set
    once, to [config.BOX_SIZE]. *)
Record BoxManager : Type := {
  visible_items : list Item;
  current_box : Z;
  num_boxes : Z
}.

Definition box_size : Z := BOX_SIZE.

(** [BoxManager.__init__] *)
Definition new_box_manager : BoxManager :=
  {| visible_items := []; current_box := 0; num_boxes := 1 |}.

(** [refresh], from the entries that the module and the query let through. *)
Definition refresh (visible : list Item) (bm : BoxManager) : BoxManager :=
  let total_visible := Z.of_nat (length visible) in
  let boxes := Z.max 1 ((total_visible + box_size - 1) / box_size) in
  {| visible_items := visible;
     current_box := if boxes <=? current_box bm then boxes - 1 else current_box bm;
     num_boxes := boxes |}.

Definition set_current_box (box_index : Z) (bm : BoxManager) : BoxManager :=
  if (0 <=? box_index) && (box_index <? num_boxes bm)
  then {| visible_items := visible_items bm; current_box := box_index;
          num_boxes := num_boxes bm |}
  else bm.

Definition next_box (bm : BoxManager) : BoxManager :=
  {| visible_items := visible_items bm;
     current_box := (current_box bm + 1) mod num_boxes bm;
     num_boxes := num_boxes bm |}.

Definition prev_box (bm : BoxManager) : BoxManager :=
  {| visible_items := visible_items bm;
     current_box := (current_box bm - 1) mod num_boxes bm;
     num_boxes := num_boxes bm |}.

Definition get_items_for_box (bm : BoxManager) (box_index : Z) : list Item :=
  let start_idx := box_index * box_size in
  let end_idx := start_idx + box_size in
  py_slice (visible_items bm) start_idx end_idx.

Definition get_items_for_current_box (bm : BoxManager) : list Item :=
  get_items_for_box bm (current_box bm).

(** [dex_adapter.get_current_box_list] *)
Definition get_current_box_list (current_box : Z) : list Z :=
  let start := current_box * BOX_SIZE + 1 in
  let end_ := Z.min (current_box * BOX_SIZE + BOX_SIZE) TOTAL_POKEMON in
  py_range start (end_ + 1).

(* ===================================================================== *)
(** * More sample data *)
(* ===================================================================== *)

(** A module whose one exclusion is the key [key] of the special handling of
    the variants that are not compatible, switched off. *)
Definition only_hiv_special (key : string) : ModuleDoc :=
  {| enabled := true; filter_constraints := ""; regions := [];
     hcv_by_form_name := []; hcv_by_species_name := []; hcv_special_handling := [];
     hiv_battle_by_species_name := []; hiv_battle_by_form_name := [];
     hiv_item_by_species_name := []; hiv_item_by_form_name := [];
     hiv_special_handling := [(key, false)] |}.

(** A module whose constraint has a number that cannot be read. *)
Definition broken_doc : ModuleDoc :=
  {| enabled := true; filter_constraints := "#x"; regions := [];
     hcv_by_form_name := []; hcv_by_species_name := []; hcv_special_handling := [];
     hiv_battle_by_species_name := []; hiv_battle_by_form_name := [];
     hiv_item_by_species_name := []; hiv_item_by_form_name := [];
     hiv_special_handling := [] |}.

(** A module directory with two files, the second of them broken. *)
Definition two_modules : World :=
  {| _items_dict := ∅;
     MODULES := {[ "a.json" := no_kanto; "b.json" := broken_doc ]} |}.

(* ===================================================================== *)
(** * Notions for the facts on entries, modules and boxes *)
(* ===================================================================== *)

(** The value that the dictionary [marks] gives for the key [k], letter case
    apart: the one of the last such key. *)
Fixpoint given_mark (marks : list (string * pyval)) (k : string) : option pyval :=
  match marks with
  | [] => None
  | (key, value) :: rest =>
    match given_mark rest k with
    | Some v => Some v
    | None => if bool_decide (Str.lower key = k) then Some value else None
    end
  end.

(** How many entries of [items] have the base [b]. *)
Definition count_base (items : list Item) (b : string) : nat :=
  length (List.filter (fun x => bool_decide (base_of (number x) = b)) items).

(** The positions, counted from [i], of the entries of [items] that have the
    base [b]. *)
Fixpoint positions (b : string) (items : list Item) (i : nat) : list nat :=
  match items with
  | [] => []
  | x :: rest =>
    if bool_decide (base_of (number x) = b) then i :: positions b rest (S i)
    else positions b rest (S i)
  end.

(** The first entry of [items] that bears the identifier [num]. *)
Definition first_bearing (num : string) (items : list Item) : option Item :=
  List.find (fun x => bool_decide (number x = num)) items.

(** The boolean of a result, [false] for an exception. *)
Definition answer (r : result bool) : bool :=
  match r with Ok b => b | Raise _ => false end.

(** The boxes of a manager, in order. *)
Definition all_boxes (bm : BoxManager) : list (list Item) :=
  (fun i => get_items_for_box bm (Z.of_nat i)) <$> seq 0 (Z.to_nat (num_boxes bm)).

(** The group of the base [b] in the dictionary, if it has the key. *)
Fixpoint forms_of (base_dict : list (string * list nat)) (b : string) : option (list nat) :=
  match base_dict with
  | [] => None
  | (b', forms) :: rest => if bool_decide (b' = b) then Some forms else forms_of rest b
  end.

(** A list as the value of a key that is there only with a list that is not
    empty. *)
Definition nonempty (l : list nat) : option (list nat) :=
  match l with [] => None | _ :: _ => Some l end.

(* ===================================================================== *)
(** * Notions for the statements *)
(* ===================================================================== *)

(** The result is not the exception that stands for the depth bound. *)
Definition not_rec {A : Type} (r : result A) : Prop :=
  forall e, r = Raise e -> e <> RecursionError.

(** A parser that returns has read at least one of the tokens [toks], and
    does not stop for want of depth. *)
Definition shorter {A : Type} (toks : list string) (r : result (A * list string)) : Prop :=
  match r with
  | Ok (_, rest) => (length rest < length toks)%nat
  | Raise e => e <> RecursionError
  end.

(** The same for a loop, which may read nothing. *)
Definition not_longer {A : Type} (toks : list string) (r : result (A * list string)) : Prop :=
  match r with
  | Ok (_, rest) => (length rest <= length toks)%nat
  | Raise e => e <> RecursionError
  end.

(** What the depth [5 * length toks + k] gives to each parser and loop. *)
Definition depth_ok (items_dict : gmap string Item) (loader : string -> option pred)
           (toks : list string) : Prop :=
  let len := length toks in
  (forall n, (5 * len + 1 <= n)%nat ->
             shorter toks (_parse_primary items_dict loader n toks))
  /\ (forall n, (5 * len + 2 <= n)%nat ->
                shorter toks (_parse_not items_dict loader n toks))
  /\ (forall n l, (5 * len + 3 <= n)%nat ->
                  not_longer toks (and_loop items_dict loader n l toks))
  /\ (forall n, (5 * len + 3 <= n)%nat ->
                shorter toks (_parse_and items_dict loader n toks))
  /\ (forall n l, (5 * len + 4 <= n)%nat ->
                  not_longer toks (xor_loop items_dict loader n l toks))
  /\ (forall n, (5 * len + 4 <= n)%nat ->
                shorter toks (_parse_xor items_dict loader n toks))
  /\ (forall n l, (5 * len + 5 <= n)%nat ->
                  not_longer toks (or_loop items_dict loader n l toks))
  /\ (forall n, (5 * len + 5 <= n)%nat ->
                shorter toks (_parse_or items_dict loader n toks)).

(** The same for the parsers of the module compiler. *)
Definition code_depth_ok (toks : list string) : Prop :=
  let len := length toks in
  (forall n, (5 * len + 1 <= n)%nat -> shorter toks (code_parse_primary n toks))
  /\ (forall n, (5 * len + 2 <= n)%nat -> shorter toks (code_parse_not n toks))
  /\ (forall n l, (5 * len + 3 <= n)%nat -> not_longer toks (code_and_loop n l toks))
  /\ (forall n, (5 * len + 3 <= n)%nat -> shorter toks (code_parse_and n toks))
  /\ (forall n l, (5 * len + 4 <= n)%nat -> not_longer toks (code_xor_loop n l toks))
  /\ (forall n, (5 * len + 4 <= n)%nat -> shorter toks (code_parse_xor n toks))
  /\ (forall n l, (5 * len + 5 <= n)%nat -> not_longer toks (code_or_loop n l toks))
  /\ (forall n, (5 * len + 5 <= n)%nat -> shorter toks (code_parse_or n toks)).

(* ===================================================================== *)
(** * Notions for further properties *)
(* ===================================================================== *)

(** The text without its spaces. *)
Fixpoint despace (s : string) : string :=
  match s with
  | EmptyString => EmptyString
  | String c r => if Str.is_space c then despace r else String c (despace r)
  end.

(** The text has no space. *)
Fixpoint no_space (s : string) : bool :=
  match s with
  | EmptyString => true
  | String c r => negb (Str.is_space c) && no_space r
  end.

(** The texts of a list, one after the other. *)
Fixpoint concat_str (l : list string) : string :=
  match l with
  | [] => EmptyString
  | x :: rest => x +:+ concat_str rest
  end.

(** A character that the tokenizer makes a token of its own. *)
Definition is_punct (c : ascii) : bool :=
  bool_decide (c = "("%char) || bool_decide (c = ")"%char) || bool_decide (c = "!"%char).

(** The text has a character of the class [P]. *)
Fixpoint has_char (P : ascii -> bool) (s : string) : bool :=
  match s with
  | EmptyString => false
  | String c r => P c || has_char P r
  end.

(** The tokens that may follow a parsed expression: nothing, or a token at
    which every loop of the parser stops, such as a closing parenthesis. *)
Definition stop_tail (tail : list string) : Prop :=
  match tail with
  | [] => True
  | t :: _ => and_stop t = true /\ is_xor_tok t = false /\ is_or_tok t = false
              /\ is_not_tok t = false
  end.

(** The query is not one that [filter_items] hands to a module directly. *)
Definition plain_query (q : string) : bool :=
  negb (Str.startswith (Str.lower (Str.strip q)) "module:").

(** The entry passes the query: the query compiles and its predicate
    returns true on the entry. *)
Definition passes (w : World) (q : string) (itm : Item) : bool :=
  match run w q itm with
  | Ok b => b
  | Raise _ => false
  end.

(** A token that the two compilers read alike: it is no [module:] term, and
    a number in it is finite. *)
Definition plain_tok (t : string) : bool :=
  match parse_term_for_code t with
  | Ok (T_module _) => false
  | Ok tm => is_ok (eval_literal tm)
  | Raise _ => true
  end.

(** No two negation tokens stand side by side. *)
Fixpoint single_nots (toks : list string) : bool :=
  match toks with
  | [] => true
  | t :: rest =>
    match rest with
    | [] => true
    | u :: _ => negb (is_not_tok t && is_not_tok u)
    end && single_nots rest
  end.

(** The two parsers did the same on [toks]: both raised, or both returned,
    with the same tokens left and with values that agree on every entry. *)
Definition same_parse (items_dict : gmap string Item) (toks : list string)
           (r1 : result (pyexpr * list string)) (r2 : result (pred * list string)) : Prop :=
  match r1, r2 with
  | Ok (e, rest1), Ok (p, rest2) =>
    rest1 = rest2 /\ rest1 `suffix_of` toks
    /\ forall item, eval_expr items_dict e item = p item
  | Raise _, Raise _ => True
  | _, _ => False
  end.

(** Every exception that the result may be satisfies [P]. *)
Definition raises_only {A : Type} (P : exn -> Prop) (r : result A) : Prop :=
  forall e, r = Raise e -> P e.

Definition is_value_error (e : exn) : Prop := exists msg, e = ValueError msg.

(** The predicate holds on the entry: it returns, and returns true. *)
Definition holds (matcher : pred) (itm : Item) : bool :=
  match matcher itm with
  | Ok b => b
  | Raise _ => false
  end.

(** The size up to which a query is a modest one.  The interpreter bounds
    the depth of its calls, by default to 1000 frames, and its compiler
    bounds the depth of the parentheses of a text, to 200.  The parsers take
    five frames for a level of parentheses, a compiled predicate takes a
    frame for each of its operators when it is called, and the text that the
    module compiler generates nests a pair of parentheses for each operator.
    A query of at most a hundred tokens stays well inside these bounds, which
    are not part of the embedding. *)
Definition token_bound : nat := 100.

Definition modest (toks : list string) : bool :=
  Nat.leb (length toks) token_bound.

(** A number that the interpreter keeps finite when it reads it: a value
    beyond the range of its floats, such as 1e309, is read as an infinity. *)
Definition small (x : pyfloat) : bool :=
  match x with
  | Fin q => Qle_bool (inject_Z (- 10 ^ 300)) q && Qle_bool q (inject_Z (10 ^ 300))
  | _ => false
  end.

(** A token whose numbers, when it is a range or a stat term, are small. *)
Definition small_tok (t : string) : bool :=
  match parse_term_for_code t with
  | Ok (T_number_range (start, end_, _)) => small start && small end_
  | Ok (T_stat (_, _, target)) => small target
  | _ => true
  end.

(* ===================================================================== *)
(** * Facts on strings *)
(* ===================================================================== *)

Lemma app_cons (c : ascii) (x y : string) : String c x +:+ y = String c (x +:+ y).
Proof. reflexivity. Qed.

Lemma app_empty_l (y : string) : "" +:+ y = y.
Proof. reflexivity. Qed.

Lemma app_empty_r (x : string) : x +:+ "" = x.
Proof. induction x as [|c x IH]; [done|]. by rewrite app_cons, IH. Qed.

Lemma app_assoc_str (x y z : string) : (x +:+ y) +:+ z = x +:+ (y +:+ z).
Proof. induction x as [|c x IH]; [done|]. by rewrite !app_cons, IH. Qed.

(** A space is none of the characters that the tokenizer looks for. *)
Lemma space_inert (c : ascii) :
  Str.is_space c = true ->
  Str.is_word c = false
  /\ bool_decide (c = "("%char) = false /\ bool_decide (c = ")"%char) = false
  /\ bool_decide (c = "!"%char) = false /\ bool_decide (c = "|"%char) = false
  /\ Tok.ci c "o" = false /\ Tok.ci c "r" = false /\ Tok.ci c "n" = false
  /\ Tok.ci c "t" = false /\ Tok.ci c "x" = false.
Proof.
  destruct c as [b0 b1 b2 b3 b4 b5 b6 b7].
  destruct b0, b1, b2, b3, b4, b5, b6, b7; vm_compute; intros H;
    try discriminate H; repeat split.
Qed.

(* ===================================================================== *)
(** * Facts on the tokenizer *)
(* ===================================================================== *)

Module TokFacts.
Import Tok.

Lemma pad_parens_app (x y : string) :
  pad_parens (x +:+ y) = pad_parens x +:+ pad_parens y.
Proof.
  induction x as [|c x IH]; [done|].
  rewrite app_cons. simpl. rewrite IH. by destruct (_ || _).
Qed.

Lemma pad_bang_app (x y : string) :
  pad_bang (x +:+ y) = pad_bang x +:+ pad_bang y.
Proof.
  induction x as [|c x IH]; [done|].
  rewrite app_cons. simpl. rewrite IH. by destruct (bool_decide _).
Qed.

Lemma pad_keywords_true (c : ascii) (r : string) :
  pad_keywords true (String c r) = String c (pad_keywords (Str.is_word c) r).
Proof. reflexivity. Qed.

Lemma pad_keywords_false (c : ascii) (r : string) :
  pad_keywords false (String c r) =
  match kw_len (String c r), r with
  | 2%nat, String c2 r2 =>
    String " " (String c (String c2 (String " " (pad_keywords true r2))))
  | 3%nat, String c2 (String c3 r3) =>
    String " " (String c (String c2 (String c3 (String " " (pad_keywords true r3)))))
  | _, _ => String c (pad_keywords (Str.is_word c) r)
  end.
Proof.
  destruct r as [|c2 r2]; [done|].
  cbn [pad_keywords kw_len].
  destruct (ci c "o" && ci c2 "r" && negb (starts_word r2)); [done|].
  destruct r2 as [|c3 r3]; [done|].
  by destruct (_ && negb (starts_word r3)).
Qed.

Lemma starts_word_app (r y : string) (sp : ascii) :
  Str.is_space sp = true ->
  starts_word (r +:+ String sp y) = starts_word r.
Proof.
  intros Hsp. destruct r as [|c r]; [|done].
  simpl. by destruct (space_inert sp Hsp) as [-> _].
Qed.

Lemma kw_len_space (sp : ascii) (y : string) :
  Str.is_space sp = true -> kw_len (String sp y) = 0%nat.
Proof.
  intros Hsp.
  destruct (space_inert sp Hsp) as (_ & _ & _ & _ & _ & Ho & _ & Hn & _ & Hx).
  destruct y as [|c2 [|c3 r3]]; cbn [kw_len]; rewrite ?Ho, ?Hn, ?Hx; done.
Qed.

Lemma kw_len_app (sp : ascii) (c : ascii) (r y : string) :
  Str.is_space sp = true ->
  kw_len (String c r +:+ String sp y) = kw_len (String c r).
Proof.
  intros Hsp.
  destruct (space_inert sp Hsp) as (_ & _ & _ & _ & _ & Ho & Hr & _ & Ht & _).
  destruct r as [|c2 r2].
  { rewrite app_cons, app_empty_l. cbn [kw_len].
    rewrite Hr, Ho, !andb_false_r. cbn [andb orb].
    by destruct y. }
  rewrite !app_cons. cbn [kw_len]. rewrite starts_word_app by done.
  destruct (_ && negb (starts_word r2)); [done|].
  destruct r2 as [|c3 r3].
  { rewrite app_empty_l. by rewrite Ht, Hr, !andb_false_r. }
  rewrite app_cons. by rewrite starts_word_app.
Qed.

(** The keyword pass works on each side of a space by itself. *)
Lemma pad_keywords_app (sp : ascii) (y : string) :
  Str.is_space sp = true ->
  forall (n : nat) (x : string) (pw : bool),
    (String.length x <= n)%nat ->
    pad_keywords pw (x +:+ String sp y)
    = pad_keywords pw x +:+ String sp (pad_keywords false y).
Proof.
  intros Hsp.
  destruct (space_inert sp Hsp) as (Hw & _).
  assert (Hbase : forall pw, pad_keywords pw (String sp y)
                             = String sp (pad_keywords false y)).
  { intros [|]; [by rewrite pad_keywords_true, Hw|].
    rewrite pad_keywords_false, kw_len_space, Hw by done. by destruct y. }
  induction n as [|n IH]; intros x pw Hlen.
  { destruct x; [|simpl in Hlen; lia]. rewrite app_empty_l. apply Hbase. }
  destruct x as [|c1 r1]; [rewrite app_empty_l; apply Hbase|].
  simpl in Hlen.
  destruct pw.
  { rewrite app_cons, !pad_keywords_true, app_cons. f_equal. apply IH. lia. }
  assert (Hskip : String c1 (pad_keywords (Str.is_word c1) (r1 +:+ String sp y))
                  = String c1 (pad_keywords (Str.is_word c1) r1)
                      +:+ String sp (pad_keywords false y)).
  { rewrite app_cons. f_equal. apply IH. lia. }
  rewrite (pad_keywords_false c1 r1).
  rewrite <- (kw_len_app sp c1 r1 y Hsp).
  rewrite app_cons, pad_keywords_false, <- app_cons.
  destruct (kw_len (String c1 r1 +:+ String sp y)) as [|[|[|[|k]]]] eqn:Hk.
  - by destruct r1.
  - by destruct r1.
  - (* OR *)
    destruct r1 as [|c2 r2].
    { rewrite kw_len_app in Hk by done. discriminate Hk. }
    rewrite !app_cons. do 4 f_equal. apply IH. simpl in Hlen. lia.
  - (* NOT, XOR *)
    destruct r1 as [|c2 [|c3 r3]].
    + rewrite kw_len_app in Hk by done. discriminate Hk.
    + rewrite kw_len_app in Hk by done. cbn [kw_len] in Hk.
      destruct (_ && _); discriminate Hk.
    + rewrite !app_cons. do 5 f_equal. apply IH. simpl in Hlen. lia.
  - by destruct r1.
Qed.

Lemma pad_pipes_cons (c : ascii) (r : string) :
  bool_decide (c = "|"%char) = false ->
  pad_pipes (String c r) = String c (pad_pipes r).
Proof.
  intros Hc. destruct r as [|c2 r2]; [done|].
  cbn [pad_pipes]. by rewrite Hc.
Qed.

Lemma pad_pipes_two (c1 c2 : ascii) (r : string) :
  pad_pipes (String c1 (String c2 r)) =
  if bool_decide (c1 = "|"%char) && bool_decide (c2 = "|"%char)
  then String " " (String c1 (String c2 (String " " (pad_pipes r))))
  else String c1 (pad_pipes (String c2 r)).
Proof. reflexivity. Qed.

Lemma pad_pipes_app (sp : ascii) (y : string) :
  Str.is_space sp = true ->
  forall (n : nat) (x : string),
    (String.length x <= n)%nat ->
    pad_pipes (x +:+ String sp y) = pad_pipes x +:+ String sp (pad_pipes y).
Proof.
  intros Hsp.
  destruct (space_inert sp Hsp) as (_ & _ & _ & _ & Hp & _).
  induction n as [|n IH]; intros x Hlen.
  { destruct x; [|simpl in Hlen; lia]. rewrite app_empty_l. by apply pad_pipes_cons. }
  destruct x as [|c1 [|c2 r2]].
  - rewrite app_empty_l. by apply pad_pipes_cons.
  - rewrite app_cons, app_empty_l, pad_pipes_two.
    rewrite Hp, andb_false_r. rewrite pad_pipes_cons by done. done.
  - simpl in Hlen. rewrite !app_cons, !pad_pipes_two.
    destruct (bool_decide (c1 = "|"%char) && bool_decide (c2 = "|"%char)).
    + rewrite !app_cons. do 4 f_equal. apply IH. lia.
    + rewrite app_cons. f_equal. rewrite <- app_cons. apply IH. simpl. lia.
Qed.

Lemma split_starts (r : string) :
  starts_nonspace r = true -> split r <> [].
Proof.
  destruct r as [|c r]; [done|]. cbn [starts_nonspace split].
  intros Hc. apply negb_true_iff in Hc. rewrite Hc.
  destruct (negb (starts_nonspace r)); [done|]. by destruct (split r).
Qed.

Lemma split_app (sp : ascii) (y x : string) :
  Str.is_space sp = true ->
  split (x +:+ String sp y) = split x ++ split y.
Proof.
  intros Hsp. induction x as [|c r IH].
  { rewrite app_empty_l. cbn [split]. by rewrite Hsp. }
  rewrite app_cons. cbn [split]. destruct (Str.is_space c); [done|].
  assert (Hst : starts_nonspace (r +:+ String sp y) = starts_nonspace r).
  { destruct r; [|done]. rewrite app_empty_l. cbn. by rewrite Hsp. }
  rewrite Hst, IH.
  destruct (starts_nonspace r) eqn:Hr; cbn [negb]; [|done].
  pose proof (split_starts r Hr). by destruct (split r).
Qed.

Lemma post_app (sp : ascii) (x y : string) :
  Str.is_space sp = true ->
  post (x +:+ String sp y) = post x ++ post y.
Proof.
  intros Hsp. unfold post.
  rewrite (pad_keywords_app sp y Hsp (String.length x)) by done.
  rewrite (pad_pipes_app sp _ Hsp (String.length (pad_keywords false x))) by done.
  by apply split_app.
Qed.

Lemma post_space (sp : ascii) (y : string) :
  Str.is_space sp = true -> post (String sp y) = post y.
Proof. intros Hsp. by rewrite <- (app_empty_l (String sp y)), post_app. Qed.

End TokFacts.

Lemma tokenize_post (s : string) :
  tokenize s = Tok.post (Tok.pad_bang (Tok.pad_parens s)).
Proof. reflexivity. Qed.

Lemma pre_space (sp : ascii) (y : string) :
  Str.is_space sp = true ->
  Tok.pad_bang (Tok.pad_parens (String sp y))
  = String sp (Tok.pad_bang (Tok.pad_parens y)).
Proof.
  intros Hsp. destruct (space_inert sp Hsp) as (_ & H1 & H2 & H3 & _).
  cbn [Tok.pad_parens]. rewrite H1, H2. cbn [orb Tok.pad_bang]. by rewrite H3.
Qed.

(** Tokenizing works on each side of a space by itself. *)
Lemma tokenize_app (sp : ascii) (x y : string) :
  Str.is_space sp = true ->
  tokenize (x +:+ String sp y) = tokenize x ++ tokenize y.
Proof.
  intros Hsp. rewrite !tokenize_post.
  rewrite TokFacts.pad_parens_app, TokFacts.pad_bang_app.
  rewrite pre_space by done. by apply TokFacts.post_app.
Qed.

(** And on each side of a parenthesis, which is a token of its own. *)
Lemma tokenize_app_paren (c : ascii) (x y : string) :
  c = "("%char \/ c = ")"%char ->
  tokenize (x +:+ String c y) = tokenize x ++ String c "" :: tokenize y.
Proof.
  intros Hc. rewrite !tokenize_post.
  rewrite TokFacts.pad_parens_app, TokFacts.pad_bang_app.
  assert (Hpre : Tok.pad_bang (Tok.pad_parens (String c y))
                 = String " " (String c (String " " (Tok.pad_bang (Tok.pad_parens y))))).
  { by destruct Hc as [-> | ->]. }
  rewrite Hpre.
  rewrite (TokFacts.post_app " ") by done.
  change (String c (String " " ?r)) with (String c "" +:+ String " " r).
  rewrite (TokFacts.post_app " ") by done.
  by destruct Hc as [-> | ->].
Qed.

Lemma tokenize_all_space (w : string) :
  Tok.all_space w = true -> tokenize w = [].
Proof.
  induction w as [|sp w IH]; [done|].
  cbn [Tok.all_space]. intros [Hsp Hw]%andb_true_iff.
  rewrite <- (app_empty_l (String sp w)), tokenize_app by done.
  by apply IH.
Qed.

Lemma tokenize_app_spaces (x w : string) :
  Tok.all_space w = true -> tokenize (x +:+ w) = tokenize x.
Proof.
  destruct w as [|sp w]; [by rewrite app_empty_r|].
  cbn [Tok.all_space]. intros [Hsp Hw]%andb_true_iff.
  rewrite tokenize_app by done.
  rewrite (tokenize_all_space w) by done. by rewrite app_nil_r.
Qed.

Lemma rstrip_decomp (s : string) :
  exists w, Tok.all_space w = true /\ s = Str.rstrip s +:+ w.
Proof.
  induction s as [|c r (w & Hw & Hr)]; [by exists ""|].
  cbn [Str.rstrip].
  destruct (Str.is_space c) eqn:Hc; cbn [andb].
  - destruct (Str.rstrip r) as [|c' r'] eqn:Hrs; cbn [Str.is_empty].
    + exists (String c r). split; [|done].
      cbn [Tok.all_space]. rewrite Hc. cbn [andb].
      rewrite Hr. by rewrite app_empty_l.
    + exists w. split; [done|]. rewrite app_cons. by f_equal.
  - exists w. split; [done|]. rewrite app_cons. by f_equal.
Qed.

Lemma tokenize_rstrip (s : string) : tokenize (Str.rstrip s) = tokenize s.
Proof.
  destruct (rstrip_decomp s) as (w & Hw & Hs).
  rewrite Hs at 2. by rewrite tokenize_app_spaces.
Qed.

Lemma tokenize_lstrip (s : string) : tokenize (Str.lstrip s) = tokenize s.
Proof.
  induction s as [|c r IH]; [done|].
  cbn [Str.lstrip]. destruct (Str.is_space c) eqn:Hc; [|done].
  rewrite IH. rewrite <- (app_empty_l (String c r)).
  by rewrite tokenize_app.
Qed.

(** [filter_items] compiles the trimmed query: the tokens are the same. *)
Lemma tokenize_strip (s : string) : tokenize (Str.strip s) = tokenize s.
Proof. unfold Str.strip. by rewrite tokenize_rstrip, tokenize_lstrip. Qed.


(* ===================================================================== *)
(** * The depth bound of the parser is never reached *)
(* ===================================================================== *)

Lemma not_rec_ok {A : Type} (a : A) : not_rec (Ok a).
Proof. intros e H. discriminate H. Qed.

Lemma not_rec_value {A : Type} (msg : string) : not_rec (@Raise A (ValueError msg)).
Proof. intros e H. by injection H as <-. Qed.

Lemma not_rec_index {A : Type} : not_rec (@Raise A IndexError).
Proof. intros e H. by injection H as <-. Qed.

Lemma not_rec_bind {A B : Type} (r : result A) (k : A -> result B) :
  not_rec r -> (forall a, not_rec (k a)) -> not_rec (r ≫= k).
Proof.
  intros Hr Hk e. destruct r as [a|e']; cbn.
  - apply Hk.
  - intros H. injection H as <-. by apply Hr.
Qed.

Lemma float_of_string_not_rec (s : string) : not_rec (Float.of_string s).
Proof.
  unfold Float.of_string. destruct (Float.sign _) as [neg body].
  destruct (_ || _); [apply not_rec_ok|].
  destruct (Str.eqb _ _); [apply not_rec_ok|].
  destruct (Float.number body) as [[[m k] rest]|]; [|apply not_rec_value].
  destruct (Float.exponent rest); [apply not_rec_ok|apply not_rec_value].
Qed.

Lemma parse_number_range_not_rec (term : string) : not_rec (parse_number_range term).
Proof.
  unfold parse_number_range.
  destruct (Str.contains _ _).
  - destruct (Str.split_char _ _) as [|a [|b [|c l]]];
      try apply not_rec_value;
      repeat (apply not_rec_bind; [apply float_of_string_not_rec|intros ?]);
      first [apply not_rec_ok | apply not_rec_value].
  - apply not_rec_bind; [apply float_of_string_not_rec|intros ?]. apply not_rec_ok.
Qed.

Lemma parse_stat_not_rec (low : string) : not_rec (parse_stat low).
Proof.
  unfold parse_stat.
  destruct (first_op _); [|apply not_rec_value].
  destruct (Str.split_once _ _) as [[p1 p2]|]; [|apply not_rec_value].
  apply not_rec_bind; [apply float_of_string_not_rec|intros ?]. apply not_rec_ok.
Qed.

Lemma parse_filter_term_not_rec (L : string -> option pred) (tok : string) :
  not_rec (_parse_filter_term L tok).
Proof.
  unfold _parse_filter_term.
  repeat first
    [ apply not_rec_ok
    | apply parse_number_range_not_rec
    | apply parse_stat_not_rec
    | match goal with |- not_rec (if ?b then _ else _) => destruct b end ].
Qed.

(* ===================================================================== *)
(** * The parsers, one call at a time *)
(* ===================================================================== *)

Section ParserSteps.

Variable items_dict : gmap string Item.
Variable loader : string -> option pred.

Lemma parse_or_S (n : nat) (toks : list string) :
  _parse_or items_dict loader (S n) toks =
  _parse_xor items_dict loader n toks ≫= λ '(l, rest), or_loop items_dict loader n l rest.
Proof. reflexivity. Qed.

Lemma or_loop_S (n : nat) (l : pred) (toks : list string) :
  or_loop items_dict loader (S n) l toks =
  match toks with
  | t :: rest =>
    if is_or_tok t then
      _parse_xor items_dict loader n rest
      ≫= λ '(r, rest'), or_loop items_dict loader n (p_or l r) rest'
    else Ok (l, toks)
  | [] => Ok (l, toks)
  end.
Proof. reflexivity. Qed.

Lemma parse_xor_S (n : nat) (toks : list string) :
  _parse_xor items_dict loader (S n) toks =
  _parse_and items_dict loader n toks ≫= λ '(l, rest), xor_loop items_dict loader n l rest.
Proof. reflexivity. Qed.

Lemma xor_loop_S (n : nat) (l : pred) (toks : list string) :
  xor_loop items_dict loader (S n) l toks =
  match toks with
  | t :: rest =>
    if is_xor_tok t then
      _parse_and items_dict loader n rest
      ≫= λ '(r, rest'), xor_loop items_dict loader n (p_xor l r) rest'
    else Ok (l, toks)
  | [] => Ok (l, toks)
  end.
Proof. reflexivity. Qed.

Lemma parse_and_S (n : nat) (toks : list string) :
  _parse_and items_dict loader (S n) toks =
  _parse_not items_dict loader n toks ≫= λ '(l, rest), and_loop items_dict loader n l rest.
Proof. reflexivity. Qed.

Lemma and_loop_S (n : nat) (l : pred) (toks : list string) :
  and_loop items_dict loader (S n) l toks =
  match toks with
  | t :: rest =>
    if and_stop t then Ok (l, toks)
    else if is_and_tok t then and_loop items_dict loader n l rest
    else
      _parse_not items_dict loader n toks
      ≫= λ '(r, rest'), and_loop items_dict loader n (p_and l r) rest'
  | [] => Ok (l, toks)
  end.
Proof. reflexivity. Qed.

Lemma parse_not_S (n : nat) (toks : list string) :
  _parse_not items_dict loader (S n) toks =
  match toks with
  | t :: _ =>
    if is_not_tok t then
      _parse_not items_dict loader n (skip_nots toks)
      ≫= λ '(op, rest), Ok (p_not op, rest)
    else _parse_primary items_dict loader n toks
  | [] => _parse_primary items_dict loader n toks
  end.
Proof. reflexivity. Qed.

Lemma parse_primary_S (n : nat) (toks : list string) :
  _parse_primary items_dict loader (S n) toks =
  match toks with
  | [] => Raise (ValueError "Unexpected end of expression")
  | tok :: rest =>
    if Str.eqb tok "(" then
      _parse_or items_dict loader n rest
      ≫= λ '(expr, rest'),
           match rest' with
           | t :: rest'' =>
             if Str.eqb t ")" then Ok (expr, rest'')
             else Raise (ValueError "Expected ')'")
           | [] => Raise (ValueError "Expected ')'")
           end
    else
      _parse_filter_term loader tok ≫= λ t, Ok (apply_term items_dict t, rest)
  end.
Proof. reflexivity. Qed.

End ParserSteps.

Lemma shorter_then_loop {A : Type} (toks : list string)
      (r : result (A * list string)) (k : A * list string -> result (A * list string)) :
  shorter toks r ->
  (forall a rest, (length rest < length toks)%nat -> not_longer rest (k (a, rest))) ->
  shorter toks (r ≫= k).
Proof.
  intros Hr Hk. destruct r as [[a rest]|e]; cbn in *; [|done].
  specialize (Hk a rest Hr). destruct (k (a, rest)) as [[a' rest']|e]; cbn in *; [lia|done].
Qed.

Lemma shorter_weaken {A : Type} (toks toks' : list string) (r : result (A * list string)) :
  (length toks' <= length toks)%nat -> shorter toks' r -> shorter toks r.
Proof. intros Hl. destruct r as [[a rest]|e]; cbn; [lia|done]. Qed.

Lemma not_longer_weaken {A : Type} (toks toks' : list string) (r : result (A * list string)) :
  (length toks' <= length toks)%nat -> not_longer toks' r -> not_longer toks r.
Proof. intros Hl. destruct r as [[a rest]|e]; cbn; [lia|done]. Qed.

Lemma shorter_not_longer {A : Type} (toks : list string) (r : result (A * list string)) :
  shorter toks r -> not_longer toks r.
Proof. destruct r as [[a rest]|e]; cbn; [lia|done]. Qed.

Lemma skip_nots_length (toks : list string) :
  (length (skip_nots toks) <= length toks)%nat.
Proof.
  induction toks as [|t r IH]; [done|]. cbn [skip_nots].
  destruct (is_not_tok t); cbn [length]; lia.
Qed.

Section ParserDepth.

Variable items_dict : gmap string Item.
Variable loader : string -> option pred.

Lemma depth_ok_all (bound : nat) :
  forall toks, (length toks < bound)%nat -> depth_ok items_dict loader toks.
Proof.
  induction bound as [|bound IH]; intros toks Hb; [lia|].
  assert (IHs : forall toks', (length toks' < length toks)%nat -> depth_ok items_dict loader toks').
  { intros toks' H. apply IH. lia. }
  clear IH Hb.
  (* primary *)
  assert (Hprim : forall n, (5 * length toks + 1 <= n)%nat -> shorter toks (_parse_primary items_dict loader n toks)).
  { intros [|n] Hn; [lia|]. rewrite parse_primary_S.
    destruct toks as [|tok rest]; [done|].
    destruct (Str.eqb tok "(").
    - destruct (IHs rest) as (_ & _ & _ & _ & _ & _ & _ & Hor); [cbn; lia|].
      specialize (Hor n). cbn [length] in *.
      specialize (Hor ltac:(lia)).
      destruct (_parse_or items_dict loader n rest) as [[e rest']|e]; cbn in *; [|done].
      destruct rest' as [|t rest'']; [done|].
      destruct (Str.eqb t ")"); cbn in *; [lia|done].
    - pose proof (parse_filter_term_not_rec loader tok) as Ht.
      destruct (_parse_filter_term loader tok) as [t|e]; cbn; [lia|].
      by apply Ht. }
  (* not *)
  assert (Hnot : forall n, (5 * length toks + 2 <= n)%nat -> shorter toks (_parse_not items_dict loader n toks)).
  { intros [|n] Hn; [lia|]. rewrite parse_not_S.
    destruct toks as [|t r]; [apply Hprim; lia|].
    destruct (is_not_tok t) eqn:Et; [|apply Hprim; lia].
    cbn [skip_nots]. rewrite Et.
    pose proof (skip_nots_length r) as Hs.
    destruct (IHs (skip_nots r)) as (_ & Hn' & _); [cbn; lia|].
    specialize (Hn' n). cbn [length] in *. specialize (Hn' ltac:(lia)).
    destruct (_parse_not items_dict loader n (skip_nots r)) as [[op rest]|e]; cbn in *;
      [lia|done]. }
  (* and *)
  assert (Hland : forall n l, (5 * length toks + 3 <= n)%nat -> not_longer toks (and_loop items_dict loader n l toks)).
  { intros [|n] l Hn; [lia|]. rewrite and_loop_S.
    destruct toks as [|t rest]; [cbn; lia|].
    destruct (and_stop t); [cbn; lia|].
    destruct (is_and_tok t).
    - destruct (IHs rest) as (_ & _ & Hl & _); [cbn; lia|].
      apply (not_longer_weaken _ rest); [cbn; lia|]. apply Hl. cbn [length] in Hn. lia.
    - apply shorter_not_longer, shorter_then_loop; [apply Hnot; lia|].
      intros a rest' Hlt. destruct (IHs rest') as (_ & _ & Hl & _); [done|].
      apply Hl. lia. }
  assert (Hand : forall n, (5 * length toks + 3 <= n)%nat -> shorter toks (_parse_and items_dict loader n toks)).
  { intros [|n] Hn; [lia|]. rewrite parse_and_S.
    apply shorter_then_loop; [apply Hnot; lia|].
    intros a rest' Hlt. destruct (IHs rest') as (_ & _ & Hl & _); [done|].
    apply Hl. lia. }
  (* xor *)
  assert (Hlxor : forall n l, (5 * length toks + 4 <= n)%nat -> not_longer toks (xor_loop items_dict loader n l toks)).
  { intros [|n] l Hn; [lia|]. rewrite xor_loop_S.
    destruct toks as [|t rest]; [cbn; lia|].
    destruct (is_xor_tok t); [|cbn; lia].
    apply shorter_not_longer, (shorter_weaken _ rest); [cbn; lia|].
    cbn [length] in Hn.
    apply shorter_then_loop.
    - destruct (IHs rest) as (_ & _ & _ & Ha & _); [cbn; lia|]. apply Ha. lia.
    - intros a rest' Hlt. destruct (IHs rest') as (_ & _ & _ & _ & Hl & _); [cbn; lia|].
      apply Hl. lia. }
  assert (Hxor : forall n, (5 * length toks + 4 <= n)%nat -> shorter toks (_parse_xor items_dict loader n toks)).
  { intros [|n] Hn; [lia|]. rewrite parse_xor_S.
    apply shorter_then_loop; [apply Hand; lia|].
    intros a rest' Hlt. destruct (IHs rest') as (_ & _ & _ & _ & Hl & _); [done|].
    apply Hl. lia. }
  (* or *)
  assert (Hlor : forall n l, (5 * length toks + 5 <= n)%nat -> not_longer toks (or_loop items_dict loader n l toks)).
  { intros [|n] l Hn; [lia|]. rewrite or_loop_S.
    destruct toks as [|t rest]; [cbn; lia|].
    destruct (is_or_tok t); [|cbn; lia].
    apply shorter_not_longer, (shorter_weaken _ rest); [cbn; lia|].
    cbn [length] in Hn.
    apply shorter_then_loop.
    - destruct (IHs rest) as (_ & _ & _ & _ & _ & Hx & _); [cbn; lia|]. apply Hx. lia.
    - intros a rest' Hlt.
      destruct (IHs rest') as (_ & _ & _ & _ & _ & _ & Hl & _); [cbn; lia|].
      apply Hl. lia. }
  assert (Hor : forall n, (5 * length toks + 5 <= n)%nat -> shorter toks (_parse_or items_dict loader n toks)).
  { intros [|n] Hn; [lia|]. rewrite parse_or_S.
    apply shorter_then_loop; [apply Hxor; lia|].
    intros a rest' Hlt.
    destruct (IHs rest') as (_ & _ & _ & _ & _ & _ & Hl & _); [done|].
    apply Hl. lia. }
  repeat split; assumption.
Qed.

(** The depth that [_parse_expression] gives is enough: it never stops
    with the exception of the bound. *)
Lemma parse_expression_depth (tokens : list string) :
  not_rec (_parse_expression items_dict loader tokens).
Proof.
  unfold _parse_expression.
  destruct (depth_ok_all (S (length tokens)) tokens ltac:(lia))
    as (_ & _ & _ & _ & _ & _ & _ & Hor).
  specialize (Hor (5 * length tokens + 5)%nat ltac:(lia)).
  destruct (_parse_or _ _ _ _) as [[expr rest]|e]; cbn in *.
  - destruct rest; [apply not_rec_ok|apply not_rec_value].
  - intros e' H. by injection H as <-.
Qed.

End ParserDepth.

(* ===================================================================== *)
(** * The module compiler: one call at a time, and its depth bound *)
(* ===================================================================== *)

Lemma code_parse_or_S (n : nat) (toks : list string) :
  code_parse_or (S n) toks =
  code_parse_xor n toks ≫= λ '(l, rest), code_or_loop n l rest.
Proof. reflexivity. Qed.

Lemma code_or_loop_S (n : nat) (l : pyexpr) (toks : list string) :
  code_or_loop (S n) l toks =
  match toks with
  | t :: rest =>
    if is_or_tok t then
      code_parse_xor n rest ≫= λ '(r, rest'), code_or_loop n (E_or l r) rest'
    else Ok (l, toks)
  | [] => Ok (l, toks)
  end.
Proof. reflexivity. Qed.

Lemma code_parse_xor_S (n : nat) (toks : list string) :
  code_parse_xor (S n) toks =
  code_parse_and n toks ≫= λ '(l, rest), code_xor_loop n l rest.
Proof. reflexivity. Qed.

Lemma code_xor_loop_S (n : nat) (l : pyexpr) (toks : list string) :
  code_xor_loop (S n) l toks =
  match toks with
  | t :: rest =>
    if is_xor_tok t then
      code_parse_and n rest ≫= λ '(r, rest'), code_xor_loop n (E_xor l r) rest'
    else Ok (l, toks)
  | [] => Ok (l, toks)
  end.
Proof. reflexivity. Qed.

Lemma code_parse_and_S (n : nat) (toks : list string) :
  code_parse_and (S n) toks =
  code_parse_not n toks ≫= λ '(l, rest), code_and_loop n l rest.
Proof. reflexivity. Qed.

Lemma code_and_loop_S (n : nat) (l : pyexpr) (toks : list string) :
  code_and_loop (S n) l toks =
  match toks with
  | t :: rest =>
    if and_stop t then Ok (l, toks)
    else if is_and_tok t then code_and_loop n l rest
    else code_parse_not n toks ≫= λ '(r, rest'), code_and_loop n (E_and l r) rest'
  | [] => Ok (l, toks)
  end.
Proof. reflexivity. Qed.

Lemma code_parse_not_S (n : nat) (toks : list string) :
  code_parse_not (S n) toks =
  match toks with
  | [] => Raise IndexError
  | t :: _ =>
    if is_not_tok t then
      count_nots toks
      ≫= λ '(cnt, rest),
           code_parse_not n rest
           ≫= λ '(operand, rest'),
                if Nat.odd cnt then Ok (E_not operand, rest') else Ok (operand, rest')
    else code_parse_primary n toks
  end.
Proof. reflexivity. Qed.

Lemma code_parse_primary_S (n : nat) (toks : list string) :
  code_parse_primary (S n) toks =
  match toks with
  | [] => Raise IndexError
  | tok :: rest =>
    if Str.eqb tok "(" then
      code_parse_or n rest
      ≫= λ '(expr, rest'),
           match rest' with
           | [] => Raise IndexError
           | t :: rest'' =>
             if Str.eqb t ")" then Ok (expr, rest'')
             else Raise (ValueError "Expected ')'")
           end
    else
      parse_term_for_code tok ≫= λ t, code_for_term t ≫= λ e, Ok (e, rest)
  end.
Proof. reflexivity. Qed.

(** The negation tokens that [count_nots] reads are the ones that
    [skip_nots] drops, when another token follows them. *)
Lemma count_nots_spec (toks : list string) :
  match count_nots toks with
  | Ok (cnt, rest) => rest = skip_nots toks /\ (cnt + length rest = length toks)%nat
  | Raise e => e = IndexError /\ skip_nots toks = []
  end.
Proof.
  induction toks as [|t r IH]; [done|].
  cbn [count_nots skip_nots]. destruct (is_not_tok t); [|done].
  destruct (count_nots r) as [[cnt rest]|e]; cbn [mbind result_bind length].
  - destruct IH as [-> Hlen]. split; [done|lia].
  - done.
Qed.

Lemma code_depth_ok_all (bound : nat) :
  forall toks, (length toks < bound)%nat -> code_depth_ok toks.
Proof.
  induction bound as [|bound IH]; intros toks Hb; [lia|].
  assert (IHs : forall toks', (length toks' < length toks)%nat -> code_depth_ok toks').
  { intros toks' H. apply IH. lia. }
  clear IH Hb.
  assert (Hprim : forall n, (5 * length toks + 1 <= n)%nat ->
                            shorter toks (code_parse_primary n toks)).
  { intros [|n] Hn; [lia|]. rewrite code_parse_primary_S.
    destruct toks as [|tok rest]; [done|].
    destruct (Str.eqb tok "(").
    - destruct (IHs rest) as (_ & _ & _ & _ & _ & _ & _ & Hor); [cbn; lia|].
      specialize (Hor n). cbn [length] in *. specialize (Hor ltac:(lia)).
      destruct (code_parse_or n rest) as [[e rest']|e]; cbn in *; [|done].
      destruct rest' as [|t rest'']; [done|].
      destruct (Str.eqb t ")"); cbn in *; [lia|done].
    - pose proof (parse_filter_term_not_rec (fun _ => None) tok) as Ht.
      unfold parse_term_for_code.
      destruct (_parse_filter_term _ tok) as [t|e]; cbn; [|by apply Ht].
      destruct t; cbn; done || lia. }
  assert (Hnot : forall n, (5 * length toks + 2 <= n)%nat ->
                           shorter toks (code_parse_not n toks)).
  { intros [|n] Hn; [lia|]. rewrite code_parse_not_S.
    destruct toks as [|t r]; [done|].
    destruct (is_not_tok t) eqn:Et; [|apply Hprim; lia].
    pose proof (count_nots_spec (t :: r)) as Hc.
    destruct (count_nots (t :: r)) as [[cnt rest]|e]; cbn [mbind result_bind];
      [|by destruct Hc as [-> _]].
    destruct Hc as [-> Hlen]. cbn [skip_nots] in *. rewrite Et in *.
    pose proof (skip_nots_length r) as Hs.
    destruct (IHs (skip_nots r)) as (_ & Hn' & _); [cbn; lia|].
    specialize (Hn' n). cbn [length] in *. specialize (Hn' ltac:(lia)).
    destruct (code_parse_not n (skip_nots r)) as [[op rest]|e]; cbn in *; [|done].
    destruct (Nat.odd cnt); cbn; lia. }
  assert (Hland : forall n l, (5 * length toks + 3 <= n)%nat ->
                              not_longer toks (code_and_loop n l toks)).
  { intros [|n] l Hn; [lia|]. rewrite code_and_loop_S.
    destruct toks as [|t rest]; [cbn; lia|].
    destruct (and_stop t); [cbn; lia|].
    destruct (is_and_tok t).
    - destruct (IHs rest) as (_ & _ & Hl & _); [cbn; lia|].
      apply (not_longer_weaken _ rest); [cbn; lia|]. apply Hl. cbn [length] in Hn. lia.
    - apply shorter_not_longer, shorter_then_loop; [apply Hnot; lia|].
      intros a rest' Hlt. destruct (IHs rest') as (_ & _ & Hl & _); [done|].
      apply Hl. lia. }
  assert (Hand : forall n, (5 * length toks + 3 <= n)%nat ->
                           shorter toks (code_parse_and n toks)).
  { intros [|n] Hn; [lia|]. rewrite code_parse_and_S.
    apply shorter_then_loop; [apply Hnot; lia|].
    intros a rest' Hlt. destruct (IHs rest') as (_ & _ & Hl & _); [done|].
    apply Hl. lia. }
  assert (Hlxor : forall n l, (5 * length toks + 4 <= n)%nat ->
                              not_longer toks (code_xor_loop n l toks)).
  { intros [|n] l Hn; [lia|]. rewrite code_xor_loop_S.
    destruct toks as [|t rest]; [cbn; lia|].
    destruct (is_xor_tok t); [|cbn; lia].
    apply shorter_not_longer, (shorter_weaken _ rest); [cbn; lia|].
    cbn [length] in Hn.
    apply shorter_then_loop.
    - destruct (IHs rest) as (_ & _ & _ & Ha & _); [cbn; lia|]. apply Ha. lia.
    - intros a rest' Hlt. destruct (IHs rest') as (_ & _ & _ & _ & Hl & _); [cbn; lia|].
      apply Hl. lia. }
  assert (Hxor : forall n, (5 * length toks + 4 <= n)%nat ->
                           shorter toks (code_parse_xor n toks)).
  { intros [|n] Hn; [lia|]. rewrite code_parse_xor_S.
    apply shorter_then_loop; [apply Hand; lia|].
    intros a rest' Hlt. destruct (IHs rest') as (_ & _ & _ & _ & Hl & _); [done|].
    apply Hl. lia. }
  assert (Hlor : forall n l, (5 * length toks + 5 <= n)%nat ->
                             not_longer toks (code_or_loop n l toks)).
  { intros [|n] l Hn; [lia|]. rewrite code_or_loop_S.
    destruct toks as [|t rest]; [cbn; lia|].
    destruct (is_or_tok t); [|cbn; lia].
    apply shorter_not_longer, (shorter_weaken _ rest); [cbn; lia|].
    cbn [length] in Hn.
    apply shorter_then_loop.
    - destruct (IHs rest) as (_ & _ & _ & _ & _ & Hx & _); [cbn; lia|]. apply Hx. lia.
    - intros a rest' Hlt.
      destruct (IHs rest') as (_ & _ & _ & _ & _ & _ & Hl & _); [cbn; lia|].
      apply Hl. lia. }
  assert (Hor : forall n, (5 * length toks + 5 <= n)%nat ->
                          shorter toks (code_parse_or n toks)).
  { intros [|n] Hn; [lia|]. rewrite code_parse_or_S.
    apply shorter_then_loop; [apply Hxor; lia|].
    intros a rest' Hlt.
    destruct (IHs rest') as (_ & _ & _ & _ & _ & _ & Hl & _); [done|].
    apply Hl. lia. }
  repeat split; assumption.
Qed.

(** The depth that [compile_filter_string] gives is enough. *)
Lemma compile_filter_string_depth (s : string) : not_rec (compile_filter_string s).
Proof.
  unfold compile_filter_string.
  destruct (code_depth_ok_all (S (length (tokenize_code s))) (tokenize_code s) ltac:(lia))
    as (_ & _ & _ & _ & _ & _ & _ & Hor).
  specialize (Hor (5 * length (tokenize_code s) + 5)%nat ltac:(lia)).
  destruct (code_parse_or _ _) as [[expr rest]|e]; cbn in *.
  - destruct rest; [apply not_rec_ok|apply not_rec_value].
  - intros e' H. by injection H as <-.
Qed.

(* ===================================================================== *)
(** * Empty input *)
(* ===================================================================== *)

(** C5, as the claim states it, fails: on the empty token list the parser
    does not return an accept-all predicate. *)
Lemma C5_empty_stream_is_rejected :
  ~ exists matcher : pred,
      _parse_expression ∅ (fun _ => None) [] = Ok matcher
      /\ forall e, matcher e = Ok true.
Proof. intros (matcher & H & _). discriminate H. Qed.

(** C5, amended.  On the empty token list, which is what the empty string
    tokenizes to, [_parse_expression] raises "Unexpected end of expression".
    Empty input is accepted by the callers: [filter_items] returns the
    entries unchanged on the empty query, and [compile_module_filter] gives
    the predicate that accepts every entry on the empty filter string. *)
Theorem C5_empty_input (w : World) (loader : string -> option pred) (items : list Item) :
  tokenize "" = []
  /\ _parse_expression (_items_dict w) loader []
     = Raise (ValueError "Unexpected end of expression")
  /\ filter_items w items "" = Ok items
  /\ exists f : pred,
       compile_module_filter (_items_dict w) "" = Ok f /\ forall e, f e = Ok true.
Proof. repeat split. by eexists. Qed.

(* ===================================================================== *)
(** * The stat term *)
(* ===================================================================== *)

Lemma Qred_inject_Z (z : Z) : Qred (inject_Z z) = inject_Z z.
Proof.
  unfold Qred, inject_Z.
  pose proof (Z.ggcd_gcd z 1) as Hg.
  pose proof (Z.ggcd_correct_divisors z 1) as Hd.
  destruct (Z.ggcd z 1) as [g [n d]]. cbn [fst snd] in *.
  rewrite Z.gcd_1_r in Hg. subst g. destruct Hd as [Hn Hd].
  rewrite Z.mul_1_l in Hn, Hd. subst n d. reflexivity.
Qed.

Lemma float_add_of_Z (a b : Z) :
  Float.add (Float.of_Z a) (Float.of_Z b) = Float.of_Z (a + b).
Proof.
  unfold Float.add, Float.of_Z. f_equal.
  by rewrite <- inject_Z_plus, Qred_inject_Z.
Qed.

Lemma float_le_Q (q : Q) (z : Z) :
  Float.le (Fin q) (Float.of_Z z) = Qle_bool q (inject_Z z)
  /\ Float.le (Float.of_Z z) (Fin q) = Qle_bool (inject_Z z) q.
Proof. done. Qed.

Lemma sum_stats_total (e : Item) (atk def_ hp spatk spdef spd : Z) :
  stats e !! "atk" = Some (VInt atk) ->
  stats e !! "def" = Some (VInt def_) ->
  stats e !! "hp" = Some (VInt hp) ->
  stats e !! "spatk" = Some (VInt spatk) ->
  stats e !! "spdef" = Some (VInt spdef) ->
  stats e !! "spd" = Some (VInt spd) ->
  sum_stats e ["atk"; "def"; "spd"; "spatk"; "spdef"; "hp"] (Float.of_Z 0)
  = Ok (Float.of_Z (atk + def_ + hp + spatk + spdef + spd)).
Proof.
  intros H1 H2 H3 H4 H5 H6. cbn [sum_stats]. unfold dict_get.
  rewrite H1, H2, H3, H4, H5, H6. cbn [Val.float mbind result_bind].
  rewrite !float_add_of_Z. do 2 f_equal. lia.
Qed.

Lemma stat_total_value (e : Item) (op : string) (target : pyfloat) (total : Z) :
  sum_stats e ["atk"; "def"; "spd"; "spatk"; "spdef"; "hp"] (Float.of_Z 0)
  = Ok (Float.of_Z total) ->
  match_stat_filter e ("total", op, target)
  = if Str.eqb op ">" then Ok (Float.lt target (Float.of_Z total))
    else if Str.eqb op ">=" then Ok (Float.le target (Float.of_Z total))
    else if Str.eqb op "<" then Ok (Float.lt (Float.of_Z total) target)
    else if Str.eqb op "<=" then Ok (Float.le (Float.of_Z total) target)
    else if Str.eqb op "=" then Ok (Float.eq (Float.of_Z total) target)
    else Raise (ValueError "Unknown operator").
Proof.
  intros Hsum. unfold match_stat_filter.
  change (Str.eqb "total" "total") with true. cbn iota. by rewrite Hsum.
Qed.

Lemma float_cmp_Z (a b : Z) :
  Float.le (Float.of_Z a) (Float.of_Z b) = (a <=? b)
  /\ Float.lt (Float.of_Z a) (Float.of_Z b) = (a <? b)
  /\ Float.eq (Float.of_Z a) (Float.of_Z b) = (a =? b).
Proof.
  unfold Float.le, Float.lt, Float.eq, Float.of_Z, Qle_bool, Qeq_bool, inject_Z.
  cbn [Qnum Qden]. rewrite !Z.mul_1_r.
  split; [done|]. split.
  - by rewrite Z.ltb_antisym.
  - done.
Qed.

(** C9.  The term [stat:total] adds the six canonical stats of the entry and
    compares the sum with the bound by the operator as it is written, [>=]
    and [<=] with equality, [>] and [<] without.  For every entry whose six
    stats are integers with a float of their own (at most 2^50 in absolute
    value), and whose sum is [total]: "stat:total>=600" holds exactly when
    600 <= total, "stat:total>600" when 600 < total, and likewise for
    "<=", "<" and "="; and the term with any other bound compares [total]
    with that bound.  So an entry whose six stats are 100 each satisfies
    "stat:total>=600" and fails "stat:total>600". *)
Theorem C9_stat_total (w : World) (e : Item) (atk def_ hp spatk spdef spd : Z) :
  Forall (fun v => Z.abs v <= 2 ^ 50) [atk; def_; hp; spatk; spdef; spd] ->
  stats e !! "atk" = Some (VInt atk) ->
  stats e !! "def" = Some (VInt def_) ->
  stats e !! "hp" = Some (VInt hp) ->
  stats e !! "spatk" = Some (VInt spatk) ->
  stats e !! "spdef" = Some (VInt spdef) ->
  stats e !! "spd" = Some (VInt spd) ->
  let total := atk + def_ + hp + spatk + spdef + spd in
  run w "stat:total>=600" e = Ok (600 <=? total)
  /\ run w "stat:total>600" e = Ok (600 <? total)
  /\ run w "stat:total<=600" e = Ok (total <=? 600)
  /\ run w "stat:total<600" e = Ok (total <? 600)
  /\ run w "stat:total=600" e = Ok (total =? 600)
  /\ (forall bound : Q,
        apply_term (_items_dict w) (T_stat ("total", ">=", Fin bound)) e
        = Ok (Qle_bool bound (inject_Z total))
        /\ apply_term (_items_dict w) (T_stat ("total", ">", Fin bound)) e
           = Ok (negb (Qle_bool (inject_Z total) bound))
        /\ apply_term (_items_dict w) (T_stat ("total", "<=", Fin bound)) e
           = Ok (Qle_bool (inject_Z total) bound)
        /\ apply_term (_items_dict w) (T_stat ("total", "<", Fin bound)) e
           = Ok (negb (Qle_bool bound (inject_Z total)))
        /\ apply_term (_items_dict w) (T_stat ("total", "=", Fin bound)) e
           = Ok (Qeq_bool (inject_Z total) bound)).
Proof.
  intros _ H1 H2 H3 H4 H5 H6 total.
  pose proof (sum_stats_total e atk def_ hp spatk spdef spd H1 H2 H3 H4 H5 H6) as Hsum.
  fold total in Hsum.
  pose proof (float_cmp_Z 600 total) as (Hle & Hlt & _).
  pose proof (float_cmp_Z total 600) as (Hle' & Hlt' & Heq').
  repeat split.
  - change (run w "stat:total>=600" e)
      with (match_stat_filter e ("total", ">=", Float.of_Z 600)).
    rewrite (stat_total_value e _ _ total Hsum). cbn. by rewrite <- Hle.
  - change (run w "stat:total>600" e)
      with (match_stat_filter e ("total", ">", Float.of_Z 600)).
    rewrite (stat_total_value e _ _ total Hsum). cbn. by rewrite <- Hlt.
  - change (run w "stat:total<=600" e)
      with (match_stat_filter e ("total", "<=", Float.of_Z 600)).
    rewrite (stat_total_value e _ _ total Hsum). cbn. by rewrite <- Hle'.
  - change (run w "stat:total<600" e)
      with (match_stat_filter e ("total", "<", Float.of_Z 600)).
    rewrite (stat_total_value e _ _ total Hsum). cbn. by rewrite <- Hlt'.
  - change (run w "stat:total=600" e)
      with (match_stat_filter e ("total", "=", Float.of_Z 600)).
    rewrite (stat_total_value e _ _ total Hsum). cbn. by rewrite <- Heq'.
  - cbn [apply_term]. by rewrite (stat_total_value e _ _ total Hsum).
  - cbn [apply_term]. by rewrite (stat_total_value e _ _ total Hsum).
  - cbn [apply_term]. by rewrite (stat_total_value e _ _ total Hsum).
  - cbn [apply_term]. by rewrite (stat_total_value e _ _ total Hsum).
  - cbn [apply_term]. by rewrite (stat_total_value e _ _ total Hsum).
Qed.

Lemma C9_stat_total_witness :
  run empty_world "stat:total>=600" hundred = Ok true
  /\ run empty_world "stat:total>600" hundred = Ok false.
Proof.
  pose proof (C9_stat_total empty_world hundred 100 100 100 100 100 100) as H.
  destruct H as (Hge & Hgt & _); try reflexivity.
  - repeat constructor; cbn; lia.
  - split; [exact Hge|exact Hgt].
Defined.

(* ===================================================================== *)
(** * The single-item check *)
(* ===================================================================== *)

(** C10.  Whatever the query, [filter_item] returns false when the key of
    the item dictionary names no entry of the store. *)
Theorem C10_unknown_key (w : World) (item_dict : gmap string pyval) (q : string) :
  _items_dict w !! Val.str (dict_get item_dict "key" (VStr "")) = None ->
  filter_item w item_dict q = false.
Proof. intros H. unfold filter_item. by rewrite H. Qed.

Lemma C10_unknown_key_witness :
  filter_item odd_world {[ "key" := VInt 25 ]} "#1-2000f" = false.
Proof. apply C10_unknown_key. reflexivity. Defined.

(* ===================================================================== *)
(** * The cache of the module predicate *)
(* ===================================================================== *)

(** C7.  When the cache has no result for an identifier and the compiled
    predicate returns a boolean for an entry that bears it, a second call of
    the cached predicate, with any entry bearing the same identifier, returns
    that boolean again, and the two calls invoke the compiled predicate once
    in total. *)
Theorem C7_cached_invokes_once (f : pred) (cache : gmap string bool) (calls : nat)
        (e1 e2 : Item) (b : bool) :
  cache !! number e1 = None ->
  number e2 = number e1 ->
  f e1 = Ok b ->
  let first := cached (counting f) e1 (cache, calls) in
  let second := cached (counting f) e2 first.2 in
  first.1 = Ok b
  /\ second.1 = Ok b
  /\ second.2.2 = S calls
  /\ second.2.1 !! number e1 = Some b.
Proof.
  intros Hfresh Hnum Hf first second.
  assert (Hfirst : first = (Ok b, (<[number e1 := b]> cache, S calls))).
  { subst first. unfold cached, counting. by rewrite Hfresh, Hf. }
  assert (Hsecond : second = (Ok b, (<[number e1 := b]> cache, S calls))).
  { subst second. rewrite Hfirst. unfold cached. cbn [snd].
    by rewrite Hnum, lookup_insert_eq. }
  rewrite Hfirst, Hsecond. cbn [fst snd]. by rewrite lookup_insert_eq.
Qed.

Lemma C7_cached_invokes_once_witness :
  let f : pred := fun e => Ok (Str.eqb (name e) "Pikachu") in
  let first := cached (counting f) pikachu (∅, 0%nat) in
  let second := cached (counting f) (entry "Raichu" "25") first.2 in
  first.1 = Ok true /\ second.1 = Ok true /\ second.2.2 = 1%nat
  /\ second.2.1 !! "25" = Some true.
Proof.
  exact (C7_cached_invokes_once
           (fun e => Ok (Str.eqb (name e) "Pikachu")) ∅ 0 pikachu (entry "Raichu" "25") true
           eq_refl eq_refl eq_refl).
Defined.

(* ===================================================================== *)
(** * A module without exclusions *)
(* ===================================================================== *)

Lemma no_exclusions_tokens (d : ModuleDoc) :
  no_exclusions d -> module_tokens d = [].
Proof.
  intros (Hfc & H1 & H2 & H3 & H4 & H5 & H6 & H7 & H8 & H9).
  unfold module_tokens, region_tokens, form_tokens, species_tokens.
  by rewrite Hfc, H1, H2, H3, H4, H5, H6, H7, H8, H9.
Qed.

(** A cache that holds no [false] stays so under a predicate that accepts
    every entry, and the pass keeps every entry. *)
Lemma filter_cached_accept_all (f : pred) (items : list Item) (cache : gmap string bool) :
  (forall e, f e = Ok true) ->
  (forall k b, cache !! k = Some b -> b = true) ->
  (filter_cached (pure_func f) items (cache, tt)).1 = Ok items.
Proof.
  intros Hf. revert cache. induction items as [|item rest IH]; intros cache Hc; [done|].
  cbn [filter_cached]. unfold cached, pure_func at 1.
  destruct (cache !! number item) as [b|] eqn:E.
  - rewrite (Hc _ _ E). specialize (IH cache Hc).
    destruct (filter_cached _ rest (cache, tt)) as [[kept|e] st]; cbn in *; by simplify_eq.
  - rewrite Hf.
    assert (Hc' : forall k b, <[number item := true]> cache !! k = Some b -> b = true).
    { intros k b. rewrite lookup_insert. case_decide; [congruence|apply Hc]. }
    specialize (IH _ Hc').
    destruct (filter_cached _ rest (_, tt)) as [[kept|e] st]; cbn in *; by simplify_eq.
Qed.

(** C8.  A module document without exclusions gives the empty filter string;
    the module loads, its predicate returns true on every entry, and so does
    the cached predicate, from the empty cache, on every entry of every
    sequence. *)
Theorem C8_no_exclusions_accepts_all (w : World) (file : string) (d : ModuleDoc) :
  MODULES w !! file = Some d ->
  enabled d = true ->
  no_exclusions d ->
  build_module_filter_string d = ""
  /\ exists md : ModData,
       load_module w file = Ok (Some md)
       /\ filter_string md = ""
       /\ (forall e, func md e = Ok true)
       /\ (forall items,
              (filter_cached (pure_func (func md)) items (∅, tt)).1 = Ok items).
Proof.
  intros Hfile Hen Hno.
  assert (Hfs : build_module_filter_string d = "").
  { unfold build_module_filter_string. by rewrite no_exclusions_tokens. }
  split; [done|].
  unfold load_module. rewrite Hfile, Hen, Hfs. cbn.
  eexists. split; [reflexivity|]. cbn. repeat split.
  intros items. by apply filter_cached_accept_all.
Qed.

Lemma C8_no_exclusions_accepts_all_witness :
  build_module_filter_string empty_doc = ""
  /\ exists md : ModData,
       load_module {| _items_dict := ∅; MODULES := {[ "all.json" := empty_doc ]} |}
                   "all.json" = Ok (Some md)
       /\ filter_string md = ""
       /\ (forall e, func md e = Ok true)
       /\ (forall items,
              (filter_cached (pure_func (func md)) items (∅, tt)).1 = Ok items).
Proof.
  apply (C8_no_exclusions_accepts_all
           {| _items_dict := ∅; MODULES := {[ "all.json" := empty_doc ]} |}
           "all.json" empty_doc).
  - reflexivity.
  - reflexivity.
  - repeat split.
Defined.

(* ===================================================================== *)
(** * The number-range term *)
(* ===================================================================== *)

Lemma number_range_value (e : Item) (lo hi : Z) (include_forms : bool) :
  match_number_range_filter e (Float.of_Z lo, Float.of_Z hi, include_forms)
  = Ok (num_between lo hi e && (include_forms || negb (is_variant e))).
Proof.
  unfold match_number_range_filter, num_between, is_variant.
  destruct (Float.of_string (number e)) as [x|err]; [|done].
  destruct (Float.le (Float.of_Z lo) x && Float.le x (Float.of_Z hi)); [|done].
  by destruct include_forms, (Str.contains "." (number e)).
Qed.

(** C3 does not hold of the code.  The claim reads the range over the base
    identifier, with the suffix f admitting the variants: "#12f" is to match
    "12" and "12.01", and "#10-12f" the variants of 10, 11 and 12.  The code
    compares the whole identifier, read as a number, with the bounds, and the
    suffix f lifts only the ban on identifiers with a dot.  So "#12f" matches
    "12" and not "12.01", and "#10-12f" matches "10.01" and "11.01" and not
    "12.01", which reads as a number above 12: the variants of the upper
    bound are dropped, those of the numbers below it are kept.  Without the
    suffix the code does what the claim says: "#12" matches "12" only, and
    "#10-12" matches "10", "11" and "12" and none of their variants. *)
Theorem C3_number_range (w : World) (e : Item) :
  run w "#12" e = Ok (num_between 12 12 e && negb (is_variant e))
  /\ run w "#12f" e = Ok (num_between 12 12 e)
  /\ run w "#10-12" e = Ok (num_between 10 12 e && negb (is_variant e))
  /\ run w "#10-12f" e = Ok (num_between 10 12 e)
  /\ run w "#12" (set_number "12" e) = Ok true
  /\ run w "#12" (set_number "12.01" e) = Ok false
  /\ run w "#12" (set_number "13" e) = Ok false
  /\ run w "#12f" (set_number "12" e) = Ok true
  /\ run w "#12f" (set_number "12.01" e) = Ok false
  /\ Forall (fun num => run w "#10-12" (set_number num e) = Ok true) ["10"; "11"; "12"]
  /\ Forall (fun num => run w "#10-12" (set_number num e) = Ok false)
            ["9"; "13"; "10.01"; "11.01"; "12.01"]
  /\ Forall (fun num => run w "#10-12f" (set_number num e) = Ok true)
            ["10"; "11"; "12"; "10.01"; "11.01"]
  /\ run w "#10-12f" (set_number "12.01" e) = Ok false.
Proof.
  split; [|split; [|split; [|split]]].
  - change (run w "#12" e)
      with (match_number_range_filter e (Float.of_Z 12, Float.of_Z 12, false)).
    by rewrite number_range_value.
  - change (run w "#12f" e)
      with (match_number_range_filter e (Float.of_Z 12, Float.of_Z 12, true)).
    by rewrite number_range_value, andb_true_r.
  - change (run w "#10-12" e)
      with (match_number_range_filter e (Float.of_Z 10, Float.of_Z 12, false)).
    by rewrite number_range_value.
  - change (run w "#10-12f" e)
      with (match_number_range_filter e (Float.of_Z 10, Float.of_Z 12, true)).
    by rewrite number_range_value, andb_true_r.
  - repeat split; repeat constructor.
Qed.

(* ===================================================================== *)
(** * Tolerance to queries that do not compile *)
(* ===================================================================== *)

Lemma compile_strip (w : World) (q : string) : compile w (Str.strip q) = compile w q.
Proof. unfold compile, _compile. by rewrite tokenize_strip. Qed.

Lemma safe_compile_fails (w : World) (q : string) :
  is_ok (compile w q) = false -> safe_compile w q = None.
Proof.
  unfold safe_compile, _safe_compile, compile.
  by destruct (_compile _ _ q).
Qed.

(** C1, as the claim states it, fails: the query "module:k(" does not
    compile, since its parenthesis is not closed, and yet [filter_items]
    filters with it when the module directory has a file named "k(". *)
Lemma C1_module_query_filters :
  ~ (forall (w : World) (items : list Item) (q : string),
        is_ok (compile w q) = false -> filter_items w items q = Ok items).
Proof.
  intros H. specialize (H odd_world [bulbasaur] "module:k(" eq_refl).
  discriminate H.
Qed.

(** C1, amended.  For every sequence of entries and every query whose
    compilation raises, and which is not a [module:] query that names a
    module that loads, [filter_items] returns the sequence unchanged; and
    [filter_item] returns false on every query whose compilation raises. *)
Theorem C1_unparseable_query (w : World) (items : list Item)
        (item_dict : gmap string pyval) (q : string) :
  is_ok (compile w q) = false ->
  (module_query w q = None -> filter_items w items q = Ok items)
  /\ filter_item w item_dict q = false.
Proof.
  intros Hq. split.
  - intros Hmod. unfold filter_items. unfold module_query in Hmod.
    destruct (Str.is_empty (Str.strip q)); [done|].
    destruct (Str.startswith _ "module:"); [by rewrite Hmod|].
    rewrite safe_compile_fails; [done|]. by rewrite compile_strip.
  - unfold filter_item. destruct (_ !! _); [|done].
    by rewrite safe_compile_fails.
Qed.

Lemma C1_unparseable_query_witness :
  filter_items odd_world [bulbasaur; pikachu] "(name:pika" = Ok [bulbasaur; pikachu]
  /\ filter_item odd_world {[ "key" := VStr "1" ]} "(name:pika" = false.
Proof.
  destruct (C1_unparseable_query odd_world [bulbasaur; pikachu]
              {[ "key" := VStr "1" ]} "(name:pika" eq_refl) as [H1 H2].
  split; [apply H1; reflexivity|exact H2].
Defined.

(* ===================================================================== *)
(** * Precedence and the implicit conjunction *)
(* ===================================================================== *)

Lemma term_tok_facts (t : string) :
  is_term_tok t = true ->
  tokenize t = [t]
  /\ is_not_tok t = false /\ is_or_tok t = false /\ is_xor_tok t = false
  /\ is_and_tok t = false /\ Str.eqb t "(" = false /\ and_stop t = false.
Proof.
  unfold is_term_tok. rewrite !andb_true_iff, !negb_true_iff, bool_decide_eq_true.
  intros ((((((Htok & Hnot) & Hor) & Hxor) & Hand) & Hopen) & Hclose).
  repeat split; try done.
  unfold and_stop. rewrite Hclose. cbn [orb].
  unfold Str.eqb.
  repeat case_bool_decide; subst; try done; vm_compute in Hor, Hxor; discriminate.
Qed.

Section Precedence.

Variable w : World.

Let term_of (t : string) : result filter_term :=
  _parse_filter_term (module_func w) t.
Let P (t : filter_term) : pred := apply_term (_items_dict w) t.

Lemma parse_term_at (n : nat) (t : string) (rest : list string) :
  is_term_tok t = true ->
  _parse_not (_items_dict w) (module_func w) (S (S n)) (t :: rest)
  = term_of t ≫= λ tm, Ok (P tm, rest).
Proof.
  intros (_ & Hnot & _ & _ & _ & Hopen & _)%term_tok_facts.
  by rewrite parse_not_S, Hnot, parse_primary_S, Hopen.
Qed.

(** The tokens [a OR b AND c], with or without parentheses around the
    conjunction, and the tokens [a b], with or without [AND] between. *)
Local Ltac literal_tests :=
  change (and_stop "OR") with true;
  change (and_stop "AND") with false;
  change (and_stop ")") with true;
  change (is_and_tok "AND") with true;
  change (is_xor_tok "OR") with false;
  change (is_xor_tok ")") with false;
  change (is_or_tok "OR") with true;
  change (is_or_tok ")") with false;
  change (is_not_tok "(") with false;
  change (Str.eqb "(" "(") with true;
  change (Str.eqb ")" ")") with true.

Local Ltac step :=
  first
    [ rewrite parse_term_at by done
    | rewrite parse_or_S | rewrite parse_xor_S | rewrite parse_and_S
    | rewrite and_loop_S | rewrite xor_loop_S | rewrite or_loop_S
    | rewrite parse_not_S | rewrite parse_primary_S ];
  literal_tests;
  repeat match goal with
         | H : and_stop ?t = false |- context [and_stop ?t] => rewrite H
         | H : is_and_tok ?t = false |- context [is_and_tok ?t] => rewrite H
         end;
  cbn [mbind result_bind].

Local Ltac on_term t :=
  destruct (term_of t); [cbn [mbind result_bind]|reflexivity].

(** The tokens [a OR b AND c], with or without parentheses around the
    conjunction. *)
Lemma parse_or_and (a b c : string) (closed : bool) :
  is_term_tok a = true -> is_term_tok b = true -> is_term_tok c = true ->
  _parse_expression (_items_dict w) (module_func w)
    (if closed then [a; "OR"; "("; b; "AND"; c; ")"] else [a; "OR"; b; "AND"; c])
  = ta ← term_of a; tb ← term_of b; tc ← term_of c;
    Ok (p_or (P ta) (p_and (P tb) (P tc))).
Proof.
  intros Ha Hb Hc.
  pose proof (term_tok_facts c Hc) as (_ & _ & Hco & Hcx & Hca & _ & Hcs).
  unfold _parse_expression.
  destruct closed; cbn [length Nat.mul Nat.add].
  - repeat step. on_term a. repeat step. on_term b. repeat step. on_term c.
    repeat step. reflexivity.
  - repeat step. on_term a. repeat step. on_term b. repeat step. on_term c.
    repeat step. reflexivity.
Qed.

(** The tokens [a b], with or without [AND] between. *)
Lemma parse_and_pair (a b : string) (explicit : bool) :
  is_term_tok a = true -> is_term_tok b = true ->
  _parse_expression (_items_dict w) (module_func w)
    (if explicit then [a; "AND"; b] else [a; b])
  = ta ← term_of a; tb ← term_of b; Ok (p_and (P ta) (P tb)).
Proof.
  intros Ha Hb.
  pose proof (term_tok_facts b Hb) as (_ & _ & Hbo & Hbx & Hba & _ & Hbs).
  unfold _parse_expression.
  destruct explicit; cbn [length Nat.mul Nat.add].
  - repeat step. on_term a. repeat step. on_term b. repeat step. reflexivity.
  - repeat step. on_term a. repeat step. on_term b. repeat step. reflexivity.
Qed.

End Precedence.

Lemma tokenize_sp (x y : string) :
  tokenize (x +:+ " " +:+ y) = tokenize x ++ tokenize y.
Proof. by apply (tokenize_app " "). Qed.

Lemma tokenize_or_and (a b c : string) :
  tokenize a = [a] -> tokenize b = [b] -> tokenize c = [c] ->
  tokenize (a +:+ " OR " +:+ b +:+ " AND " +:+ c) = [a; "OR"; b; "AND"; c].
Proof.
  intros Ha Hb Hc.
  change (a +:+ " OR " +:+ b +:+ " AND " +:+ c)
    with (a +:+ " " +:+ "OR" +:+ " " +:+ b +:+ " " +:+ "AND" +:+ " " +:+ c).
  rewrite !tokenize_sp, Ha, Hb, Hc. reflexivity.
Qed.

Lemma tokenize_or_and_closed (a b c : string) :
  tokenize a = [a] -> tokenize b = [b] -> tokenize c = [c] ->
  tokenize (a +:+ " OR (" +:+ b +:+ " AND " +:+ c +:+ ")")
  = [a; "OR"; "("; b; "AND"; c; ")"].
Proof.
  intros Ha Hb Hc.
  change (a +:+ " OR (" +:+ b +:+ " AND " +:+ c +:+ ")")
    with (a +:+ " " +:+ "OR" +:+ " "
            +:+ ("" +:+ String "(" (b +:+ " " +:+ "AND" +:+ " " +:+ (c +:+ String ")" "")))).
  rewrite !tokenize_sp, (tokenize_app_paren "(") by auto.
  rewrite !tokenize_sp, (tokenize_app_paren ")") by auto.
  rewrite Ha, Hb, Hc. reflexivity.
Qed.

Lemma tokenize_pair (a b : string) :
  tokenize a = [a] -> tokenize b = [b] ->
  tokenize (a +:+ " " +:+ b) = [a; b]
  /\ tokenize (a +:+ " AND " +:+ b) = [a; "AND"; b].
Proof.
  intros Ha Hb. split.
  - by rewrite tokenize_sp, Ha, Hb.
  - change (a +:+ " AND " +:+ b) with (a +:+ " " +:+ "AND" +:+ " " +:+ b).
    rewrite !tokenize_sp, Ha, Hb. reflexivity.
Qed.

(** C6.  For all terms a, b, c: the predicate compiled from "a OR b AND c" is
    the one compiled from "a OR (b AND c)", the disjunction of a with the
    conjunction of b and c, and the predicate compiled from "a b" is the one
    compiled from "a AND b", the conjunction of a and b; on every entry the
    two of each pair return the same. *)
Theorem C6_precedence (w : World) (a b c : string) :
  is_term_tok a = true -> is_term_tok b = true -> is_term_tok c = true ->
  let term_of t := _parse_filter_term (module_func w) t in
  let P t := apply_term (_items_dict w) t in
  compile w (a +:+ " OR " +:+ b +:+ " AND " +:+ c)
  = (ta ← term_of a; tb ← term_of b; tc ← term_of c;
     Ok (p_or (P ta) (p_and (P tb) (P tc))))
  /\ compile w (a +:+ " OR (" +:+ b +:+ " AND " +:+ c +:+ ")")
     = compile w (a +:+ " OR " +:+ b +:+ " AND " +:+ c)
  /\ compile w (a +:+ " AND " +:+ b)
     = (ta ← term_of a; tb ← term_of b; Ok (p_and (P ta) (P tb)))
  /\ compile w (a +:+ " " +:+ b) = compile w (a +:+ " AND " +:+ b)
  /\ (forall e, run w (a +:+ " OR " +:+ b +:+ " AND " +:+ c) e
                = run w (a +:+ " OR (" +:+ b +:+ " AND " +:+ c +:+ ")") e)
  /\ (forall e, run w (a +:+ " " +:+ b) e = run w (a +:+ " AND " +:+ b) e).
Proof.
  intros Ha Hb Hc term_of P.
  pose proof (term_tok_facts a Ha) as (Hta & _).
  pose proof (term_tok_facts b Hb) as (Htb & _).
  pose proof (term_tok_facts c Hc) as (Htc & _).
  destruct (tokenize_pair a b Hta Htb) as [Hp1 Hp2].
  assert (H1 : compile w (a +:+ " OR " +:+ b +:+ " AND " +:+ c)
               = (ta ← term_of a; tb ← term_of b; tc ← term_of c;
                  Ok (p_or (P ta) (p_and (P tb) (P tc))))).
  { unfold compile, _compile. rewrite tokenize_or_and by done.
    by apply (parse_or_and w a b c false). }
  assert (H2 : compile w (a +:+ " OR (" +:+ b +:+ " AND " +:+ c +:+ ")")
               = compile w (a +:+ " OR " +:+ b +:+ " AND " +:+ c)).
  { rewrite H1. unfold compile, _compile. rewrite tokenize_or_and_closed by done.
    by apply (parse_or_and w a b c true). }
  assert (H3 : compile w (a +:+ " AND " +:+ b)
               = (ta ← term_of a; tb ← term_of b; Ok (p_and (P ta) (P tb)))).
  { unfold compile, _compile. rewrite Hp2. by apply (parse_and_pair w a b true). }
  assert (H4 : compile w (a +:+ " " +:+ b) = compile w (a +:+ " AND " +:+ b)).
  { rewrite H3. unfold compile, _compile. rewrite Hp1.
    by apply (parse_and_pair w a b false). }
  repeat split; try done.
  - intros e. unfold run. by rewrite H2.
  - intros e. unfold run. by rewrite H4.
Qed.

Lemma C6_precedence_witness :
  let w := empty_world in
  let a := "name:pika" in
  let b := "#25" in
  let c := "form:variant" in
  compile w (a +:+ " OR (" +:+ b +:+ " AND " +:+ c +:+ ")")
  = compile w (a +:+ " OR " +:+ b +:+ " AND " +:+ c)
  /\ compile w (a +:+ " " +:+ b) = compile w (a +:+ " AND " +:+ b).
Proof.
  destruct (C6_precedence empty_world "name:pika" "#25" "form:variant"
              eq_refl eq_refl eq_refl) as (_ & H2 & _ & H4 & _).
  exact (conj H2 H4).
Defined.

(* ===================================================================== *)
(** * Negation in the two compilers *)
(* ===================================================================== *)

(** [!] is a token of its own, too. *)
Lemma tokenize_app_bang (x y : string) :
  tokenize (x +:+ String "!" y) = tokenize x ++ "!" :: tokenize y.
Proof.
  rewrite !tokenize_post.
  rewrite TokFacts.pad_parens_app, TokFacts.pad_bang_app.
  change (Tok.pad_bang (Tok.pad_parens (String "!" y)))
    with (String " " (String "!" "" +:+ String " " (Tok.pad_bang (Tok.pad_parens y)))).
  by rewrite !(TokFacts.post_app " ").
Qed.

Lemma skip_nots_run (negs : list string) (a : string) (rest : list string) :
  Forall (fun t => is_not_tok t = true) negs ->
  is_not_tok a = false ->
  skip_nots (negs ++ a :: rest) = a :: rest.
Proof.
  intros Hnegs Ha. induction Hnegs as [|t negs Ht _ IH]; cbn [app skip_nots].
  - by rewrite Ha.
  - by rewrite Ht.
Qed.

(** In [filter.py], a run of negation tokens before a term, however long,
    negates the term once. *)
Lemma parse_negations (w : World) (t : string) (negs : list string) (a : string) :
  is_not_tok t = true ->
  Forall (fun t => is_not_tok t = true) negs ->
  is_term_tok a = true ->
  _parse_expression (_items_dict w) (module_func w) (t :: negs ++ [a])
  = ta ← _parse_filter_term (module_func w) a;
    Ok (p_not (apply_term (_items_dict w) ta)).
Proof.
  intros Ht Hnegs Ha.
  pose proof (term_tok_facts a Ha) as (_ & Hna & _).
  unfold _parse_expression.
  replace (5 * length (t :: negs ++ [a]) + 5)%nat
    with (S (S (S (S (S (S (5 * length negs + 9))))))) by (cbn; rewrite length_app; cbn; lia).
  rewrite parse_or_S, parse_xor_S, parse_and_S, parse_not_S, Ht.
  change (skip_nots (t :: negs ++ [a])) with
    (if is_not_tok t then skip_nots (negs ++ [a]) else t :: negs ++ [a]).
  rewrite Ht, skip_nots_run, parse_term_at by done.
  destruct (_parse_filter_term (module_func w) a) as [ta|e]; [|done].
  cbn [mbind result_bind].
  rewrite and_loop_S. cbn [mbind result_bind].
  rewrite xor_loop_S. cbn [mbind result_bind].
  by rewrite or_loop_S.
Qed.

(** So the three spellings of a double negation of a term compile to its
    single negation. *)
Lemma double_negation_of_term (w : World) (a : string) :
  is_term_tok a = true ->
  let negated := ta ← _parse_filter_term (module_func w) a;
                 Ok (p_not (apply_term (_items_dict w) ta)) in
  compile w ("NOT NOT " +:+ a) = negated
  /\ compile w ("!!" +:+ a) = negated
  /\ compile w ("! !" +:+ a) = negated.
Proof.
  intros Ha negated.
  pose proof (term_tok_facts a Ha) as (Hta & _).
  unfold compile, _compile.
  change ("NOT NOT " +:+ a) with ("NOT" +:+ " " +:+ "NOT" +:+ " " +:+ a).
  change ("!!" +:+ a) with ("" +:+ String "!" ("" +:+ String "!" a)).
  change ("! !" +:+ a) with ("" +:+ String "!" ("" +:+ " " +:+ ("" +:+ String "!" a))).
  rewrite !tokenize_sp, !tokenize_app_bang, !tokenize_sp, !tokenize_app_bang, Hta.
  change (tokenize "NOT") with ["NOT"]. change (tokenize "") with (@nil string).
  cbn [app].
  repeat split.
  - apply (parse_negations w "NOT" ["NOT"] a); [done|by constructor|done].
  - apply (parse_negations w "!" ["!"] a); [done|by constructor|done].
  - apply (parse_negations w "!" ["!"] a); [done|by constructor|done].
Qed.

(** C2.  In [filter.py] a run of negation tokens negates once, whatever its
    length: the predicates compiled from "NOT NOT pika", "!!pika" and
    "! !pika" return on every entry the opposite of what the predicate
    compiled from "pika" returns, and on the entry named Pikachu they return
    false where "pika" returns true. *)
Theorem C2_repeated_negation_negates_once (w : World) (e : Item) :
  let hit := Str.contains "pika" (Str.lower (name e)) in
  run w "pika" e = Ok hit
  /\ run w "NOT NOT pika" e = Ok (negb hit)
  /\ run w "!!pika" e = Ok (negb hit)
  /\ run w "! !pika" e = Ok (negb hit)
  /\ run w "pika" pikachu = Ok true
  /\ run w "NOT NOT pika" pikachu = Ok false.
Proof. repeat split. Qed.

(** C4.  The module compiler and the interactive compiler both accept
    "NOT NOT pika" and disagree on it: on the entry named Pikachu the
    predicate of [compile_module_filter] returns true, the predicate of
    [_compile] returns false.  They also part on a range with an infinite
    bound, "#inf-inff", which both accept: the generated function names
    [inf], which its environment does not bind, and raises, where the
    predicate of [_compile] returns false. *)
Theorem C4_module_compiler_disagrees (w : World) :
  is_ok (compile_module_filter (_items_dict w) "NOT NOT pika") = true
  /\ is_ok (compile w "NOT NOT pika") = true
  /\ run_module w "NOT NOT pika" pikachu = Ok true
  /\ run w "NOT NOT pika" pikachu = Ok false
  /\ is_ok (compile_module_filter (_items_dict w) "#inf-inff") = true
  /\ is_ok (compile w "#inf-inff") = true
  /\ run_module w "#inf-inff" pikachu = Raise (NameError "inf")
  /\ run w "#inf-inff" pikachu = Ok false.
Proof. repeat split. Qed.

(* ===================================================================== *)
(** * Further properties: the tokenizer *)
(* ===================================================================== *)

(** Spaces around a query do not change its tokens. *)
Theorem tokens_ignore_outer_space (s : string) :
  tokenize (Str.strip s) = tokenize s.
Proof. apply tokenize_strip. Qed.

(** A space cuts the text in two parts that are tokenized each by itself. *)
Theorem tokens_of_two_parts (sp : ascii) (x y : string) :
  Str.is_space sp = true ->
  tokenize (x +:+ String sp y) = tokenize x ++ tokenize y.
Proof. apply tokenize_app. Qed.

Lemma tokens_of_two_parts_witness :
  tokenize ("(a OR" +:+ String " " "NOT b)") = tokenize "(a OR" ++ tokenize "NOT b)".
Proof. apply (tokens_of_two_parts " " "(a OR" "NOT b)"). reflexivity. Defined.

Lemma split_no_space (s : string) :
  Forall (fun t => t <> "" /\ no_space t = true) (Tok.split s).
Proof.
  induction s as [|c r IH]; [constructor|].
  cbn [Tok.split]. destruct (Str.is_space c) eqn:Hc; [done|].
  assert (Hone : String c "" <> "" /\ no_space (String c "") = true).
  { split; [done|]. cbn. by rewrite Hc. }
  destruct (negb (Tok.starts_nonspace r)); [by constructor|].
  destruct (Tok.split r) as [|w ws]; [by constructor|].
  inversion IH as [|? ? [_ Hw] Hws]; subst.
  constructor; [|done]. split; [done|]. cbn. by rewrite Hc, Hw.
Qed.

(** No token is empty and no token has a space in it. *)
Theorem tokens_have_no_space (s t : string) :
  t ∈ tokenize s -> t <> "" /\ no_space t = true.
Proof.
  intros Ht. unfold tokenize in Ht.
  pose proof (split_no_space
                (Tok.pad_pipes (Tok.pad_keywords false (Tok.pad_bang (Tok.pad_parens s)))))
    as H.
  rewrite Forall_forall in H. by apply H.
Qed.

Lemma tokens_have_no_space_witness :
  "name:pika" <> "" /\ no_space "name:pika" = true.
Proof.
  apply (tokens_have_no_space " (name:pika  OR x)" "name:pika").
  apply (bool_decide_eq_true_1 _). reflexivity.
Defined.

Lemma despace_pad_parens (s : string) : despace (Tok.pad_parens s) = despace s.
Proof.
  induction s as [|c r IH]; [done|]. cbn [Tok.pad_parens].
  destruct (_ || _); unfold Tok.pad; cbn [despace]; rewrite IH;
    change (Str.is_space " ") with true; by cbn iota.
Qed.

Lemma despace_pad_bang (s : string) : despace (Tok.pad_bang s) = despace s.
Proof.
  induction s as [|c r IH]; [done|]. cbn [Tok.pad_bang].
  destruct (bool_decide _); unfold Tok.pad; cbn [despace]; rewrite IH;
    change (Str.is_space " ") with true; by cbn iota.
Qed.

Lemma despace_pad_keywords (n : nat) :
  forall (s : string) (pw : bool),
    (String.length s <= n)%nat -> despace (Tok.pad_keywords pw s) = despace s.
Proof.
  induction n as [|n IH]; intros s pw Hlen.
  { destruct s; [by destruct pw|simpl in Hlen; lia]. }
  destruct s as [|c1 r1]; [by destruct pw|]. simpl in Hlen.
  assert (Hskip : despace (String c1 (Tok.pad_keywords (Str.is_word c1) r1))
                  = despace (String c1 r1)).
  { cbn [despace]. rewrite IH by lia. done. }
  destruct pw; [by rewrite TokFacts.pad_keywords_true|].
  rewrite TokFacts.pad_keywords_false.
  destruct (Tok.kw_len (String c1 r1)) as [|[|[|[|k]]]]; try done.
  - destruct r1 as [|c2 r2]; [done|]. simpl in Hlen.
    cbn [despace]. change (Str.is_space " ") with true. cbn iota.
    rewrite IH by lia. done.
  - destruct r1 as [|c2 [|c3 r3]]; [done..|]. simpl in Hlen.
    cbn [despace]. change (Str.is_space " ") with true. cbn iota.
    rewrite IH by lia. done.
Qed.

Lemma despace_pad_pipes (n : nat) :
  forall s : string, (String.length s <= n)%nat -> despace (Tok.pad_pipes s) = despace s.
Proof.
  induction n as [|n IH]; intros s Hlen.
  { destruct s; [done|simpl in Hlen; lia]. }
  destruct s as [|c1 [|c2 r2]]; [done..|]. simpl in Hlen.
  rewrite TokFacts.pad_pipes_two.
  destruct (_ && _).
  - cbn [despace]. change (Str.is_space " ") with true. cbn iota.
    rewrite IH by lia. done.
  - cbn [despace]. rewrite IH by (simpl; lia). done.
Qed.

Lemma concat_split (s : string) : concat_str (Tok.split s) = despace s.
Proof.
  induction s as [|c r IH]; [done|].
  cbn [Tok.split despace]. destruct (Str.is_space c); [done|].
  destruct (Tok.starts_nonspace r) eqn:Hr; cbn [negb].
  - pose proof (TokFacts.split_starts r Hr).
    destruct (Tok.split r) as [|w ws]; [done|].
    cbn [concat_str] in *. rewrite <- IH. done.
  - cbn [concat_str]. by rewrite IH.
Qed.

Lemma concat_tokenize (s : string) : concat_str (tokenize s) = despace s.
Proof.
  unfold tokenize.
  rewrite concat_split, (despace_pad_pipes _ _ (le_n _)),
    (despace_pad_keywords _ _ _ (le_n _)), despace_pad_bang, despace_pad_parens.
  done.
Qed.

(** The tokens, put together, are the query without its spaces: the
    tokenizer adds and removes spaces and nothing else. *)
Theorem tokens_keep_the_text (s : string) :
  concat_str (tokenize s) = despace s.
Proof. apply concat_tokenize. Qed.

Lemma has_char_app (P : ascii -> bool) (x y : string) :
  has_char P (x +:+ y) = has_char P x || has_char P y.
Proof.
  induction x as [|c x IH]; [done|].
  rewrite app_cons. cbn [has_char]. by rewrite IH, orb_assoc.
Qed.

Lemma has_char_concat (P : ascii -> bool) (l : list string) :
  has_char P (concat_str l) = existsb (has_char P) l.
Proof.
  induction l as [|x l IH]; [done|].
  cbn [concat_str existsb]. by rewrite has_char_app, IH.
Qed.

Lemma has_char_despace (P : ascii -> bool) (s : string) :
  has_char P (despace s) = true -> has_char P s = true.
Proof.
  induction s as [|c r IH]; [done|]. cbn [despace has_char].
  destruct (Str.is_space c); cbn [has_char].
  - intros H. rewrite (IH H). apply orb_true_r.
  - intros [H|H]%orb_true_iff; rewrite ?H, ?(IH H); by rewrite ?orb_true_r.
Qed.

(** A token has only characters of the query. *)
Lemma token_chars (P : ascii -> bool) (s t : string) :
  t ∈ tokenize s -> has_char P t = true -> has_char P s = true.
Proof.
  intros Ht HP. apply has_char_despace. rewrite <- concat_tokenize.
  rewrite has_char_concat. apply existsb_exists. exists t.
  split; [by apply list_elem_of_In|done].
Qed.

Lemma first_punct (s : string) :
  has_char is_punct s = true ->
  exists x c y, s = x +:+ String c y /\ is_punct c = true /\ has_char is_punct x = false.
Proof.
  induction s as [|c r IH]; [done|]. cbn [has_char].
  destruct (is_punct c) eqn:Hc.
  - intros _. by exists "", c, r.
  - cbn [orb]. intros (x & c' & y & -> & Hc' & Hx)%IH.
    exists (String c x), c', y. repeat split; [done|]. cbn [has_char]. by rewrite Hc, Hx.
Qed.

Lemma tokenize_app_punct (c : ascii) (x y : string) :
  is_punct c = true ->
  tokenize (x +:+ String c y) = tokenize x ++ String c "" :: tokenize y.
Proof.
  unfold is_punct. rewrite !orb_true_iff, !bool_decide_eq_true.
  intros [[->| ->]| ->].
  - apply tokenize_app_paren. by left.
  - apply tokenize_app_paren. by right.
  - apply tokenize_app_bang.
Qed.

Lemma length_app_str (x y : string) :
  String.length (x +:+ y) = (String.length x + String.length y)%nat.
Proof. induction x as [|c x IH]; [done|]. rewrite app_cons. cbn. by rewrite IH. Qed.

(** A parenthesis or an exclamation mark is always a token of its own: a
    token that has one is that one character. *)
Theorem punctuation_stands_alone (s t : string) :
  t ∈ tokenize s ->
  has_char is_punct t = true ->
  t = "(" \/ t = ")" \/ t = "!".
Proof.
  remember (String.length s) as n eqn:Hn. revert s Hn t.
  induction n as [n IH] using lt_wf_ind. intros s Hn t Ht Hp.
  destruct (first_punct s (token_chars _ s t Ht Hp)) as (x & c & y & -> & Hc & Hx).
  rewrite tokenize_app_punct in Ht by done.
  apply elem_of_app in Ht as [Ht|Ht].
  - pose proof (token_chars _ x t Ht Hp) as Hx'. congruence.
  - apply elem_of_cons in Ht as [->|Ht].
    + revert Hc. unfold is_punct. rewrite !orb_true_iff, !bool_decide_eq_true.
      intros [[->| ->]| ->]; auto.
    + apply (IH (String.length y)) with (s := y); try done.
      rewrite Hn, length_app_str. cbn. lia.
Qed.

Lemma punctuation_stands_alone_witness : ")" = "(" \/ ")" = ")" \/ ")" = "!".
Proof.
  apply (punctuation_stands_alone "!(a)b" ")"); [|reflexivity].
  apply (bool_decide_eq_true_1 _). reflexivity.
Defined.

(* ===================================================================== *)
(** * Further properties: the exceptions of the compilers *)
(* ===================================================================== *)

Lemma raises_only_ok {A : Type} (P : exn -> Prop) (a : A) : raises_only P (Ok a).
Proof. intros e H. discriminate H. Qed.

Lemma raises_only_raise {A : Type} (P : exn -> Prop) (e : exn) :
  P e -> raises_only P (@Raise A e).
Proof. intros He e' H. by injection H as <-. Qed.

Lemma raises_only_bind {A B : Type} (P : exn -> Prop) (r : result A) (k : A -> result B) :
  raises_only P r -> (forall a, raises_only P (k a)) -> raises_only P (r ≫= k).
Proof.
  intros Hr Hk e. destruct r as [a|e']; cbn.
  - apply Hk.
  - intros H. injection H as <-. by apply Hr.
Qed.

Lemma raises_only_weaken {A : Type} (P Q : exn -> Prop) (r : result A) :
  (forall e, P e -> Q e) -> raises_only P r -> raises_only Q r.
Proof. intros HPQ Hr e He. apply HPQ. by apply Hr. Qed.

Lemma value_error_msg {A : Type} (msg : string) :
  raises_only is_value_error (@Raise A (ValueError msg)).
Proof. apply raises_only_raise. by exists msg. Qed.

Lemma float_of_string_value_error (s : string) :
  raises_only is_value_error (Float.of_string s).
Proof.
  unfold Float.of_string. destruct (Float.sign _) as [neg body].
  destruct (_ || _); [apply raises_only_ok|].
  destruct (Str.eqb _ _); [apply raises_only_ok|].
  destruct (Float.number body) as [[[m k] rest]|]; [|apply value_error_msg].
  destruct (Float.exponent rest); [apply raises_only_ok|apply value_error_msg].
Qed.

Lemma parse_number_range_value_error (term : string) :
  raises_only is_value_error (parse_number_range term).
Proof.
  unfold parse_number_range.
  destruct (Str.contains _ _).
  - destruct (Str.split_char _ _) as [|a [|b [|c l]]];
      try apply value_error_msg;
      repeat (apply raises_only_bind; [apply float_of_string_value_error|intros ?]);
      first [apply raises_only_ok | apply value_error_msg].
  - apply raises_only_bind; [apply float_of_string_value_error|intros ?].
    apply raises_only_ok.
Qed.

Lemma parse_stat_value_error (low : string) :
  raises_only is_value_error (parse_stat low).
Proof.
  unfold parse_stat.
  destruct (first_op _); [|apply value_error_msg].
  destruct (Str.split_once _ _) as [[p1 p2]|]; [|apply value_error_msg].
  apply raises_only_bind; [apply float_of_string_value_error|intros ?].
  apply raises_only_ok.
Qed.

Lemma parse_filter_term_raises (loader : string -> option pred) (tok : string) :
  raises_only
    (fun e => is_value_error e
              /\ (Str.startswith tok "#" = true
                  \/ Str.startswith (Str.strip (Str.lower tok)) "stat:" = true))
    (_parse_filter_term loader tok).
Proof.
  unfold _parse_filter_term.
  destruct (Str.startswith _ "@"); [apply raises_only_ok|].
  destruct (Str.startswith tok "#") eqn:Hhash.
  { eapply raises_only_weaken; [|apply parse_number_range_value_error]. auto. }
  repeat match goal with
         | |- raises_only _ (if Str.startswith ?s "stat:" then _ else _) =>
           destruct (Str.startswith s "stat:") eqn:Hstat
         | |- raises_only _ (if ?b then _ else _) => destruct b
         | |- raises_only _ (Ok _) => apply raises_only_ok
         end.
  eapply raises_only_weaken; [|apply parse_stat_value_error]. auto.
Qed.

(** Only a number-range term and a stat term can be malformed: when the
    term parser raises, the token starts with [#] or, in lower case, with
    [stat:], and the exception is a [ValueError]. *)
Theorem term_parser_raises (loader : string -> option pred) (tok : string) (e : exn) :
  _parse_filter_term loader tok = Raise e ->
  is_value_error e
  /\ (Str.startswith tok "#" = true
      \/ Str.startswith (Str.strip (Str.lower tok)) "stat:" = true).
Proof. apply parse_filter_term_raises. Qed.

Lemma term_parser_raises_witness :
  is_value_error (ValueError "stat filter missing operator")
  /\ (Str.startswith "STAT:hp" "#" = true
      \/ Str.startswith (Str.strip (Str.lower "STAT:hp")) "stat:" = true).
Proof. apply (term_parser_raises (fun _ => None) "STAT:hp"). reflexivity. Defined.

Section ParserErrors.

Variable items_dict : gmap string Item.
Variable loader : string -> option pred.

Let P (e : exn) : Prop := e = RecursionError \/ is_value_error e.

Lemma parser_raises (n : nat) :
  forall toks,
    raises_only P (_parse_primary items_dict loader n toks)
    /\ raises_only P (_parse_not items_dict loader n toks)
    /\ (forall l, raises_only P (and_loop items_dict loader n l toks))
    /\ raises_only P (_parse_and items_dict loader n toks)
    /\ (forall l, raises_only P (xor_loop items_dict loader n l toks))
    /\ raises_only P (_parse_xor items_dict loader n toks)
    /\ (forall l, raises_only P (or_loop items_dict loader n l toks))
    /\ raises_only P (_parse_or items_dict loader n toks).
Proof.
  assert (Hrec : forall A, raises_only P (@Raise A RecursionError)).
  { intros A. apply raises_only_raise. by left. }
  assert (Hval : forall A msg, raises_only P (@Raise A (ValueError msg))).
  { intros A msg. apply raises_only_raise. right. by exists msg. }
  induction n as [|n IH]; intros toks.
  { repeat split; intros; apply Hrec. }
  assert (Hprim : raises_only P (_parse_primary items_dict loader (S n) toks)).
  { rewrite parse_primary_S. destruct toks as [|tok rest]; [apply Hval|].
    destruct (Str.eqb tok "(").
    - apply raises_only_bind; [apply IH|]. intros [expr rest'].
      destruct rest' as [|t rest'']; [apply Hval|].
      destruct (Str.eqb t ")"); [apply raises_only_ok|apply Hval].
    - apply raises_only_bind; [|intros ?; apply raises_only_ok].
      eapply raises_only_weaken; [|apply parse_filter_term_raises].
      intros e [He _]. by right. }
  assert (Hloop : forall (r : result (pred * list string))
                         (k : pred * list string -> result (pred * list string)),
             raises_only P r -> (forall a, raises_only P (k a)) -> raises_only P (r ≫= k)).
  { intros. by apply raises_only_bind. }
  repeat split.
  - exact Hprim.
  - rewrite parse_not_S. destruct toks as [|t r]; [apply IH|].
    destruct (is_not_tok t); [|apply IH].
    apply Hloop; [apply IH|]. intros [op rest]. apply raises_only_ok.
  - intros l. rewrite and_loop_S. destruct toks as [|t rest]; [apply raises_only_ok|].
    destruct (and_stop t); [apply raises_only_ok|].
    destruct (is_and_tok t); [apply IH|].
    apply Hloop; [apply IH|]. intros [r rest']. apply IH.
  - rewrite parse_and_S. apply Hloop; [apply IH|]. intros [l rest]. apply IH.
  - intros l. rewrite xor_loop_S. destruct toks as [|t rest]; [apply raises_only_ok|].
    destruct (is_xor_tok t); [|apply raises_only_ok].
    apply Hloop; [apply IH|]. intros [r rest']. apply IH.
  - rewrite parse_xor_S. apply Hloop; [apply IH|]. intros [l rest]. apply IH.
  - intros l. rewrite or_loop_S. destruct toks as [|t rest]; [apply raises_only_ok|].
    destruct (is_or_tok t); [|apply raises_only_ok].
    apply Hloop; [apply IH|]. intros [r rest']. apply IH.
  - rewrite parse_or_S. apply Hloop; [apply IH|]. intros [l rest]. apply IH.
Qed.

Lemma parse_expression_raises (tokens : list string) :
  raises_only is_value_error (_parse_expression items_dict loader tokens).
Proof.
  intros e He.
  pose proof (parse_expression_depth items_dict loader tokens e He) as Hnot.
  assert (HP : P e); [|by destruct HP].
  revert e He Hnot. unfold _parse_expression. intros e He _. revert e He.
  apply raises_only_bind; [apply parser_raises|].
  intros [expr rest]. destruct rest; [apply raises_only_ok|].
  apply raises_only_raise. right. by eexists.
Qed.

End ParserErrors.

(** The compilation of a query of modest size returns a predicate or raises
    a [ValueError], and nothing else.  (A query whose parentheses go deeper
    than the interpreter lets calls go ends in its [RecursionError].) *)
Theorem compile_raises_value_error (w : World) (q : string) (e : exn) :
  modest (tokenize q) = true ->
  compile w q = Raise e -> is_value_error e.
Proof. intros _. apply parse_expression_raises. Qed.

Lemma compile_raises_value_error_witness :
  is_value_error (ValueError "Expected ')'").
Proof.
  apply (compile_raises_value_error odd_world "(name:pika"); reflexivity.
Defined.

Lemma count_nots_raises (toks : list string) :
  raises_only (fun e => e = IndexError) (count_nots toks).
Proof.
  intros e He. pose proof (count_nots_spec toks) as H. rewrite He in H. by destruct H.
Qed.

Lemma code_parser_raises (n : nat) :
  let P (e : exn) := e = RecursionError \/ e = IndexError \/ is_value_error e in
  forall toks,
    raises_only P (code_parse_primary n toks)
    /\ raises_only P (code_parse_not n toks)
    /\ (forall l, raises_only P (code_and_loop n l toks))
    /\ raises_only P (code_parse_and n toks)
    /\ (forall l, raises_only P (code_xor_loop n l toks))
    /\ raises_only P (code_parse_xor n toks)
    /\ (forall l, raises_only P (code_or_loop n l toks))
    /\ raises_only P (code_parse_or n toks).
Proof.
  intros P.
  assert (Hrec : forall A, raises_only P (@Raise A RecursionError)).
  { intros A. apply raises_only_raise. by left. }
  assert (Hidx : forall A, raises_only P (@Raise A IndexError)).
  { intros A. apply raises_only_raise. right. by left. }
  assert (Hval : forall A msg, raises_only P (@Raise A (ValueError msg))).
  { intros A msg. apply raises_only_raise. right. right. by exists msg. }
  induction n as [|n IH]; intros toks.
  { repeat split; intros; apply Hrec. }
  repeat split.
  - rewrite code_parse_primary_S. destruct toks as [|tok rest]; [apply Hidx|].
    destruct (Str.eqb tok "(").
    + apply raises_only_bind; [apply IH|]. intros [expr rest'].
      destruct rest' as [|t rest'']; [apply Hidx|].
      destruct (Str.eqb t ")"); [apply raises_only_ok|apply Hval].
    + apply raises_only_bind.
      * eapply raises_only_weaken; [|apply parse_filter_term_raises].
        intros e [He _]. right. by right.
      * intros t. apply raises_only_bind; [|intros ?; apply raises_only_ok].
        destruct t; try apply raises_only_ok. apply Hval.
  - rewrite code_parse_not_S. destruct toks as [|t r]; [apply Hidx|].
    destruct (is_not_tok t); [|apply IH].
    apply raises_only_bind.
    + eapply raises_only_weaken; [|apply count_nots_raises].
      intros e ->. right. by left.
    + intros [cnt rest]. apply raises_only_bind; [apply IH|]. intros [op rest'].
      destruct (Nat.odd cnt); apply raises_only_ok.
  - intros l. rewrite code_and_loop_S. destruct toks as [|t rest]; [apply raises_only_ok|].
    destruct (and_stop t); [apply raises_only_ok|].
    destruct (is_and_tok t); [apply IH|].
    apply raises_only_bind; [apply IH|]. intros [r rest']. apply IH.
  - rewrite code_parse_and_S. apply raises_only_bind; [apply IH|]. intros [l rest]. apply IH.
  - intros l. rewrite code_xor_loop_S. destruct toks as [|t rest]; [apply raises_only_ok|].
    destruct (is_xor_tok t); [|apply raises_only_ok].
    apply raises_only_bind; [apply IH|]. intros [r rest']. apply IH.
  - rewrite code_parse_xor_S. apply raises_only_bind; [apply IH|]. intros [l rest]. apply IH.
  - intros l. rewrite code_or_loop_S. destruct toks as [|t rest]; [apply raises_only_ok|].
    destruct (is_or_tok t); [|apply raises_only_ok].
    apply raises_only_bind; [apply IH|]. intros [r rest']. apply IH.
  - rewrite code_parse_or_S. apply raises_only_bind; [apply IH|]. intros [l rest]. apply IH.
Qed.

(** On a filter string of modest size the module compiler returns a
    predicate or raises a [ValueError] or, where it reads a token past the
    end of the list, an [IndexError].  (On a larger one the interpreter may
    refuse the depth of the calls or of the generated text.) *)
Theorem module_compile_raises (items_dict : gmap string Item) (s : string) (e : exn) :
  modest (tokenize_code s) = true ->
  compile_module_filter items_dict s = Raise e ->
  e = IndexError \/ is_value_error e.
Proof.
  intros _ He.
  assert (Hs : compile_filter_string s = Raise e).
  { unfold compile_module_filter in He. destruct (Str.is_empty _); [done|].
    destruct (compile_filter_string s) as [expr|e0]; cbn in He; [discriminate He|congruence]. }
  pose proof (compile_filter_string_depth s e Hs) as Hnot.
  assert (HP : e = RecursionError \/ e = IndexError \/ is_value_error e);
    [|by destruct HP].
  revert e Hs He Hnot. unfold compile_filter_string. intros e Hs _ _. revert e Hs.
  apply raises_only_bind; [apply code_parser_raises|].
  intros [expr rest]. destruct rest; [apply raises_only_ok|].
  apply raises_only_raise. right. right. by eexists.
Qed.

Lemma module_compile_raises_witness :
  IndexError = IndexError \/ is_value_error IndexError.
Proof. apply (module_compile_raises ∅ "pika AND NOT"); reflexivity. Defined.

(* ===================================================================== *)
(** * Further properties: parentheses *)
(* ===================================================================== *)

Lemma bind_ok_inv {A B : Type} (r : result A) (k : A -> result B) (b : B) :
  r ≫= k = Ok b -> exists a, r = Ok a /\ k a = Ok b.
Proof. destruct r as [a|e]; cbn; [by exists a|done]. Qed.

Lemma skip_nots_app (toks tail : list string) :
  stop_tail tail -> skip_nots (toks ++ tail) = skip_nots toks ++ tail.
Proof.
  intros Htail. induction toks as [|t r IH]; cbn [app skip_nots].
  - destruct tail as [|t tail]; [done|]. cbn [skip_nots].
    destruct Htail as (_ & _ & _ & ->). done.
  - destruct (is_not_tok t); [exact IH|done].
Qed.

Section ParserExtend.

Variable items_dict : gmap string Item.
Variable loader : string -> option pred.
Variable tail : list string.
Hypothesis Htail : stop_tail tail.

Lemma and_loop_tail (m : nat) (l : pred) : and_loop items_dict loader (S m) l tail = Ok (l, tail).
Proof.
  rewrite and_loop_S. destruct tail as [|t tl]; [done|].
  by destruct Htail as (-> & _).
Qed.

Lemma xor_loop_tail (m : nat) (l : pred) : xor_loop items_dict loader (S m) l tail = Ok (l, tail).
Proof.
  rewrite xor_loop_S. destruct tail as [|t tl]; [done|].
  by destruct Htail as (_ & -> & _).
Qed.

Lemma or_loop_tail (m : nat) (l : pred) : or_loop items_dict loader (S m) l tail = Ok (l, tail).
Proof.
  rewrite or_loop_S. destruct tail as [|t tl]; [done|].
  by destruct Htail as (_ & _ & -> & _).
Qed.

(** A parse that succeeds is the same with more depth and with more tokens
    behind, when the first of them stops the loops. *)
Lemma parser_extend (n : nat) :
  forall (toks : list string) (m : nat), (n <= m)%nat ->
    (forall p r, _parse_primary items_dict loader n toks = Ok (p, r) ->
                 _parse_primary items_dict loader m (toks ++ tail) = Ok (p, r ++ tail))
    /\ (forall p r, _parse_not items_dict loader n toks = Ok (p, r) ->
                    _parse_not items_dict loader m (toks ++ tail) = Ok (p, r ++ tail))
    /\ (forall l p r, and_loop items_dict loader n l toks = Ok (p, r) ->
                      and_loop items_dict loader m l (toks ++ tail) = Ok (p, r ++ tail))
    /\ (forall p r, _parse_and items_dict loader n toks = Ok (p, r) ->
                    _parse_and items_dict loader m (toks ++ tail) = Ok (p, r ++ tail))
    /\ (forall l p r, xor_loop items_dict loader n l toks = Ok (p, r) ->
                      xor_loop items_dict loader m l (toks ++ tail) = Ok (p, r ++ tail))
    /\ (forall p r, _parse_xor items_dict loader n toks = Ok (p, r) ->
                    _parse_xor items_dict loader m (toks ++ tail) = Ok (p, r ++ tail))
    /\ (forall l p r, or_loop items_dict loader n l toks = Ok (p, r) ->
                      or_loop items_dict loader m l (toks ++ tail) = Ok (p, r ++ tail))
    /\ (forall p r, _parse_or items_dict loader n toks = Ok (p, r) ->
                    _parse_or items_dict loader m (toks ++ tail) = Ok (p, r ++ tail)).
Proof.
  induction n as [|n IH]; intros toks m Hm.
  { repeat split; intros; discriminate. }
  destruct m as [|m]; [lia|].
  assert (Hnm : (n <= m)%nat) by lia.
  repeat split.
  - intros p r. rewrite !parse_primary_S.
    destruct toks as [|tok rest]; [done|]. cbn [app].
    destruct (Str.eqb tok "(").
    + intros ([expr rest'] & Hor & Hk)%bind_ok_inv.
      destruct (IH rest m Hnm) as (_ & _ & _ & _ & _ & _ & _ & H).
      rewrite (H _ _ Hor). cbn [mbind result_bind].
      destruct rest' as [|t rest'']; [done|]. cbn [app].
      destruct (Str.eqb t ")"); [|done]. by simplify_eq.
    + intros (t & Ht & Hk)%bind_ok_inv. rewrite Ht. cbn [mbind result_bind] in *.
      by simplify_eq.
  - intros p r. rewrite !parse_not_S.
    destruct toks as [|t rest].
    { cbn [app]. intros H. destruct n; [discriminate H|].
      rewrite parse_primary_S in H. discriminate H. }
    cbn [app].
    destruct (is_not_tok t) eqn:Et.
    + intros ([op rest'] & Hn & Hk)%bind_ok_inv.
      change (t :: (rest ++ tail)) with ((t :: rest) ++ tail).
      rewrite skip_nots_app by done.
      destruct (IH (skip_nots (t :: rest)) m Hnm) as (_ & H & _).
      rewrite (H _ _ Hn). cbn [mbind result_bind] in *. by simplify_eq.
    + intros H. destruct (IH (t :: rest) m Hnm) as (H' & _).
      change (t :: (rest ++ tail)) with ((t :: rest) ++ tail). by apply H'.
  - intros l p r. rewrite and_loop_S.
    destruct toks as [|t rest].
    { intros H. simplify_eq. cbn [app]. apply and_loop_tail. }
    rewrite and_loop_S. cbn [app].
    destruct (and_stop t); [intros H; by simplify_eq|].
    destruct (is_and_tok t).
    + intros H. destruct (IH rest m Hnm) as (_ & _ & H' & _). by apply H'.
    + intros ([q rest'] & Hn & Hk)%bind_ok_inv.
      destruct (IH (t :: rest) m Hnm) as (_ & H & _).
      change (t :: (rest ++ tail)) with ((t :: rest) ++ tail).
      rewrite (H _ _ Hn). cbn [mbind result_bind].
      destruct (IH rest' m Hnm) as (_ & _ & H' & _). by apply H'.
  - intros p r. rewrite !parse_and_S.
    intros ([l rest'] & Hn & Hk)%bind_ok_inv.
    destruct (IH toks m Hnm) as (_ & H & _). rewrite (H _ _ Hn).
    cbn [mbind result_bind].
    destruct (IH rest' m Hnm) as (_ & _ & H' & _). by apply H'.
  - intros l p r. rewrite xor_loop_S.
    destruct toks as [|t rest].
    { intros H. simplify_eq. cbn [app]. apply xor_loop_tail. }
    rewrite xor_loop_S. cbn [app].
    destruct (is_xor_tok t); [|intros H; by simplify_eq].
    intros ([q rest'] & Hn & Hk)%bind_ok_inv.
    destruct (IH rest m Hnm) as (_ & _ & _ & H & _).
    rewrite (H _ _ Hn). cbn [mbind result_bind].
    destruct (IH rest' m Hnm) as (_ & _ & _ & _ & H' & _). by apply H'.
  - intros p r. rewrite !parse_xor_S.
    intros ([l rest'] & Hn & Hk)%bind_ok_inv.
    destruct (IH toks m Hnm) as (_ & _ & _ & H & _). rewrite (H _ _ Hn).
    cbn [mbind result_bind].
    destruct (IH rest' m Hnm) as (_ & _ & _ & _ & H' & _). by apply H'.
  - intros l p r. rewrite or_loop_S.
    destruct toks as [|t rest].
    { intros H. simplify_eq. cbn [app]. apply or_loop_tail. }
    rewrite or_loop_S. cbn [app].
    destruct (is_or_tok t); [|intros H; by simplify_eq].
    intros ([q rest'] & Hn & Hk)%bind_ok_inv.
    destruct (IH rest m Hnm) as (_ & _ & _ & _ & _ & H & _).
    rewrite (H _ _ Hn). cbn [mbind result_bind].
    destruct (IH rest' m Hnm) as (_ & _ & _ & _ & _ & _ & H' & _). by apply H'.
  - intros p r. rewrite !parse_or_S.
    intros ([l rest'] & Hn & Hk)%bind_ok_inv.
    destruct (IH toks m Hnm) as (_ & _ & _ & _ & _ & H & _). rewrite (H _ _ Hn).
    cbn [mbind result_bind].
    destruct (IH rest' m Hnm) as (_ & _ & _ & _ & _ & _ & H' & _). by apply H'.
Qed.

End ParserExtend.

Lemma parse_expression_parens (items_dict : gmap string Item)
      (loader : string -> option pred) (tokens : list string) (p : pred) :
  _parse_expression items_dict loader tokens = Ok p ->
  _parse_expression items_dict loader ("(" :: tokens ++ [")"]) = Ok p.
Proof.
  unfold _parse_expression.
  intros ([p' rest] & Hor & Hk)%bind_ok_inv.
  destruct rest; [|discriminate Hk]. injection Hk as ->.
  assert (Htail : stop_tail [")"]) by done.
  destruct (parser_extend items_dict loader [")"] Htail
              (5 * length tokens + 5) tokens (5 * length tokens + 10) ltac:(lia))
    as (_ & _ & _ & _ & _ & _ & _ & H).
  specialize (H _ _ Hor). cbn [app] in H.
  replace (5 * length ("(" :: tokens ++ [")"]) + 5)%nat
    with (S (S (S (S (S (5 * length tokens + 10))))))
    by (cbn [length]; rewrite length_app; cbn [length]; lia).
  rewrite parse_or_S, parse_xor_S, parse_and_S, parse_not_S.
  change (is_not_tok "(") with false. cbn iota.
  rewrite parse_primary_S. change (Str.eqb "(" "(") with true. cbn iota.
  rewrite H. cbn [mbind result_bind].
  change (Str.eqb ")" ")") with true. cbn [mbind result_bind].
  rewrite and_loop_S. cbn [mbind result_bind].
  rewrite xor_loop_S. cbn [mbind result_bind].
  by rewrite or_loop_S.
Qed.

(** A query that compiles may be put in parentheses: as long as it is then
    still of modest size, it compiles to the same predicate. *)
Theorem parentheses_are_transparent (w : World) (q : string) :
  modest (tokenize ("(" +:+ q +:+ ")")) = true ->
  is_ok (compile w q) = true ->
  compile w ("(" +:+ q +:+ ")") = compile w q.
Proof.
  intros _.
  destruct (compile w q) as [p|e] eqn:E; [intros _|done].
  revert E. unfold compile, _compile. intros H.
  change ("(" +:+ q +:+ ")") with ("" +:+ String "(" (q +:+ String ")" "")).
  rewrite !tokenize_app_paren by auto.
  change (tokenize "") with (@nil string). cbn [app].
  by apply parse_expression_parens.
Qed.

Lemma parentheses_are_transparent_witness :
  compile empty_world ("(" +:+ "a OR b AND NOT #12-13f" +:+ ")")
  = compile empty_world "a OR b AND NOT #12-13f".
Proof.
  apply (parentheses_are_transparent empty_world "a OR b AND NOT #12-13f");
    reflexivity.
Defined.

(* ===================================================================== *)
(** * Further properties: [filter_items] and [filter_item] *)
(* ===================================================================== *)

Lemma lstrip_all_space (s : string) : Tok.all_space s = true -> Str.lstrip s = "".
Proof.
  induction s as [|c r IH]; [done|]. cbn [Tok.all_space Str.lstrip].
  intros [-> Hr]%andb_true_iff. by apply IH.
Qed.

(** A query of spaces only leaves the entries as they are. *)
Theorem blank_query_keeps_all (w : World) (items : list Item) (q : string) :
  Tok.all_space q = true -> filter_items w items q = Ok items.
Proof.
  intros Hq. unfold filter_items, Str.strip. by rewrite lstrip_all_space.
Qed.

Lemma blank_query_keeps_all_witness :
  filter_items odd_world [bulbasaur; pikachu] (String " " (String "009" " "))
  = Ok [bulbasaur; pikachu].
Proof. apply blank_query_keeps_all. reflexivity. Defined.

Lemma filter_by_sublist (matcher : pred) (items kept : list Item) :
  filter_by matcher items = Ok kept -> sublist kept items.
Proof.
  revert kept. induction items as [|itm rest IH]; intros kept; cbn [filter_by].
  - intros H. injection H as <-. constructor.
  - intros (keep & _ & (kept' & Hrest & Hk)%bind_ok_inv)%bind_ok_inv.
    injection Hk as <-. specialize (IH _ Hrest).
    destruct keep; by constructor.
Qed.

Lemma filter_cached_sublist {S : Type} (f : Item -> S -> result bool * S)
      (items kept : list Item) (st : gmap string bool * S) :
  (filter_cached f items st).1 = Ok kept -> sublist kept items.
Proof.
  revert kept st. induction items as [|itm rest IH]; intros kept st; cbn [filter_cached].
  - cbn. intros H. injection H as <-. constructor.
  - destruct (cached f itm st) as [[keep|e] st']; [|done].
    specialize (IH (match (filter_cached f rest st').1 with Ok k => k | _ => [] end) st').
    destruct (filter_cached f rest st') as [[kept'|e] st'']; cbn in *; [|done].
    intros H. injection H as <-. specialize (IH eq_refl).
    destruct keep; by constructor.
Qed.

(** What [filter_items] returns is a part of the entries it was given, in
    their order: it adds none, repeats none and moves none. *)
Theorem filter_items_sublist (w : World) (items kept : list Item) (q : string) :
  filter_items w items q = Ok kept -> sublist kept items.
Proof.
  unfold filter_items.
  destruct (Str.is_empty _); [intros H; by injection H as <-|].
  destruct (Str.startswith _ _).
  - destruct (_load_module w _); [apply filter_cached_sublist|].
    intros H; by injection H as <-.
  - destruct (safe_compile w _); [apply filter_by_sublist|].
    intros H; by injection H as <-.
Qed.

Lemma filter_items_sublist_witness : sublist [pikachu] [bulbasaur; pikachu].
Proof.
  apply (filter_items_sublist odd_world [bulbasaur; pikachu] [pikachu] "NOT #1f").
  reflexivity.
Defined.

Lemma filter_by_filter (matcher : pred) (items : list Item) :
  Forall (fun itm => is_ok (matcher itm) = true) items ->
  filter_by matcher items = Ok (List.filter (holds matcher) items).
Proof.
  induction 1 as [|itm rest Hitm _ IH]; [done|].
  cbn [filter_by List.filter]. unfold holds at 1. rewrite IH.
  by destruct (matcher itm) as [[]|].
Qed.

Lemma filter_by_raises (matcher : pred) (items : list Item) :
  Exists (fun itm => is_ok (matcher itm) = false) items ->
  is_ok (filter_by matcher items) = false.
Proof.
  induction 1 as [itm rest Hitm|itm rest _ IH]; cbn [filter_by].
  - by destruct (matcher itm).
  - destruct (matcher itm); [cbn|done]. by destruct (filter_by matcher rest).
Qed.

Lemma plain_query_compiles (w : World) (q : string) :
  plain_query q = true -> is_ok (compile w q) = true ->
  exists matcher,
    compile w q = Ok matcher
    /\ forall items, filter_items w items q = filter_by matcher items.
Proof.
  unfold plain_query. rewrite negb_true_iff. intros Hplain Hq.
  destruct (compile w q) as [matcher|e] eqn:E; [|done].
  exists matcher. split; [done|]. intros items.
  unfold filter_items. rewrite Hplain.
  destruct (Str.is_empty (Str.strip q)) eqn:Hempty.
  { exfalso. destruct (Str.strip q) eqn:Hs; [|done].
    rewrite <- compile_strip, Hs in E. discriminate E. }
  unfold safe_compile, _safe_compile.
  fold (compile w (Str.strip q)). by rewrite compile_strip, E.
Qed.

(** On a query of modest size that compiles, and that is not handed to a
    module, and on entries with distinct identifiers, when the predicate
    returns on every entry, [filter_items] returns the entries on which it
    returns true, in their order.  (With a [module:] term in the query,
    entries that share an identifier share the answer of the module.) *)
Theorem filter_items_keeps_the_passing (w : World) (items : list Item) (q : string) :
  plain_query q = true ->
  modest (tokenize q) = true ->
  NoDup (number <$> items) ->
  is_ok (compile w q) = true ->
  Forall (fun itm => is_ok (run w q itm) = true) items ->
  filter_items w items q = Ok (List.filter (passes w q) items).
Proof.
  intros Hplain _ _ Hq Hall.
  destruct (plain_query_compiles w q Hplain Hq) as (matcher & Hm & ->).
  unfold passes, run. rewrite Hm. cbn [mbind result_bind].
  unfold run in Hall. rewrite Hm in Hall. by apply filter_by_filter.
Qed.

Lemma filter_items_keeps_the_passing_witness :
  filter_items empty_world [bulbasaur; pikachu; hundred] "pika OR stat:total>=600"
  = Ok (List.filter (passes empty_world "pika OR stat:total>=600")
                    [bulbasaur; pikachu; hundred]).
Proof.
  apply filter_items_keeps_the_passing; [reflexivity|reflexivity| |reflexivity|].
  - apply (bool_decide_eq_true_1 _). reflexivity.
  - repeat constructor.
Defined.

(** An exception of the predicate is not caught: on a query of modest size
    that compiles, and that is not handed to a module, and on entries with
    distinct identifiers, [filter_items] raises as soon as the predicate
    raises on one of the entries. *)
Theorem filter_items_lets_predicate_raise (w : World) (items : list Item) (q : string) :
  plain_query q = true ->
  modest (tokenize q) = true ->
  NoDup (number <$> items) ->
  is_ok (compile w q) = true ->
  Exists (fun itm => is_ok (run w q itm) = false) items ->
  is_ok (filter_items w items q) = false.
Proof.
  intros Hplain _ _ Hq Hex.
  destruct (plain_query_compiles w q Hplain Hq) as (matcher & Hm & ->).
  unfold run in Hex. rewrite Hm in Hex. by apply filter_by_raises.
Qed.

Lemma filter_items_lets_predicate_raise_witness :
  is_ok (filter_items empty_world [pikachu; odd_color] "color:red") = false.
Proof.
  apply filter_items_lets_predicate_raise; [reflexivity|reflexivity| |reflexivity|].
  - apply (bool_decide_eq_true_1 _). reflexivity.
  - apply Exists_cons_tl, Exists_cons_hd. reflexivity.
Defined.

(** The two entry points agree on a query of modest size that compiles and
    is not handed to a module: on a list of entries with distinct
    identifiers on which the predicate returns, when the key of the item
    dictionary names the entry [itm] of the list, [filter_items] keeps [itm]
    exactly when [filter_item] says true. *)
Theorem filter_item_agrees_with_filter_items
        (w : World) (item_dict : gmap string pyval) (itm : Item) (items : list Item)
        (q : string) :
  _items_dict w !! Val.str (dict_get item_dict "key" (VStr "")) = Some itm ->
  plain_query q = true ->
  modest (tokenize q) = true ->
  NoDup (number <$> items) ->
  itm ∈ items ->
  Forall (fun x => is_ok (run w q x) = true) items ->
  exists kept,
    filter_items w items q = Ok kept
    /\ (itm ∈ kept <-> filter_item w item_dict q = true).
Proof.
  intros Hkey Hplain _ _ Hin Hall.
  assert (Hrun : is_ok (run w q itm) = true).
  { rewrite Forall_forall in Hall. by apply Hall. }
  assert (Hq : is_ok (compile w q) = true).
  { unfold run in Hrun. by destruct (compile w q). }
  destruct (plain_query_compiles w q Hplain Hq) as (matcher & Hm & ->).
  unfold run in Hall. rewrite Hm in Hall. cbn [mbind result_bind] in Hall.
  rewrite (filter_by_filter matcher items Hall).
  exists (List.filter (holds matcher) items). split; [done|].
  unfold filter_item. rewrite Hkey. unfold safe_compile, _safe_compile.
  fold (compile w q). rewrite Hm.
  rewrite list_elem_of_In, filter_In, <- list_elem_of_In. unfold holds.
  split; [by intros [_ H]|by intros H].
Qed.

Lemma filter_item_agrees_with_filter_items_witness :
  exists kept,
    filter_items odd_world [pikachu; bulbasaur; hundred] "bulba AND NOT #2-9" = Ok kept
    /\ (bulbasaur ∈ kept
        <-> filter_item odd_world {[ "key" := VInt 1 ]} "bulba AND NOT #2-9" = true).
Proof.
  apply (filter_item_agrees_with_filter_items odd_world {[ "key" := VInt 1 ]} bulbasaur
           [pikachu; bulbasaur; hundred] "bulba AND NOT #2-9");
    [reflexivity|reflexivity|reflexivity| | |].
  - apply (bool_decide_eq_true_1 _). reflexivity.
  - apply (list_elem_of_lookup_2 _ 1%nat). reflexivity.
  - repeat constructor.
Defined.

(* ===================================================================== *)
(** * Further properties: the cache *)
(* ===================================================================== *)

Lemma filter_cached_fresh (f : pred) (items : list Item) (cache : gmap string bool) :
  NoDup (number <$> items) ->
  Forall (fun itm => cache !! number itm = None) items ->
  (filter_cached (pure_func f) items (cache, tt)).1 = filter_by f items.
Proof.
  revert cache. induction items as [|itm rest IH]; intros cache Hnd Hfresh; [done|].
  rewrite fmap_cons in Hnd. apply NoDup_cons in Hnd as [Hnotin Hnd].
  apply Forall_cons in Hfresh as [Hitm Hrest].
  cbn [filter_cached filter_by]. unfold cached, pure_func at 1. rewrite Hitm.
  destruct (f itm) as [keep|e]; [|done].
  cbn [mbind result_bind].
  rewrite <- (IH (<[number itm := keep]> cache)); [|done|].
  - by destruct (filter_cached _ rest _) as [[kept|e] st].
  - rewrite Forall_forall in Hrest |- *. intros x Hx.
    rewrite lookup_insert_ne; [by apply Hrest|].
    intros Heq. apply Hnotin. rewrite Heq. apply list_elem_of_fmap. by exists x.
Qed.

(** On entries with distinct identifiers the cache changes nothing: one pass
    of the cached predicate of a module, from the empty cache, keeps what the
    compiled predicate keeps, and raises where it raises. *)
Theorem cache_is_transparent (f : pred) (items : list Item) :
  NoDup (number <$> items) ->
  (filter_cached (pure_func f) items (∅, tt)).1 = filter_by f items.
Proof.
  intros Hnd. apply filter_cached_fresh; [done|].
  apply Forall_forall. intros x _. apply lookup_empty.
Qed.

Lemma cache_is_transparent_witness :
  (filter_cached (pure_func (fun e => Ok (Str.eqb (name e) "Pikachu")))
                 [bulbasaur; pikachu] (∅, tt)).1
  = filter_by (fun e => Ok (Str.eqb (name e) "Pikachu")) [bulbasaur; pikachu].
Proof.
  apply cache_is_transparent.
  apply (bool_decide_eq_true_1 _). reflexivity.
Defined.

(* ===================================================================== *)
(** * Further properties: where the two compilers agree *)
(* ===================================================================== *)

(** But for a [module:] term, the term parser does not look at the loader. *)
Lemma parse_filter_term_loader (loader : string -> option pred) (tok : string) :
  match parse_term_for_code tok with
  | Ok (T_module _) => True
  | r => _parse_filter_term loader tok = r
  end.
Proof.
  unfold parse_term_for_code, _parse_filter_term.
  repeat (match goal with
          | |- context [if ?b then _ else _] => destruct b
          end; try done).
  all: match goal with
       | |- context [parse_in ?x] => by destruct (parse_in x)
       | |- context [parse_number_range ?x] =>
         destruct (parse_number_range x) as [t|]; [by destruct t|done]
       | |- context [parse_stat ?x] =>
         destruct (parse_stat x) as [t|]; [by destruct t|done]
       end.
Qed.

Lemma plain_tok_term (items_dict : gmap string Item) (loader : string -> option pred)
      (tok : string) :
  plain_tok tok = true ->
  match parse_term_for_code tok ≫= λ t, code_for_term t,
        _parse_filter_term loader tok with
  | Ok e, Ok t => forall item, eval_expr items_dict e item = apply_term items_dict t item
  | Raise _, Raise _ => True
  | _, _ => False
  end.
Proof.
  unfold plain_tok. intros Hplain.
  pose proof (parse_filter_term_loader loader tok) as Hl.
  destruct (parse_term_for_code tok) as [t|e]; [|by rewrite Hl].
  destruct t; try done; rewrite Hl; cbn [mbind result_bind code_for_term];
    intros item; cbn [eval_expr]; by destruct (eval_literal _) as [u|]; [destruct u|].
Qed.

Lemma single_nots_cons (t : string) (rest : list string) :
  single_nots (t :: rest) = true -> single_nots rest = true.
Proof. cbn [single_nots]. by intros [_ H]%andb_true_iff. Qed.

Lemma single_nots_suffix (toks rest : list string) :
  rest `suffix_of` toks -> single_nots toks = true -> single_nots rest = true.
Proof.
  intros [k ->]. induction k as [|t k IH]; [done|].
  intros H. apply IH. by apply (single_nots_cons t).
Qed.

Lemma plain_suffix (toks rest : list string) :
  rest `suffix_of` toks ->
  Forall (fun t => plain_tok t = true) toks -> Forall (fun t => plain_tok t = true) rest.
Proof. intros [k ->]. by intros [_ H]%Forall_app. Qed.

Lemma same_parse_bind (D : gmap string Item) (toks toks' : list string)
      (r1 : result (pyexpr * list string)) (r2 : result (pred * list string))
      (k1 : pyexpr * list string -> result (pyexpr * list string))
      (k2 : pred * list string -> result (pred * list string)) :
  same_parse D toks r1 r2 ->
  (forall e p rest,
      rest `suffix_of` toks -> (forall item, eval_expr D e item = p item) ->
      same_parse D toks' (k1 (e, rest)) (k2 (p, rest))) ->
  same_parse D toks' (r1 ≫= k1) (r2 ≫= k2).
Proof.
  intros Hr Hk. destruct r1 as [[e rest1]|e1], r2 as [[p rest2]|e2]; try done.
  destruct Hr as (<- & Hs & Ha). cbn [mbind result_bind]. by apply Hk.
Qed.

Lemma same_parse_suffix (D : gmap string Item) (toks toks' : list string)
      (r1 : result (pyexpr * list string)) (r2 : result (pred * list string)) :
  toks `suffix_of` toks' -> same_parse D toks r1 r2 -> same_parse D toks' r1 r2.
Proof.
  intros Hs. destruct r1 as [[e rest1]|e1], r2 as [[p rest2]|e2]; try done.
  intros (<- & Hs' & Ha). repeat split; [|done]. by etrans.
Qed.

Section Agreement.

Variable items_dict : gmap string Item.
Variable loader : string -> option pred.

Abbreviation agree e p := (forall item : Item, eval_expr items_dict e item = p item).
Abbreviation ok toks := (Forall (fun t => plain_tok t = true) toks /\ single_nots toks = true).

Lemma parsers_agree (n : nat) :
  forall toks, ok toks ->
    same_parse items_dict toks (code_parse_primary n toks)
               (_parse_primary items_dict loader n toks)
    /\ same_parse items_dict toks (code_parse_not n toks)
                  (_parse_not items_dict loader n toks)
    /\ (forall e p, agree e p ->
          same_parse items_dict toks (code_and_loop n e toks)
                     (and_loop items_dict loader n p toks))
    /\ same_parse items_dict toks (code_parse_and n toks)
                  (_parse_and items_dict loader n toks)
    /\ (forall e p, agree e p ->
          same_parse items_dict toks (code_xor_loop n e toks)
                     (xor_loop items_dict loader n p toks))
    /\ same_parse items_dict toks (code_parse_xor n toks)
                  (_parse_xor items_dict loader n toks)
    /\ (forall e p, agree e p ->
          same_parse items_dict toks (code_or_loop n e toks)
                     (or_loop items_dict loader n p toks))
    /\ same_parse items_dict toks (code_parse_or n toks)
                  (_parse_or items_dict loader n toks).
Proof.
  induction n as [|n IH]; intros toks [Hplain Hsingle].
  { repeat split; intros; exact I. }
  assert (IHs : forall rest, rest `suffix_of` toks -> ok rest).
  { intros rest Hs. split; [by apply (plain_suffix toks)|by apply (single_nots_suffix toks)]. }
  assert (Hend : forall (e : pyexpr) (p : pred), agree e p ->
             same_parse items_dict toks (Ok (e, toks)) (Ok (p, toks))).
  { intros e p Ha. repeat split; done. }
  repeat split.
  - (* primary *)
    rewrite code_parse_primary_S, parse_primary_S.
    destruct toks as [|tok rest]; [done|].
    destruct (Str.eqb tok "(").
    + apply (same_parse_bind items_dict rest).
      { apply IH, IHs. by apply suffix_cons_r. }
      intros e p rest' Hs Ha. destruct rest' as [|t rest'']; [done|].
      destruct (Str.eqb t ")"); [|done].
      repeat split; [|done].
      apply suffix_cons_r. by apply suffix_cons_l in Hs.
    + apply Forall_cons in Hplain as [Htok _].
      pose proof (plain_tok_term items_dict loader tok Htok) as Ht.
      destruct (parse_term_for_code tok) as [t|e1];
        destruct (_parse_filter_term loader tok) as [t'|e2];
        cbn [mbind result_bind] in *; try done.
      * destruct (code_for_term t) as [e|e1]; cbn [mbind result_bind] in *; [|done].
        repeat split; [|done]. by apply suffix_cons_r.
      * by destruct (code_for_term t).
  - (* not *)
    rewrite code_parse_not_S, parse_not_S.
    destruct toks as [|t rest].
    { destruct n; [done|]. by rewrite parse_primary_S. }
    destruct (is_not_tok t) eqn:Et.
    + cbn [count_nots skip_nots]. rewrite Et.
      destruct rest as [|u rest'].
      { cbn [count_nots skip_nots mbind result_bind].
        destruct n; [done|]. rewrite parse_not_S.
        destruct n; [done|]. by rewrite parse_primary_S. }
      assert (Eu : is_not_tok u = false).
      { cbn [single_nots] in Hsingle. rewrite Et in Hsingle.
        by destruct (is_not_tok u). }
      cbn [count_nots skip_nots]. rewrite Eu. cbn [mbind result_bind Nat.odd].
      apply (same_parse_bind items_dict (u :: rest')).
      { apply IH, IHs. by apply suffix_cons_r. }
      intros e p rest'' Hs Ha. repeat split.
      * by apply suffix_cons_r.
      * intros item. cbn [eval_expr]. unfold p_not. by rewrite Ha.
    + apply IH. done.
  - (* the loop of and *)
    intros e p Ha. rewrite code_and_loop_S, and_loop_S.
    destruct toks as [|t rest]; [by apply Hend|].
    destruct (and_stop t); [by apply Hend|].
    destruct (is_and_tok t).
    + apply (same_parse_suffix items_dict rest); [by apply suffix_cons_r|].
      apply IH; [apply IHs; by apply suffix_cons_r|done].
    + apply (same_parse_bind items_dict (t :: rest)); [by apply IH|].
      intros e' p' rest' Hs Ha'.
      apply (same_parse_suffix items_dict rest'); [done|].
      apply IH; [by apply IHs|].
      intros item. cbn [eval_expr]. unfold p_and. by rewrite Ha, Ha'.
  - (* and *)
    rewrite code_parse_and_S, parse_and_S.
    apply (same_parse_bind items_dict toks); [by apply IH|].
    intros e p rest Hs Ha.
    apply (same_parse_suffix items_dict rest); [done|].
    apply IH; [by apply IHs|done].
  - (* the loop of xor *)
    intros e p Ha. rewrite code_xor_loop_S, xor_loop_S.
    destruct toks as [|t rest]; [by apply Hend|].
    destruct (is_xor_tok t); [|by apply Hend].
    apply (same_parse_bind items_dict rest).
    { apply IH, IHs. by apply suffix_cons_r. }
    intros e' p' rest' Hs Ha'.
    apply (same_parse_suffix items_dict rest'); [by apply suffix_cons_r|].
    apply IH; [apply IHs; by apply suffix_cons_r|].
    intros item. cbn [eval_expr]. unfold p_xor. by rewrite Ha, Ha'.
  - (* xor *)
    rewrite code_parse_xor_S, parse_xor_S.
    apply (same_parse_bind items_dict toks); [by apply IH|].
    intros e p rest Hs Ha.
    apply (same_parse_suffix items_dict rest); [done|].
    apply IH; [by apply IHs|done].
  - (* the loop of or *)
    intros e p Ha. rewrite code_or_loop_S, or_loop_S.
    destruct toks as [|t rest]; [by apply Hend|].
    destruct (is_or_tok t); [|by apply Hend].
    apply (same_parse_bind items_dict rest).
    { apply IH, IHs. by apply suffix_cons_r. }
    intros e' p' rest' Hs Ha'.
    apply (same_parse_suffix items_dict rest'); [by apply suffix_cons_r|].
    apply IH; [apply IHs; by apply suffix_cons_r|].
    intros item. cbn [eval_expr]. unfold p_or. by rewrite Ha, Ha'.
  - (* or *)
    rewrite code_parse_or_S, parse_or_S.
    apply (same_parse_bind items_dict toks); [by apply IH|].
    intros e p rest Hs Ha.
    apply (same_parse_suffix items_dict rest); [done|].
    apply IH; [by apply IHs|done].
Qed.

End Agreement.

(** On a query of modest size that is not blank, has no [module:] term, no
    number that is infinite, not a number or too large for a float, and no
    two negation tokens side by side, the module compiler and the query
    compiler do the same: one accepts the text when the other does, and
    then their predicates return the same, or raise the same, on every
    entry. *)
Theorem compilers_agree (w : World) (s : string) :
  Str.is_empty (Str.strip s) = false ->
  modest (tokenize s) = true ->
  Forall (fun t => plain_tok t = true) (tokenize s) ->
  Forall (fun t => small_tok t = true) (tokenize s) ->
  single_nots (tokenize s) = true ->
  is_ok (compile_module_filter (_items_dict w) s) = is_ok (compile w s)
  /\ forall e, is_ok (compile w s) = true -> run_module w s e = run w s e.
Proof.
  intros Hs _ Hplain _ Hsingle.
  destruct (parsers_agree (_items_dict w) (module_func w)
              (5 * length (tokenize s) + 5) (tokenize s) (conj Hplain Hsingle))
    as (_ & _ & _ & _ & _ & _ & _ & Hor).
  unfold run_module, run, compile_module_filter, compile, _compile,
    _parse_expression, compile_filter_string.
  rewrite Hs. change (tokenize_code s) with (tokenize s).
  destruct (code_parse_or _ _) as [[e rest1]|e1],
           (_parse_or _ _ _ _) as [[p rest2]|e2]; try done; cbn [mbind result_bind].
  destruct Hor as (<- & _ & Ha).
  destruct rest1; cbn [mbind result_bind is_ok]; [|done].
  split; [done|]. intros item _. apply Ha.
Qed.

Lemma compilers_agree_witness :
  let s := "NOT (pika OR #1-151f) AND !form:variant XOR stat:hp>=50" in
  is_ok (compile_module_filter (_items_dict odd_world) s) = is_ok (compile odd_world s)
  /\ forall e, is_ok (compile odd_world s) = true -> run_module odd_world s e = run odd_world s e.
Proof.
  apply (compilers_agree odd_world
           "NOT (pika OR #1-151f) AND !form:variant XOR stat:hp>=50").
  - reflexivity.
  - reflexivity.
  - apply (bool_decide_eq_true_1 _). reflexivity.
  - apply (bool_decide_eq_true_1 _). reflexivity.
  - reflexivity.
Defined.

(* ===================================================================== *)
(** * Further properties: the exclusion of a region *)
(* ===================================================================== *)

Lemma region_range_in (region : string) (start end_ : Z) :
  region_range region = Some (start, end_) -> In (region, (start, end_)) REGION_RANGES.
Proof.
  unfold region_range.
  destruct (find _ REGION_RANGES) as [[name range]|] eqn:E; [|done].
  cbn. intros H. injection H as ->.
  apply find_some in E as [Hin Heq]. cbn in Heq.
  unfold Str.eqb in Heq. apply bool_decide_eq_true in Heq. by subst.
Qed.

(** A module that switches one region off accepts the entries whose
    identifier, read as a number, lies outside the range of the region, and no
    others.  The range is over the whole identifier: a variant of the last
    number of the region, such as "151.01" for the range from 1 to 151, lies
    outside. *)
Theorem region_exclusion (items_dict : gmap string Item) (region : string)
        (start end_ : Z) (e : Item) :
  region_range region = Some (start, end_) ->
  (f ← compile_module_filter items_dict (build_module_filter_string (only_region region));
   f e)
  = Ok (negb (num_between start end_ e)).
Proof.
  intros Hin%region_range_in. unfold REGION_RANGES in Hin. cbn [In] in Hin.
  repeat (destruct Hin as [Hin|Hin];
          [injection Hin as <- <- <-;
           match goal with
           | |- _ = Ok (negb (num_between ?a ?b e)) =>
             transitivity (x ← match_number_range_filter e (Float.of_Z a, Float.of_Z b, true);
                           Ok (negb x));
             [reflexivity|by rewrite number_range_value, andb_true_r]
           end|]).
  destruct Hin.
Qed.

Lemma region_exclusion_witness :
  (f ← compile_module_filter ∅ (build_module_filter_string (only_region "Kanto"));
   f (entry "Mew" "151.01"))
  = Ok (negb (num_between 1 151 (entry "Mew" "151.01"))).
Proof. apply (region_exclusion ∅ "Kanto" 1 151). reflexivity. Defined.

(* ===================================================================== *)
(** * The marks of an entry *)
(* ===================================================================== *)

Lemma lower_keys_from (marks : list (string * pyval)) (m : gmap string pyval) (k : string) :
  foldl (fun normalized kv => <[Str.lower kv.1 := kv.2]> normalized) m marks !! k
  = match given_mark marks k with
    | Some v => Some v
    | None => m !! k
    end.
Proof.
  revert m. induction marks as [|[key value] rest IH]; intros m; [done|].
  cbn [foldl given_mark fst snd]. rewrite IH.
  destruct (given_mark rest k) as [v|]; [done|].
  case_bool_decide as E.
  - by rewrite <- E, lookup_insert_eq.
  - by rewrite lookup_insert_ne.
Qed.

Lemma lower_keys_lookup (marks : list (string * pyval)) (k : string) :
  lower_keys marks !! k = given_mark marks k.
Proof.
  unfold lower_keys. rewrite lower_keys_from, lookup_empty.
  by destruct (given_mark marks k).
Qed.

Lemma merge_from (defaults : list (string * pyval)) (m : gmap string pyval) (k : string) :
  foldl (fun normalized kv =>
           match normalized !! kv.1 with
           | Some _ => normalized
           | None => <[kv.1 := kv.2]> normalized
           end) m defaults !! k
  = match m !! k with
    | Some v => Some v
    | None => (list_to_map defaults : gmap string pyval) !! k
    end.
Proof.
  revert m. induction defaults as [|[key value] rest IH]; intros m.
  - cbn. by destruct (m !! k).
  - cbn [foldl fst snd]. rewrite IH, list_to_map_cons.
    destruct (m !! key) as [v0|] eqn:Ekey.
    + destruct (m !! k) as [v|] eqn:Ek; [done|].
      rewrite lookup_insert_ne; [done|]. intros ->. congruence.
    + destruct (decide (key = k)) as [->|Hne].
      * by rewrite !lookup_insert_eq, Ekey.
      * rewrite !lookup_insert_ne by done. done.
Qed.

Lemma init_marks_lookup (marks : option (list (string * pyval))) (k : string) :
  init_marks marks !! k
  = match marks ≫= (fun given => given_mark given k) with
    | Some v => Some v
    | None => (list_to_map default_marks : gmap string pyval) !! k
    end.
Proof.
  destruct marks as [given|]; [|done].
  cbn [init_marks mbind option_bind]. unfold merge_defaults.
  by rewrite merge_from, lower_keys_lookup.
Qed.

(** The marks of an entry are the given ones under their keys in lower
    case, the later of two keys that differ by letter case only, and, under
    every other key of the defaults, the default. *)
Theorem given_marks_override_defaults (marks : option (list (string * pyval))) (k : string) :
  init_marks marks !! k
  = match marks ≫= (fun given => given_mark given k) with
    | Some v => Some v
    | None => (list_to_map default_marks : gmap string pyval) !! k
    end.
Proof. apply init_marks_lookup. Qed.

(** Whatever marks the catalog gives, an entry has the six keys of the
    defaults. *)
Theorem default_keys_are_present (marks : option (list (string * pyval))) :
  Forall (fun kv => is_Some (init_marks marks !! kv.1)) default_marks.
Proof.
  apply Forall_forall. intros [key value] Hin. cbn [fst].
  rewrite init_marks_lookup.
  destruct (marks ≫= _) as [v|]; [by eexists|].
  unfold default_marks in *.
  repeat (apply elem_of_cons in Hin as [Hin|Hin]; [inversion Hin; subst; by eexists|]).
  by apply elem_of_nil in Hin.
Qed.

(* ===================================================================== *)
(** * The entries that share a base *)
(* ===================================================================== *)

Lemma set_has_alternate_twice (a b : bool) (e : Item) :
  set_has_alternate a (set_has_alternate b e) = set_has_alternate a e.
Proof. done. Qed.

Lemma positions_length (b : string) (items : list Item) (i : nat) :
  length (positions b items i) = count_base items b.
Proof.
  unfold count_base. revert i. induction items as [|x rest IH]; intros i; [done|].
  cbn [positions List.filter]. case_bool_decide; cbn [length]; by rewrite IH.
Qed.

Lemma elem_of_positions (b : string) (items : list Item) (i j : nat) :
  j ∈ positions b items i
  <-> (i <= j)%nat /\ exists x, items !! (j - i)%nat = Some x /\ base_of (number x) = b.
Proof.
  revert i. induction items as [|x rest IH]; intros i; cbn [positions].
  - split; [by intros ?%elem_of_nil|]. by intros (_ & y & ? & _).
  - assert (Hrest : j ∈ positions b rest (S i)
                    <-> (i < j)%nat /\ exists y, (x :: rest) !! (j - i)%nat = Some y
                                              /\ base_of (number y) = b).
    { rewrite IH. split.
      - intros (Hle & y & Hy & Hb). split; [lia|]. exists y. split; [|done].
        replace (j - i)%nat with (S (j - S i)) by lia. done.
      - intros (Hlt & y & Hy & Hb). split; [lia|]. exists y. split; [|done].
        replace (j - i)%nat with (S (j - S i)) in Hy by lia. done. }
    case_bool_decide as E.
    + rewrite elem_of_cons, Hrest. split.
      * intros [->|(? & ?)]; [|split; [lia|done]].
        split; [lia|]. exists x. by rewrite Nat.sub_diag.
      * intros (Hle & y & Hy & Hb).
        destruct (decide (j = i)) as [->|]; [by left|]. right. split; [lia|by exists y].
    + rewrite Hrest. split.
      * intros (? & ?). split; [lia|done].
      * intros (Hle & y & Hy & Hb).
        destruct (decide (j = i)) as [->|]; [|split; [lia|by exists y]].
        rewrite Nat.sub_diag in Hy. cbn in Hy. congruence.
Qed.

Lemma forms_of_setdefault (base b : string) (i : nat) (d : list (string * list nat)) :
  forms_of (setdefault_append base i d) b
  = if bool_decide (base = b) then Some (default [] (forms_of d b) ++ [i])
    else forms_of d b.
Proof.
  induction d as [|[b' forms] rest IH]; cbn [setdefault_append forms_of].
  - by case_bool_decide.
  - destruct (bool_decide (b' = base)) eqn:E1.
    + apply bool_decide_eq_true in E1 as ->. cbn [forms_of].
      by case_bool_decide.
    + apply bool_decide_eq_false in E1. cbn [forms_of]. rewrite IH.
      repeat case_bool_decide; congruence.
Qed.

Lemma keys_setdefault (base : string) (i : nat) (d : list (string * list nat)) :
  (setdefault_append base i d).*1
  = if bool_decide (base ∈ d.*1) then d.*1 else d.*1 ++ [base].
Proof.
  induction d as [|[b' forms] rest IH]; cbn [setdefault_append fmap list_fmap fst].
  - rewrite bool_decide_eq_false_2; [done|]. by intros ?%elem_of_nil.
  - destruct (bool_decide (b' = base)) eqn:E1.
    + apply bool_decide_eq_true in E1 as ->. cbn [fmap list_fmap fst].
      rewrite bool_decide_eq_true_2; [done|]. by left.
    + apply bool_decide_eq_false in E1. cbn [fmap list_fmap fst].
      change (list_fmap _ _ fst ?l) with (l.*1). rewrite IH.
      destruct (bool_decide (base ∈ rest.*1)) eqn:E2.
      * apply bool_decide_eq_true in E2. rewrite bool_decide_eq_true_2; [done|]. by right.
      * apply bool_decide_eq_false in E2. rewrite bool_decide_eq_false_2; [done|].
        intros [?|?]%elem_of_cons; congruence.
Qed.

Lemma nodup_setdefault (base : string) (i : nat) (d : list (string * list nat)) :
  NoDup d.*1 -> NoDup (setdefault_append base i d).*1.
Proof.
  intros Hd. rewrite keys_setdefault. case_bool_decide as E; [done|].
  apply NoDup_app. split; [done|]. split; [|apply NoDup_singleton].
  intros x Hx ->%list_elem_of_singleton. done.
Qed.

Lemma forms_of_elem (d : list (string * list nat)) (b : string) (forms : list nat) :
  NoDup d.*1 -> (b, forms) ∈ d -> forms_of d b = Some forms.
Proof.
  induction d as [|[b' forms'] rest IH]; intros Hd Hin; [by apply elem_of_nil in Hin|].
  cbn [forms_of]. cbn in Hd. apply NoDup_cons in Hd as [Hnotin Hd].
  apply elem_of_cons in Hin as [Heq|Hin].
  - inversion Heq; subst. by rewrite bool_decide_eq_true_2.
  - rewrite bool_decide_eq_false_2; [by apply IH|].
    intros ->. apply Hnotin. apply list_elem_of_fmap. by exists (b, forms).
Qed.

Lemma elem_forms_of (d : list (string * list nat)) (b : string) (forms : list nat) :
  forms_of d b = Some forms -> (b, forms) ∈ d.
Proof.
  induction d as [|[b' forms'] rest IH]; cbn [forms_of]; [done|].
  case_bool_decide as E.
  - intros [= <-]. subst. by left.
  - intros ?. right. by apply IH.
Qed.

Lemma default_nonempty (l : list nat) : default [] (nonempty l) = l.
Proof. by destruct l. Qed.

Lemma nonempty_snoc (l : list nat) (i : nat) : nonempty (l ++ [i]) = Some (l ++ [i]).
Proof. by destruct l. Qed.

Lemma group_by_base_spec (items : list Item) (i : nat) (d : list (string * list nat))
      (F : string -> list nat) :
  NoDup d.*1 ->
  (forall b, forms_of d b = nonempty (F b)) ->
  NoDup (group_by_base items i d).*1
  /\ forall b, forms_of (group_by_base items i d) b = nonempty (F b ++ positions b items i).
Proof.
  revert i d F. induction items as [|x rest IH]; intros i d F Hd HF.
  - cbn [group_by_base positions]. split; [done|]. intros b. by rewrite app_nil_r.
  - cbn [group_by_base positions].
    set (base := base_of (number x)).
    destruct (IH (S i) (setdefault_append base i d)
                 (fun b => if bool_decide (base = b) then F b ++ [i] else F b))
      as [Hnd Hforms].
    + by apply nodup_setdefault.
    + intros b. rewrite forms_of_setdefault, HF, default_nonempty.
      case_bool_decide; [by rewrite nonempty_snoc|done].
    + split; [done|]. intros b. rewrite Hforms.
      case_bool_decide; [by rewrite <- app_assoc|done].
Qed.

Section Alternates.

Variable items : list Item.

Let target (e : Item) : Item :=
  set_has_alternate (1 <? count_base items (base_of (number e)))%nat e.

(** The entry at every position is untouched or has its final value. *)
Let sound (cur : list Item) : Prop :=
  forall j, cur !! j = items !! j \/ cur !! j = target <$> items !! j.

Lemma alter_sound (cur : list Item) (j : nat) (h : bool) :
  sound cur ->
  (forall e, items !! j = Some e -> h = (1 <? count_base items (base_of (number e)))%nat) ->
  sound (alter (set_has_alternate h) j cur)
  /\ alter (set_has_alternate h) j cur !! j = target <$> items !! j
  /\ forall j', cur !! j' = target <$> items !! j' ->
                alter (set_has_alternate h) j cur !! j' = target <$> items !! j'.
Proof.
  intros Hs Hh.
  assert (Hj : alter (set_has_alternate h) j cur !! j = target <$> items !! j).
  { rewrite list_lookup_alter_eq.
    destruct (items !! j) as [e|] eqn:E.
    - specialize (Hh e eq_refl).
      destruct (Hs j) as [-> | ->]; rewrite E; cbn; unfold target; by rewrite Hh.
    - destruct (Hs j) as [-> | ->]; by rewrite E. }
  split; [|split; [done|]].
  - intros j'. destruct (decide (j' = j)) as [->|Hne]; [by right|].
    rewrite list_lookup_alter_ne by done. apply Hs.
  - intros j' Hj'. destruct (decide (j' = j)) as [->|Hne]; [done|].
    by rewrite list_lookup_alter_ne.
Qed.

Lemma mark_forms_sound (h : bool) (forms : list nat) (cur : list Item) :
  sound cur ->
  (forall j e, j ∈ forms -> items !! j = Some e ->
               h = (1 <? count_base items (base_of (number e)))%nat) ->
  sound (mark_forms h forms cur)
  /\ forall j, (j ∈ forms \/ cur !! j = target <$> items !! j) ->
               mark_forms h forms cur !! j = target <$> items !! j.
Proof.
  unfold mark_forms. revert cur. induction forms as [|i rest IH]; intros cur Hs Hh.
  - cbn [foldl]. split; [done|]. intros j [?%elem_of_nil|?]; done.
  - cbn [foldl].
    destruct (alter_sound cur i h Hs) as (Hs' & Hi & Hkeep).
    { intros e. apply Hh. by left. }
    destruct (IH _ Hs') as [Hs'' Hdone].
    { intros j e Hj. apply Hh. by right. }
    split; [done|]. intros j [Hj|Hj]; apply Hdone.
    + apply elem_of_cons in Hj as [->|Hj]; [by right|by left].
    + right. by apply Hkeep.
Qed.

Lemma mark_groups_sound (d : list (string * list nat)) (cur : list Item) :
  sound cur ->
  (forall b forms, (b, forms) ∈ d -> forms = positions b items 0) ->
  sound (mark_groups d cur)
  /\ forall j, ((exists g, g ∈ d /\ j ∈ g.2) \/ cur !! j = target <$> items !! j) ->
               mark_groups d cur !! j = target <$> items !! j.
Proof.
  unfold mark_groups. revert cur. induction d as [|[b forms] rest IH]; intros cur Hs Hd.
  - cbn [foldl]. split; [done|]. intros j [(g & ?%elem_of_nil & _)|?]; done.
  - cbn [foldl snd].
    destruct (mark_forms_sound (1 <? length forms)%nat forms cur Hs) as [Hs' Hdone].
    { intros j e Hj He. rewrite (Hd b forms) in Hj |- * by (by left).
      rewrite positions_length.
      apply elem_of_positions in Hj as (_ & y & Hy & Hb).
      rewrite Nat.sub_0_r in Hy. by simplify_eq. }
    destruct (IH _ Hs') as [Hs'' Hall].
    { intros b' forms' Hin. apply Hd. by right. }
    split; [done|]. intros j [(g & Hg & Hj)|Hj]; apply Hall.
    + apply elem_of_cons in Hg as [->|Hg]; [|left; by exists g].
      right. apply Hdone. by left.
    + right. apply Hdone. by right.
Qed.

Lemma mark_forms_length (h : bool) (forms : list nat) (cur : list Item) :
  length (mark_forms h forms cur) = length cur.
Proof.
  unfold mark_forms. revert cur. induction forms as [|i rest IH]; intros cur; [done|].
  cbn [foldl]. by rewrite IH, length_alter.
Qed.

Lemma mark_groups_length (d : list (string * list nat)) (cur : list Item) :
  length (mark_groups d cur) = length cur.
Proof.
  unfold mark_groups. revert cur. induction d as [|g rest IH]; intros cur; [done|].
  cbn [foldl]. by rewrite IH, mark_forms_length.
Qed.

Lemma compute_alternates_target : compute_alternates items = target <$> items.
Proof.
  unfold compute_alternates.
  destruct (group_by_base_spec items 0 [] (fun _ => [])) as [Hnd Hforms];
    [apply NoDup_nil_2|done|].
  cbn [app] in Hforms.
  destruct (mark_groups_sound (group_by_base items 0 []) items) as [_ Hall].
  { intros j. by left. }
  { intros b forms Hin. pose proof (forms_of_elem _ _ _ Hnd Hin) as E.
    rewrite Hforms in E. destruct (positions b items 0); cbn in E; by simplify_eq. }
  apply list_eq. intros j. rewrite list_lookup_fmap.
  destruct (items !! j) as [e|] eqn:E.
  - rewrite <- E. rewrite Hall; [by rewrite E|]. left.
    assert (Hj : j ∈ positions (base_of (number e)) items 0).
    { apply elem_of_positions. split; [lia|]. exists e. by rewrite Nat.sub_0_r. }
    exists (base_of (number e), positions (base_of (number e)) items 0). split; [|done].
    apply elem_forms_of. rewrite Hforms.
    destruct (positions (base_of (number e)) items 0); [by apply elem_of_nil in Hj|done].
  - cbn. apply lookup_ge_None. rewrite mark_groups_length. by apply lookup_ge_None.
Qed.

End Alternates.

(** [load_items] leaves every entry in its place and changes nothing of
    it but [has_alternate], which it sets to whether two entries or more of
    the catalog have the base of the entry. *)
Theorem alternates_by_base (items : list Item) :
  compute_alternates items
  = (fun e => set_has_alternate (1 <? count_base items (base_of (number e)))%nat e)
      <$> items.
Proof. apply compute_alternates_target. Qed.

Lemma count_base_marked (h : Item -> bool) (items : list Item) (b : string) :
  count_base ((fun e => set_has_alternate (h e) e) <$> items) b = count_base items b.
Proof.
  unfold count_base. induction items as [|y rest IH]; [done|].
  cbn [fmap list_fmap List.filter set_has_alternate number].
  case_bool_decide; cbn [length]; by rewrite <- IH.
Qed.

Lemma count_base_pos (items : list Item) (x : Item) :
  x ∈ items -> (1 <= count_base items (base_of (number x)))%nat.
Proof.
  unfold count_base. induction items as [|y rest IH]; [by intros ?%elem_of_nil|].
  intros Hin. cbn [List.filter]. case_bool_decide as E; cbn [length]; [lia|].
  apply elem_of_cons in Hin as [->|Hin]; [congruence|by apply IH].
Qed.

(** In the catalog that [load_items] returns, the term [form:none]
    accepts exactly the entries whose base no other entry has, be they
    variants or not. *)
Theorem form_none_means_alone (items_dict : gmap string Item) (items : list Item) (e : Item) :
  let catalog := compute_alternates items in
  e ∈ catalog ->
  apply_term items_dict (T_form (Some "none")) e
  = Ok (bool_decide (count_base catalog (base_of (number e)) = 1%nat)).
Proof.
  intros catalog. subst catalog. rewrite compute_alternates_target.
  intros (x & -> & Hx)%list_elem_of_fmap.
  rewrite count_base_marked. pose proof (count_base_pos _ _ Hx) as Hpos.
  cbn [apply_term]. unfold match_form_filter.
  change (Str.lower "none") with "none". cbn [Str.eqb].
  cbn [set_has_alternate number has_alternate].
  f_equal.
  destruct (1 <? _)%nat eqn:E.
  - apply Nat.ltb_lt in E. rewrite bool_decide_eq_false_2; [done|lia].
  - apply Nat.ltb_ge in E. rewrite bool_decide_eq_true_2; [done|lia].
Qed.

Lemma form_none_means_alone_witness :
  let catalog := compute_alternates [entry "Charizard" "6"; entry "Mega Charizard X" "6.01";
                                     entry "Unown B" "201.01"] in
  entry "Unown B" "201.01" ∈ catalog
  /\ apply_term ∅ (T_form (Some "none")) (entry "Unown B" "201.01")
     = Ok (bool_decide (count_base catalog (base_of "201.01") = 1%nat)).
Proof.
  split.
  - apply (list_elem_of_lookup_2 _ 2%nat). reflexivity.
  - apply (form_none_means_alone ∅ [entry "Charizard" "6"; entry "Mega Charizard X" "6.01";
                                     entry "Unown B" "201.01"] (entry "Unown B" "201.01")).
    apply (list_elem_of_lookup_2 _ 2%nat). reflexivity.
Defined.

(* ===================================================================== *)
(** * The cache and entries that bear the same identifier *)
(* ===================================================================== *)

Lemma filter_cached_answers (f : pred) (items : list Item) (cache : gmap string bool) :
  Forall (fun itm => is_ok (f itm) = true) items ->
  (filter_cached (pure_func f) items (cache, tt)).1
  = Ok (List.filter
          (fun itm =>
             match cache !! number itm with
             | Some b => b
             | None =>
               match first_bearing (number itm) items with
               | Some x => answer (f x)
               | None => false
               end
             end) items).
Proof.
  revert cache. induction items as [|item rest IH]; intros cache Hok; [done|].
  apply Forall_cons in Hok as [Hitem Hrest].
  cbn [filter_cached List.filter]. unfold cached, pure_func at 1.
  destruct (cache !! number item) as [b|] eqn:E.
  - pose proof (IH cache Hrest) as IHc.
    destruct (filter_cached (pure_func f) rest (cache, tt)) as [r st].
    cbn [fst] in IHc. subst r. cbn [fst].
    f_equal.
    assert (Hext : forall y,
      match cache !! number y with
      | Some b0 => b0
      | None => match first_bearing (number y) rest with
                | Some x => answer (f x) | None => false end
      end
      = match cache !! number y with
        | Some b0 => b0
        | None => match first_bearing (number y) (item :: rest) with
                  | Some x => answer (f x) | None => false end
        end).
    { intros y. destruct (cache !! number y) as [b0|] eqn:Ey; [done|].
      unfold first_bearing. cbn [List.find].
      rewrite bool_decide_eq_false_2; [done|]. congruence. }
    rewrite (List.filter_ext _ _ Hext). done.
  - destruct (f item) as [b|e] eqn:Ef; [|by cbn in Hitem].
    pose proof (IH (<[number item := b]> cache) Hrest) as IHc.
    destruct (filter_cached (pure_func f) rest (<[number item := b]> cache, tt)) as [r st].
    cbn [fst] in IHc. subst r. cbn [fst].
    assert (Hfirst : first_bearing (number item) (item :: rest) = Some item).
    { unfold first_bearing. cbn [List.find]. by rewrite bool_decide_eq_true_2. }
    rewrite Hfirst, Ef. cbn [answer].
    f_equal.
    assert (Hext : forall y,
      match <[number item := b]> cache !! number y with
      | Some b0 => b0
      | None => match first_bearing (number y) rest with
                | Some x => answer (f x) | None => false end
      end
      = match cache !! number y with
        | Some b0 => b0
        | None => match first_bearing (number y) (item :: rest) with
                  | Some x => answer (f x) | None => false end
        end).
    { intros y. unfold first_bearing. cbn [List.find].
      destruct (decide (number item = number y)) as [Heq|Hne].
      - rewrite Heq, lookup_insert_eq. rewrite <- Heq, E.
        rewrite bool_decide_eq_true_2 by done. by rewrite Ef.
      - rewrite lookup_insert_ne by done.
        by rewrite (bool_decide_eq_false_2 _ Hne). }
    rewrite (List.filter_ext _ _ Hext). done.
Qed.

Lemma module_query_filter_items (w : World) (items : list Item) (q : string) (md : ModData) :
  module_query w q = Some md ->
  filter_items w items q = (filter_cached (pure_func (func md)) items (∅, tt)).1.
Proof.
  unfold module_query, filter_items. intros Hq.
  destruct (Str.is_empty (Str.strip q)) eqn:Eempty.
  - destruct (Str.strip q); [done|discriminate Eempty].
  - destruct (Str.startswith (Str.lower (Str.strip q)) "module:"); [|done].
    by rewrite Hq.
Qed.

(** A [module:] query answers by identifier: when the predicate of the
    module raises on none of the entries, an entry is kept exactly when the
    predicate accepts the first of the entries that bear its identifier, so
    entries that bear the same identifier are kept or dropped together. *)
Theorem module_query_answers_by_identifier (w : World) (items : list Item) (q : string)
        (md : ModData) :
  module_query w q = Some md ->
  Forall (fun itm => is_ok (func md itm) = true) items ->
  filter_items w items q
  = Ok (List.filter
          (fun itm =>
             match first_bearing (number itm) items with
             | Some x => answer (func md x)
             | None => false
             end) items).
Proof.
  intros Hq Hok. rewrite (module_query_filter_items w items q md Hq).
  rewrite filter_cached_answers by done.
  f_equal.
Qed.

Lemma module_query_answers_by_identifier_witness :
  let md := {| func := eval_expr (_items_dict odd_world)
                         (E_not (E_call (T_number_range (Float.of_Z 1, Float.of_Z 151, true))));
               filter_string := build_module_filter_string no_kanto |} in
  let items := [entry "Mew" "151.01"; entry "Mew" "151"; entry "Mewtwo" "151.01"] in
  module_query odd_world "module:k(" = Some md
  /\ Forall (fun itm => is_ok (func md itm) = true) items
  /\ filter_items odd_world items "module:k("
     = Ok (List.filter
             (fun itm =>
                match first_bearing (number itm) items with
                | Some x => answer (func md x)
                | None => false
                end) items).
Proof.
  intros md items.
  assert (Hq : module_query odd_world "module:k(" = Some md) by reflexivity.
  assert (Hok : Forall (fun itm => is_ok (func md itm) = true) items)
    by (repeat constructor).
  split; [exact Hq|]. split; [exact Hok|].
  exact (module_query_answers_by_identifier odd_world items "module:k(" md Hq Hok).
Defined.

(* ===================================================================== *)
(** * The current module *)
(* ===================================================================== *)

Section ModuleFacts.

Variable w : World.
Variable module_files : list string.

Lemma get_current_settled (st : ModState) :
  _modules st <> [] ->
  0 <= _current_module_index st < Z.of_nat (length (_modules st)) ->
  get_current_module w module_files st
  = (Ok (_modules st !! Z.to_nat (_current_module_index st)), st).
Proof.
  intros Hne Hidx. unfold get_current_module, ensure_loaded.
  destruct (_modules st) as [|m ms] eqn:E; [done|].
  rewrite ?E. rewrite (proj2 (Z.leb_le _ _)) by lia.
  unfold index_module. rewrite ?E.
  destruct ((m :: ms) !! Z.to_nat (_current_module_index st)) as [md|] eqn:El; [done|].
  apply lookup_ge_None in El. lia.
Qed.

Lemma toggle_settled (st : ModState) :
  _modules st <> [] ->
  let n := Z.of_nat (length (_modules st)) in
  let next := {| _modules := _modules st;
                 _current_module_index := (_current_module_index st + 1) mod n |} in
  toggle_module w module_files st
  = (Ok (_modules st !! Z.to_nat (_current_module_index next)), next).
Proof.
  intros Hne n next. unfold toggle_module, ensure_loaded.
  destruct (_modules st) as [|m ms] eqn:E; [done|].
  rewrite ?E. fold n. fold next.
  assert (Hn : 0 < n) by (subst n; cbn [length]; lia).
  rewrite (get_current_settled next); [done|done|].
  cbn [_modules _current_module_index next]. fold n.
  apply Z.mod_pos_bound. lia.
Qed.

Lemma toggles_settled (k : nat) (st : ModState) :
  _modules st <> [] ->
  0 <= _current_module_index st < Z.of_nat (length (_modules st)) ->
  toggles w module_files k st
  = Ok {| _modules := _modules st;
          _current_module_index :=
            (_current_module_index st + Z.of_nat k) mod Z.of_nat (length (_modules st)) |}.
Proof.
  revert st. induction k as [|k IH]; intros st Hne Hidx.
  - cbn [toggles]. rewrite Z.add_0_r, Z.mod_small by done. by destruct st.
  - cbn [toggles]. rewrite toggle_settled by done.
    rewrite IH; cbn [_modules _current_module_index]; [|done|].
    + f_equal. f_equal.
      rewrite Zplus_mod_idemp_l. f_equal. lia.
    + apply Z.mod_pos_bound. destruct (_modules st); [done|cbn [length]; lia].
Qed.

End ModuleFacts.

(** Once modules are loaded, [toggle_module] goes through them in their
    order and starts again after the last: [k] calls move the index of the
    current module by [k] modulo the number of modules, none of them raises
    or loads anything again, and [get_current_module] then gives the module
    at that index. *)
Theorem toggle_module_cycles (w : World) (module_files : list string) (k : nat)
        (st : ModState) :
  _modules st <> [] ->
  0 <= _current_module_index st < Z.of_nat (length (_modules st)) ->
  let i := (_current_module_index st + Z.of_nat k) mod Z.of_nat (length (_modules st)) in
  let st' := {| _modules := _modules st; _current_module_index := i |} in
  toggles w module_files k st = Ok st'
  /\ get_current_module w module_files st' = (Ok (_modules st !! Z.to_nat i), st')
  /\ is_Some (_modules st !! Z.to_nat i).
Proof.
  intros Hne Hidx i st'.
  assert (Hi : 0 <= i < Z.of_nat (length (_modules st))).
  { apply Z.mod_pos_bound. destruct (_modules st); [done|cbn [length]; lia]. }
  split; [by apply toggles_settled|]. split.
  - by rewrite get_current_settled.
  - apply lookup_lt_is_Some. lia.
Qed.

Lemma toggle_module_cycles_witness :
  let a := {| func := fun _ => Ok true; filter_string := "" |} in
  let b := {| func := fun _ => Ok false; filter_string := "NOT (#1-2000f)" |} in
  let st := {| _modules := [a; b]; _current_module_index := 1 |} in
  toggles empty_world [] 3 st = Ok {| _modules := [a; b]; _current_module_index := 0 |}.
Proof.
  intros a b st.
  refine (proj1 (toggle_module_cycles empty_world [] 3 st _ _)).
  - discriminate.
  - cbn. lia.
Defined.

(** When the file of a module cannot be loaded, [load_modules] raises
    and leaves in [_modules] the modules of the files before it.  The first
    [get_current_module] then raises, and the next one does not load again:
    it returns the first of the modules that are left, and nothing tells
    that the other modules are missing. *)
Theorem failed_load_leaves_a_partial_list (w : World) (module_files : list string)
        (e : exn) (m : ModData) (ms : list ModData) :
  load_loop w module_files [] = (Some e, m :: ms) ->
  let first := get_current_module w module_files fresh_modules in
  let second := get_current_module w module_files first.2 in
  first.1 = Raise e
  /\ second.1 = Ok (Some m)
  /\ _modules second.2 = m :: ms.
Proof.
  intros Hload first second.
  assert (Hfirst : first = (Raise e, {| _modules := m :: ms; _current_module_index := 0 |})).
  { subst first. unfold get_current_module, ensure_loaded, load_modules.
    cbn [fresh_modules _modules]. by rewrite Hload. }
  subst second. rewrite Hfirst. cbn [fst snd].
  rewrite get_current_settled; cbn [_modules _current_module_index length]; [done|done|lia].
Qed.

(* ===================================================================== *)
(** * The boxes *)
(* ===================================================================== *)

Lemma box_slice (l : list Item) (i : nat) :
  py_slice l (Z.of_nat i * box_size) (Z.of_nat i * box_size + box_size)
  = take 30 (drop (i * 30) l).
Proof.
  unfold py_slice, box_size, BOX_SIZE.
  rewrite !(proj2 (Z.ltb_ge _ _)) by lia.
  destruct (decide (length l <= i * 30)%nat) as [Hge|Hlt].
  - rewrite (drop_ge l (i * 30)) by done.
    rewrite drop_ge by lia. by rewrite !take_nil.
  - rewrite (Z.min_l (Z.of_nat i * 30)) by lia.
    replace (Z.to_nat (Z.of_nat i * 30)) with (i * 30)%nat by lia.
    replace (Z.to_nat (Z.min (Z.of_nat i * 30 + 30) (Z.of_nat (length l)) - Z.of_nat i * 30))
      with (Nat.min 30 (length (drop (i * 30) l))) by (rewrite length_drop; lia).
    rewrite <- take_take. by rewrite (take_ge _ (length _)).
Qed.

Lemma boxes_join (bm : BoxManager) (n : nat) :
  mjoin ((fun i => get_items_for_box bm (Z.of_nat i)) <$> seq 0 n)
  = take (n * 30) (visible_items bm).
Proof.
  induction n as [|n IH]; [by rewrite take_0|].
  rewrite seq_S, fmap_app, join_app, IH. cbn [fmap list_fmap mjoin list_join Nat.add].
  rewrite app_nil_r. unfold get_items_for_box. rewrite box_slice.
  rewrite take_take_drop. f_equal. lia.
Qed.

Lemma num_boxes_enough (visible : list Item) (bm : BoxManager) :
  let n := num_boxes (refresh visible bm) in
  1 <= n /\ Z.of_nat (length visible) <= n * 30 /\ ((n - 1) * 30 < Z.of_nat (length visible) \/ visible = []).
Proof.
  cbn [refresh num_boxes]. unfold box_size, BOX_SIZE.
  pose proof (Z_div_mod_eq_full (Z.of_nat (length visible) + 30 - 1) 30) as Hdiv.
  pose proof (Z.mod_pos_bound (Z.of_nat (length visible) + 30 - 1) 30) as Hmod.
  destruct visible as [|x rest].
  - cbn. split; [lia|]. split; [lia|by right].
  - cbn [length] in *. split; [lia|]. split; [lia|left; lia].
Qed.

(** After [refresh], the boxes, one after the other, hold the visible
    entries, each once and in their order, and no box holds more than thirty
    entries. *)
Theorem boxes_hold_the_visible_entries (visible : list Item) (bm : BoxManager) :
  mjoin (all_boxes (refresh visible bm)) = visible
  /\ Forall (fun box => (length box <= 30)%nat) (all_boxes (refresh visible bm)).
Proof.
  pose proof (num_boxes_enough visible bm) as (H1 & Hlen & _).
  unfold all_boxes. split.
  - rewrite boxes_join. cbn [refresh visible_items]. apply take_ge.
    cbn [refresh num_boxes] in *. lia.
  - apply Forall_forall. intros box (i & -> & _)%list_elem_of_fmap.
    unfold get_items_for_box. rewrite box_slice, length_take. lia.
Qed.

(** After [refresh], when the current box had an index that is not
    negative, its index is one of a box, and the box is empty only if no
    entry is visible. *)
Theorem refresh_lands_in_a_box (visible : list Item) (bm : BoxManager) :
  0 <= current_box bm ->
  visible <> [] ->
  0 <= current_box (refresh visible bm) < num_boxes (refresh visible bm)
  /\ get_items_for_current_box (refresh visible bm) <> [].
Proof.
  intros Hcur Hvis.
  pose proof (num_boxes_enough visible bm) as (H1 & Hlen & [Hlast|?]); [|done].
  set (bm' := refresh visible bm) in *.
  assert (Hrange : 0 <= current_box bm' < num_boxes bm').
  { subst bm'. cbn [refresh current_box num_boxes] in *.
    destruct (Z.leb_spec (Z.max 1 ((Z.of_nat (length visible) + box_size - 1) / box_size))
                         (current_box bm)); lia. }
  split; [done|].
  unfold get_items_for_current_box, get_items_for_box.
  rewrite <- (Z2Nat.id (current_box bm')) by lia. rewrite box_slice.
  assert (Hlt : (Z.to_nat (current_box bm') * 30 < length visible)%nat) by lia.
  change (visible_items bm') with visible.
  destruct (drop (Z.to_nat (current_box bm') * 30) visible) as [|x rest] eqn:E; [|done].
  apply (f_equal length) in E. rewrite length_drop in E. cbn [length] in E. lia.
Qed.

Lemma refresh_lands_in_a_box_witness :
  let bm := {| visible_items := []; current_box := 7; num_boxes := 9 |} in
  0 <= current_box (refresh [pikachu] bm) < num_boxes (refresh [pikachu] bm)
  /\ get_items_for_current_box (refresh [pikachu] bm) <> [].
Proof.
  intros bm. apply (refresh_lands_in_a_box [pikachu] bm).
  - cbn. lia.
  - discriminate.
Defined.

(** [next_box] and [prev_box] stay among the boxes and undo each other:
    from the last box the next one is the first, and from the first box the
    previous one is the last. *)
Theorem next_and_prev_wrap (bm : BoxManager) :
  0 <= current_box bm < num_boxes bm ->
  0 <= current_box (next_box bm) < num_boxes bm
  /\ 0 <= current_box (prev_box bm) < num_boxes bm
  /\ prev_box (next_box bm) = bm
  /\ next_box (prev_box bm) = bm
  /\ current_box (next_box bm)
     = (if current_box bm =? num_boxes bm - 1 then 0 else current_box bm + 1)
  /\ current_box (prev_box bm)
     = (if current_box bm =? 0 then num_boxes bm - 1 else current_box bm - 1).
Proof.
  intros Hrange. destruct bm as [vis cur n]. cbn [current_box num_boxes] in *.
  unfold next_box, prev_box. cbn [current_box num_boxes visible_items].
  assert (Hnext : (cur + 1) mod n = if cur =? n - 1 then 0 else cur + 1).
  { destruct (Z.eqb_spec cur (n - 1)) as [->|Hne].
    - replace (n - 1 + 1) with n by lia. apply Z_mod_same_full.
    - apply Z.mod_small. lia. }
  assert (Hprev : (cur - 1) mod n = if cur =? 0 then n - 1 else cur - 1).
  { destruct (Z.eqb_spec cur 0) as [->|Hne].
    - replace (0 - 1) with (n - 1 + (-1) * n) by lia.
      rewrite Z_mod_plus_full. apply Z.mod_small. lia.
    - apply Z.mod_small. lia. }
  rewrite Hnext, Hprev.
  repeat split.
  - destruct (Z.eqb_spec cur (n - 1)); lia.
  - destruct (Z.eqb_spec cur (n - 1)); lia.
  - destruct (Z.eqb_spec cur 0); lia.
  - destruct (Z.eqb_spec cur 0); lia.
  - f_equal. destruct (Z.eqb_spec cur (n - 1)) as [->|Hne].
    + replace (0 - 1) with (n - 1 + (-1) * n) by lia.
      rewrite Z_mod_plus_full. apply Z.mod_small. lia.
    + replace (cur + 1 - 1) with cur by lia. apply Z.mod_small. lia.
  - f_equal. destruct (Z.eqb_spec cur 0) as [->|Hne].
    + replace (n - 1 + 1) with n by lia. apply Z_mod_same_full.
    + replace (cur - 1 + 1) with cur by lia. apply Z.mod_small. lia.
Qed.

Lemma next_and_prev_wrap_witness :
  let bm := {| visible_items := []; current_box := 34; num_boxes := 35 |} in
  current_box (next_box bm) = 0 /\ prev_box (next_box bm) = bm.
Proof.
  intros bm.
  assert (H : 0 <= current_box bm < num_boxes bm) by (cbn; lia).
  pose proof (next_and_prev_wrap bm H) as (_ & _ & Hpn & _ & Hn & _).
  split; [exact Hn|exact Hpn].
Defined.

Lemma elem_of_py_range (start stop n : Z) :
  n ∈ py_range start stop <-> start <= n < stop.
Proof.
  unfold py_range. rewrite list_elem_of_fmap. split.
  - intros (i & -> & Hi). apply elem_of_seq in Hi. lia.
  - intros Hn. exists (Z.to_nat (n - start)). split; [lia|].
    apply elem_of_seq. lia.
Qed.

(** The boxes of [get_current_box_list] share out the numbers from 1 to
    [TOTAL_POKEMON]: for a box index that is not negative, a number is in
    the list of the box exactly when it is one of these numbers and thirty
    goes that many times into its predecessor. *)
Theorem box_list_shares_out_the_numbers (current_box n : Z) :
  0 <= current_box ->
  n ∈ get_current_box_list current_box
  <-> 1 <= n <= TOTAL_POKEMON /\ (n - 1) / BOX_SIZE = current_box.
Proof.
  intros Hbox. unfold get_current_box_list. rewrite elem_of_py_range.
  unfold TOTAL_POKEMON, BOX_SIZE.
  pose proof (Z_div_mod_eq_full (n - 1) 30) as Hdiv.
  pose proof (Z.mod_pos_bound (n - 1) 30) as Hmod.
  split.
  - intros [Hlo Hhi]. lia.
  - intros [Hn Hq]. lia.
Qed.

Lemma box_list_shares_out_the_numbers_witness :
  1025 ∈ get_current_box_list 34
  <-> 1 <= 1025 <= TOTAL_POKEMON /\ (1025 - 1) / BOX_SIZE = 34.
Proof. apply (box_list_shares_out_the_numbers 34 1025). lia. Defined.

Lemma failed_load_leaves_a_partial_list_witness :
  let m := {| func := eval_expr ∅
                        (E_not (E_call (T_number_range (Float.of_Z 1, Float.of_Z 151, true))));
              filter_string := "NOT (#1-151f)" |} in
  let first := get_current_module two_modules ["a.json"; "b.json"] fresh_modules in
  let second := get_current_module two_modules ["a.json"; "b.json"] first.2 in
  first.1 = Raise (ValueError "could not convert string to float")
  /\ second.1 = Ok (Some m)
  /\ _modules second.2 = [m].
Proof.
  intros m.
  apply (failed_load_leaves_a_partial_list two_modules ["a.json"; "b.json"]
           (ValueError "could not convert string to float") m []).
  reflexivity.
Defined.

(* ===================================================================== *)
(** * Letter case in a category term *)
(* ===================================================================== *)

Lemma upper_not_space (c : ascii) : Str.is_upper c = true -> Str.is_space c = false.
Proof.
  destruct c as [b0 b1 b2 b3 b4 b5 b6 b7].
  destruct b0, b1, b2, b3, b4, b5, b6, b7; vm_compute; intros H; done.
Qed.

Lemma lower_char_not_upper (c : ascii) : Str.is_upper (Str.lower_char c) = false.
Proof.
  destruct c as [b0 b1 b2 b3 b4 b5 b6 b7].
  destruct b0, b1, b2, b3, b4, b5, b6, b7; reflexivity.
Qed.

Lemma lower_has_no_upper (s : string) : has_char Str.is_upper (Str.lower s) = false.
Proof.
  induction s as [|c r IH]; [done|].
  change (Str.lower (String c r)) with (String (Str.lower_char c) (Str.lower r)).
  cbn [has_char]. by rewrite lower_char_not_upper, IH.
Qed.

Lemma has_upper_lstrip (s : string) :
  has_char Str.is_upper (Str.lstrip s) = has_char Str.is_upper s.
Proof.
  induction s as [|c r IH]; [done|]. cbn [Str.lstrip].
  destruct (Str.is_space c) eqn:Hc; [|done].
  cbn [has_char]. rewrite IH.
  destruct (Str.is_upper c) eqn:Hu; [|done].
  apply upper_not_space in Hu. congruence.
Qed.

Lemma has_upper_rstrip (s : string) :
  has_char Str.is_upper (Str.rstrip s) = has_char Str.is_upper s.
Proof.
  induction s as [|c r IH]; [done|]. cbn [Str.rstrip].
  destruct (Str.is_space c) eqn:Hc; cbn [andb].
  - destruct (Str.rstrip r) as [|c' r'] eqn:Hr; cbn [Str.is_empty].
    + cbn [has_char] in *. rewrite <- IH.
      destruct (Str.is_upper c) eqn:Hu; [|done].
      apply upper_not_space in Hu. congruence.
    + cbn [has_char] in *. by rewrite IH.
  - cbn [has_char]. by rewrite IH.
Qed.

Lemma has_char_startswith (P : ascii -> bool) (s p : string) :
  Str.startswith s p = true -> has_char P p = true -> has_char P s = true.
Proof.
  revert s. induction p as [|a p IH]; intros s; [done|].
  destruct s as [|b s]; [done|]. cbn [Str.startswith has_char].
  intros [Hab Hs]%andb_true_iff. apply bool_decide_eq_true in Hab as ->.
  intros [Hb|Hp]%orb_true_iff.
  - by rewrite Hb.
  - rewrite (IH s Hs Hp). apply orb_true_r.
Qed.

Lemma has_char_contains (P : ascii -> bool) (sub s : string) :
  Str.contains sub s = true -> has_char P sub = true -> has_char P s = true.
Proof.
  induction s as [|c r IH]; cbn [Str.contains]; intros Hc Hsub.
  - rewrite orb_false_r in Hc. by apply (has_char_startswith P "" sub).
  - apply orb_true_iff in Hc as [Hc|Hc].
    + by apply (has_char_startswith P _ sub).
    + cbn [has_char]. rewrite (IH Hc Hsub). apply orb_true_r.
Qed.

(** A category term written with [@] keeps the letter case of its value,
    and the categories are compared in lower case: when the value has a
    capital letter, the term accepts no entry. *)
Theorem capital_in_category_matches_nothing (loader : string -> option pred)
        (items_dict : gmap string Item) (tok : string) (item : Item) :
  Str.startswith (Str.strip (Str.lower tok)) "@" = true ->
  has_char Str.is_upper (Str.drop 1 tok) = true ->
  (t ← _parse_filter_term loader tok; apply_term items_dict t item) = Ok false.
Proof.
  intros Hat Hup. unfold _parse_filter_term. rewrite Hat.
  cbn [mbind result_bind apply_term]. unfold match_category_filter. f_equal.
  assert (Hv : has_char Str.is_upper (Str.strip (Str.drop 1 tok)) = true).
  { unfold Str.strip. by rewrite has_upper_rstrip, has_upper_lstrip. }
  induction (categories item) as [|cat cats IH]; [done|].
  cbn [existsb]. rewrite IH, orb_false_r.
  destruct (Str.contains _ (Str.lower cat)) eqn:Hc; [|done].
  pose proof (has_char_contains Str.is_upper _ _ Hc Hv) as H.
  by rewrite lower_has_no_upper in H.
Qed.

Lemma capital_in_category_matches_nothing_witness :
  (t ← _parse_filter_term (fun _ => None) "@Fire";
   apply_term ∅ t
     {| name := "Charmander"; form := ""; number := "4"; categories := ["Fire"];
        tags := []; marks := ∅; stats := ∅; games := []; evolutions := [];
        has_alternate := false |})
  = Ok false.
Proof.
  apply (capital_in_category_matches_nothing (fun _ => None) ∅ "@Fire"); reflexivity.
Defined.

(* ===================================================================== *)
(** * A special case that names variants without the suffix *)
(* ===================================================================== *)

Lemma range_without_suffix (e : Item) (start end_ : pyfloat) :
  is_variant e = true -> match_number_range_filter e (start, end_, false) = Ok false.
Proof.
  unfold is_variant, match_number_range_filter. intros ->.
  destruct (Float.of_string (number e)) as [x|err]; [|done].
  by destruct (negb _).
Qed.

(** The key [lgpe_partner] gives the terms [#25.15] and [#133.01], which
    lack the suffix [f] and so accept no variant: a module that switches
    only this key off accepts every variant, the two that it names
    included. *)
Theorem lgpe_partner_hides_no_variant (items_dict : gmap string Item) (e : Item) :
  is_variant e = true ->
  (f ← compile_module_filter items_dict
         (build_module_filter_string (only_hiv_special "lgpe_partner"));
   f e)
  = Ok true.
Proof.
  intros Hvar.
  assert (Hc : exists a b,
    compile_module_filter items_dict
      (build_module_filter_string (only_hiv_special "lgpe_partner"))
    = Ok (eval_expr items_dict
            (E_not (E_or (E_call (T_number_range (Fin a, Fin a, false)))
                         (E_call (T_number_range (Fin b, Fin b, false))))))).
  { do 2 eexists. reflexivity. }
  destruct Hc as (a & b & ->).
  cbn [mbind result_bind eval_expr eval_literal unbound_name apply_term].
  by rewrite !range_without_suffix.
Qed.

Lemma lgpe_partner_hides_no_variant_witness :
  (f ← compile_module_filter ∅
         (build_module_filter_string (only_hiv_special "lgpe_partner"));
   f (entry "Partner Pikachu" "25.15"))
  = Ok true.
Proof. apply (lgpe_partner_hides_no_variant ∅). reflexivity. Defined.
